(** * NetworkedImageTrackingSync: ownership arbitration and state reconciliation

    A shallow embedding of the synchronisation component
    [NetworkedImageTrackingSync] (src/networking-local/server.js, second
    document of the file) and the properties of its message handlers.

    Conventions of the embedding.
    - Timestamps ([Date.now()], message [timestamp], [lastUpdate]) are
      integers, modelled as [Z].
    - The registry [syncedObjects : Map<string, SyncedTrackedObject>] is a
      [gmap string SyncedTrackedObject].  Loops over the registry enumerate
      [map_to_list]; the handlers never depend on the enumeration order
      except for the order of the messages sent within one loop.
    - Host objects ([Object3D]) live in a store [scene] indexed by handles;
      a registry record holds the handle of its object.  [GameObject.instantiate]
      allocates the next handle.
    - The vector, quaternion and matrix routines of the rendering library
      are an interface ([Three]); [RatThree] implements it in exact
      rational arithmetic, to run the model on concrete inputs and to prove
      what the component's use of the routines computes.
    - The calls to the transport and to the scene host are appended to
      [log], in the order they are made.
    - [createTrackedObject] is [async]: the part before [await] runs inside
      the calling handler and parks the message in [pendingLoads]; the part
      after [await] runs when the load settles ([onLoadSettled]). *)

From Stdlib Require Import ZArith QArith.
From stdpp Require Import base gmap strings list fin_maps pretty.

Local Open Scope Z_scope.

(** ** The rendering library's math, as an interface *)

Class Three := {
  number : Type;
  Vector3 : Type;
  Quaternion : Type;
  Matrix4 : Type;
  (** [v.applyMatrix4(m)] *)
  applyMatrix4 : Vector3 -> Matrix4 -> Vector3;
  (** [m.invert()] *)
  invertMatrix : Matrix4 -> Matrix4;
  (** [v.lerp(target, alpha)] *)
  lerp : Vector3 -> Vector3 -> number -> Vector3;
  (** [q.slerp(target, t)] *)
  slerp : Quaternion -> Quaternion -> number -> Quaternion;
  (** [this.premultiply(q)], that is [q * this] *)
  premultiply : Quaternion -> Quaternion -> Quaternion;
  (** [q.invert()] *)
  invertQuaternion : Quaternion -> Quaternion;
}.

(** ** Data model *)

Section Model.
Context `{Three}.

(** Wire messages (the [interface] declarations of the source). *)
Record TrackedImageSpawnMessage := {
  spawn_senderId : string;
  spawn_imageId : string;
  spawn_assetIndex : Z;
  spawn_relativePosition : Vector3;
  spawn_relativeRotation : Quaternion;
  spawn_timestamp : Z;
}.

Record TrackedImageTransformMessage := {
  transform_senderId : string;
  transform_imageId : string;
  transform_relativePosition : Vector3;
  transform_relativeRotation : Quaternion;
  transform_timestamp : Z;
}.

Record TrackedImageDespawnMessage := {
  despawn_senderId : string;
  despawn_imageId : string;
  despawn_timestamp : Z;
}.

Inductive OwnershipAction := request | release.

Record TrackedImageOwnershipMessage := {
  ownership_senderId : string;
  ownership_imageId : string;
  ownership_action : OwnershipAction;
  ownership_timestamp : Z;
}.

(** The object literal sent on [MSG_TRACKED_IMAGE_STATE_RESPONSE].  An absent
    or empty [targetId] is the empty string (both are falsy). *)
Record StateResponseMessage := {
  response_targetId : string;
  response_imageId : string;
  response_assetIndex : Z;
  response_ownerId : string;
  response_relativePosition : Vector3;
  response_relativeRotation : Quaternion;
  response_timestamp : Z;
}.

(** Registry record.  [object] is the handle of the host object. *)
Record SyncedTrackedObject := {
  object : nat;
  ownerId : string;
  assetIndex : Z;
  lastUpdate : Z;
  isLocallyTracked : bool;
}.

(** Host scene objects. *)
Inductive ParentRef := ParentSandboxRoot | ParentScene | ParentNone.

Record Object3D := {
  parent : ParentRef;
  position : Vector3;
  quaternion : Quaternion;
  active : bool;
  destroyed : bool;
}.

(** The anchor root as the component reads it: its world matrix and the
    rotation [getWorldQuaternion] extracts from it. *)
Record SandboxRoot := {
  matrixWorld : Matrix4;
  worldQuaternion : Quaternion;
}.

(** An entry of [imageTracking.trackedImages]; [hasObject] says whether its
    [object] asset reference is set. *)
Record WebXRTrackedImageModel := { hasObject : bool }.

(** An entry of the detection event's [detail]: [modelIndex] is
    [trackedImages.indexOf(image.model)] (or -1), the other two fields are
    what [getPosition] and [getQuaternion] write. *)
Record WebXRTrackedImage := {
  modelIndex : Z;
  imagePosition : Vector3;
  imageQuaternion : Quaternion;
}.

Inductive Topic :=
  | MSG_TRACKED_IMAGE_SPAWN
  | MSG_TRACKED_IMAGE_TRANSFORM
  | MSG_TRACKED_IMAGE_DESPAWN
  | MSG_TRACKED_IMAGE_OWNERSHIP
  | MSG_TRACKED_IMAGE_STATE_REQUEST
  | MSG_TRACKED_IMAGE_STATE_RESPONSE
  | JoinedRoom
  | UserLeftRoom.

Inductive Payload :=
  | SpawnPayload (m : TrackedImageSpawnMessage)
  | TransformPayload (m : TrackedImageTransformMessage)
  | DespawnPayload (m : TrackedImageDespawnMessage)
  | OwnershipPayload (m : TrackedImageOwnershipMessage)
  | StateRequestPayload (senderId : string)
  | StateResponsePayload (m : StateResponseMessage).

(** Calls to the collaborators, in the order they are made. *)
Inductive Effect :=
  | Send (p : Payload)
  | BeginListen (t : Topic)
  | StopListen (t : Topic)
  | AddImageTrackingListener
  | RemoveImageTrackingListener
  | Instantiate (h : nat)
  | Destroy (h : nat)
  | Warn
  | LogError.

(** Serialized properties and the collaborators' observable state. *)
Record Config := {
  imageTracking : option (list WebXRTrackedImageModel);
  sandboxRoot : option SandboxRoot;
  updateInterval : Z;
  interpolationFactor : number;
  connectionId : option string;
  isInRoom : bool;
  hasPlaced : bool;
}.

Record Peer := {
  config : Config;
  syncedObjects : gmap string SyncedTrackedObject;
  lastUpdateTime : Z;
  scene : gmap nat Object3D;
  nextHandle : nat;
  pendingLoads : list TrackedImageSpawnMessage;
  log : list Effect;
}.

Definition set_syncedObjects (r : gmap string SyncedTrackedObject) (p : Peer) : Peer :=
  {| config := config p; syncedObjects := r; lastUpdateTime := lastUpdateTime p;
     scene := scene p; nextHandle := nextHandle p;
     pendingLoads := pendingLoads p; log := log p |}.

Definition set_lastUpdateTime (t : Z) (p : Peer) : Peer :=
  {| config := config p; syncedObjects := syncedObjects p; lastUpdateTime := t;
     scene := scene p; nextHandle := nextHandle p;
     pendingLoads := pendingLoads p; log := log p |}.

Definition set_scene (s : gmap nat Object3D) (p : Peer) : Peer :=
  {| config := config p; syncedObjects := syncedObjects p;
     lastUpdateTime := lastUpdateTime p;
     scene := s; nextHandle := nextHandle p;
     pendingLoads := pendingLoads p; log := log p |}.

Definition set_nextHandle (n : nat) (p : Peer) : Peer :=
  {| config := config p; syncedObjects := syncedObjects p;
     lastUpdateTime := lastUpdateTime p;
     scene := scene p; nextHandle := n;
     pendingLoads := pendingLoads p; log := log p |}.

Definition set_pendingLoads (l : list TrackedImageSpawnMessage) (p : Peer) : Peer :=
  {| config := config p; syncedObjects := syncedObjects p;
     lastUpdateTime := lastUpdateTime p;
     scene := scene p; nextHandle := nextHandle p;
     pendingLoads := l; log := log p |}.

Definition emit (e : Effect) (p : Peer) : Peer :=
  {| config := config p; syncedObjects := syncedObjects p;
     lastUpdateTime := lastUpdateTime p;
     scene := scene p; nextHandle := nextHandle p;
     pendingLoads := pendingLoads p; log := log p ++ [e] |}.

(** [awake]: a fresh, empty registry. *)
Definition awake (c : Config) : Peer :=
  {| config := c; syncedObjects := ∅; lastUpdateTime := 0;
     scene := ∅; nextHandle := 0%nat; pendingLoads := []; log := [] |}.

(** ** Utility *)

Definition getLocalId (p : Peer) : string :=
  default "" (connectionId (config p)).

Definition canSync (p : Peer) : bool :=
  if negb (isInRoom (config p)) then false
  else if negb (bool_decide (is_Some (sandboxRoot (config p)))) then false
  else if negb (hasPlaced (config p)) then false
  else true.

Definition getImageId (image : WebXRTrackedImage) : string :=
  "tracked_image_" +:+ pretty (modelIndex image).

Definition getAssetIndex (image : WebXRTrackedImage) : Z := modelIndex image.

(** ** Coordinate transform *)

Definition calculateRelativeTransform (p : Peer) (image : WebXRTrackedImage)
  : option (Vector3 * Quaternion) :=
  match sandboxRoot (config p) with
  | None => None
  | Some root =>
      let sandboxInverseMatrix := invertMatrix (matrixWorld root) in
      let relativePos := applyMatrix4 (imagePosition image) sandboxInverseMatrix in
      let relativeRot :=
        premultiply (imageQuaternion image) (invertQuaternion (worldQuaternion root)) in
      Some (relativePos, relativeRot)
  end.

(** The world pose of a host object, as [getWorldPosition] and
    [getWorldQuaternion] report it, is the host's business; the snapshot
    sender takes it as an argument. *)
Definition calculateRelativeTransformFromObject (p : Peer)
    (worldPos : Vector3) (worldRot : Quaternion) : option (Vector3 * Quaternion) :=
  match sandboxRoot (config p) with
  | None => None
  | Some root =>
      let sandboxInverseMatrix := invertMatrix (matrixWorld root) in
      Some (applyMatrix4 worldPos sandboxInverseMatrix,
            premultiply worldRot (invertQuaternion (worldQuaternion root)))
  end.

(** The pose written by [applyRelativeTransform] on one object. *)
Definition smoothed (root : SandboxRoot) (factor : number) (o : Object3D)
    (relativePos : Vector3) (relativeRot : Quaternion) : Object3D :=
  match parent o with
  | ParentSandboxRoot =>
      {| parent := parent o;
         position := lerp (position o) relativePos factor;
         quaternion := slerp (quaternion o) relativeRot factor;
         active := active o; destroyed := destroyed o |}
  | _ =>
      let worldPos := applyMatrix4 relativePos (matrixWorld root) in
      let worldRot := premultiply relativeRot (worldQuaternion root) in
      {| parent := parent o;
         position := lerp (position o) worldPos factor;
         quaternion := slerp (quaternion o) worldRot factor;
         active := active o; destroyed := destroyed o |}
  end.

Definition applyRelativeTransform (h : nat)
    (relativePos : Vector3) (relativeRot : Quaternion) (p : Peer) : Peer :=
  match sandboxRoot (config p) with
  | None => p
  | Some root =>
      match scene p !! h with
      | None => p
      | Some o =>
          set_scene
            (<[h := smoothed root (interpolationFactor (config p)) o relativePos relativeRot]>
               (scene p)) p
      end
  end.

(** World pose of a host object: objects parented under the anchor root are
    carried through the root's frame, the others sit directly in the scene. *)
Definition worldPose (root : SandboxRoot) (o : Object3D) : Vector3 * Quaternion :=
  match parent o with
  | ParentSandboxRoot =>
      (applyMatrix4 (position o) (matrixWorld root),
       premultiply (quaternion o) (worldQuaternion root))
  | _ => (position o, quaternion o)
  end.

(** ** Network senders

    [now] is the value [Date.now()] returns during the handler. *)

Definition sendSpawnMessage (now : Z) (imageId : string) (assetIndex : Z)
    (transform : Vector3 * Quaternion) (p : Peer) : Peer :=
  emit (Send (SpawnPayload
    {| spawn_senderId := getLocalId p;
       spawn_imageId := imageId;
       spawn_assetIndex := assetIndex;
       spawn_relativePosition := transform.1;
       spawn_relativeRotation := transform.2;
       spawn_timestamp := now |})) p.

Definition sendTransformMessage (now : Z) (imageId : string)
    (transform : Vector3 * Quaternion) (p : Peer) : Peer :=
  emit (Send (TransformPayload
    {| transform_senderId := getLocalId p;
       transform_imageId := imageId;
       transform_relativePosition := transform.1;
       transform_relativeRotation := transform.2;
       transform_timestamp := now |})) p.

Definition sendDespawnMessage (now : Z) (imageId : string) (p : Peer) : Peer :=
  emit (Send (DespawnPayload
    {| despawn_senderId := getLocalId p;
       despawn_imageId := imageId;
       despawn_timestamp := now |})) p.

Definition requestOwnership (now : Z) (imageId : string) (p : Peer) : Peer :=
  emit (Send (OwnershipPayload
    {| ownership_senderId := getLocalId p;
       ownership_imageId := imageId;
       ownership_action := request;
       ownership_timestamp := now |})) p.

Definition releaseOwnership (now : Z) (imageId : string) (p : Peer) : Peer :=
  emit (Send (OwnershipPayload
    {| ownership_senderId := getLocalId p;
       ownership_imageId := imageId;
       ownership_action := release;
       ownership_timestamp := now |})) p.

(** ** Object management *)

(** [data.object.removeFromParent(); GameObject.destroy(data.object)] *)
Definition destroyObject (h : nat) (p : Peer) : Peer :=
  emit (Destroy h)
    (set_scene
       (alter (fun o => {| parent := ParentNone; position := position o;
                           quaternion := quaternion o; active := active o;
                           destroyed := true |}) h (scene p)) p).

Definition removeTrackedObject (imageId : string) (p : Peer) : Peer :=
  match syncedObjects p !! imageId with
  | None => p
  | Some data =>
      let p1 := destroyObject (object data) p in
      set_syncedObjects (delete imageId (syncedObjects p1)) p1
  end.

(** [trackedImages[i]] for a number [i]: [undefined] outside the array. *)
Definition trackedImageAt (trackedImages : list WebXRTrackedImageModel) (i : Z)
  : option WebXRTrackedImageModel :=
  if bool_decide (0 <= i) then trackedImages !! Z.to_nat i else None.

(** [createTrackedObject] up to its [await]: the guards run at once, the
    rest waits for the asset in [pendingLoads]. *)
Definition createTrackedObject (message : TrackedImageSpawnMessage) (p : Peer) : Peer :=
  match imageTracking (config p) with
  | None => p
  | Some trackedImages =>
      match trackedImageAt trackedImages (spawn_assetIndex message) with
      | Some trackedImageModel =>
          if hasObject trackedImageModel
          then set_pendingLoads (pendingLoads p ++ [message]) p
          else emit Warn p
      | None => emit Warn p
      end
  end.

(** How a pending [loadAssetAsync] settles, and what [GameObject.instantiate]
    then returns: [None] for a null instance, otherwise the local pose the
    fresh instance starts with. *)
Inductive LoadOutcome :=
  | AssetLoaded (instance : option (Vector3 * Quaternion))
  | AssetNull
  | AssetRejected.

Definition setActive (h : nat) (b : bool) (p : Peer) : Peer :=
  set_scene
    (alter (fun o => {| parent := parent o; position := position o;
                        quaternion := quaternion o; active := b;
                        destroyed := destroyed o |}) h (scene p)) p.

(** [createTrackedObject] after its [await], for the [k]-th pending load. *)
Definition onLoadSettled (k : nat) (outcome : LoadOutcome) (p : Peer) : Peer :=
  match pendingLoads p !! k with
  | None => p
  | Some message =>
      let p0 := set_pendingLoads (delete k (pendingLoads p)) p in
      match outcome with
      | AssetRejected => emit LogError p0
      | AssetNull => p0
      | AssetLoaded None => p0
      | AssetLoaded (Some pose0) =>
          let h := nextHandle p0 in
          let instance :=
            {| parent := match sandboxRoot (config p0) with
                         | Some _ => ParentSandboxRoot
                         | None => ParentScene
                         end;
               position := pose0.1; quaternion := pose0.2;
               active := false; destroyed := false |} in
          let p1 := emit (Instantiate h)
                      (set_nextHandle (S h) (set_scene (<[h := instance]> (scene p0)) p0)) in
          let p2 := applyRelativeTransform h (spawn_relativePosition message)
                      (spawn_relativeRotation message) p1 in
          let p3 := set_syncedObjects
                      (<[spawn_imageId message :=
                           {| object := h;
                              ownerId := spawn_senderId message;
                              assetIndex := spawn_assetIndex message;
                              lastUpdate := spawn_timestamp message;
                              isLocallyTracked :=
                                bool_decide (spawn_senderId message = getLocalId p2) |}]>
                         (syncedObjects p2)) p2 in
          setActive h true p3
      end
  end.

(** A [for (const [imageId, data] of this.syncedObjects)] loop.  The bodies
    in this component change the registry only by deleting the entry being
    visited, so visiting the entries present at loop entry is what the live
    iteration does.  The source visits the entries in the order of their
    insertion; [map_to_list] lists them in the order of their keys.  What is
    proved of such a loop is therefore what it does for each entry and in
    which order within one entry, not the order between two entries. *)
Definition forEachSynced (body : string -> SyncedTrackedObject -> Peer -> Peer)
    (p : Peer) : Peer :=
  foldl (fun acc kd => body kd.1 kd.2 acc) p (map_to_list (syncedObjects p)).

Definition despawnAllLocallyTracked (now : Z) (p : Peer) : Peer :=
  forEachSynced (fun imageId data acc =>
    if isLocallyTracked data then sendDespawnMessage now imageId acc else acc) p.

(** ** Image tracking handler *)

Definition checkForLostTracking (now : Z) (currentImages : list WebXRTrackedImage)
    (p : Peer) : Peer :=
  let currentIds : gset string := list_to_set (getImageId <$> currentImages) in
  forEachSynced (fun imageId data acc =>
    if isLocallyTracked data && negb (bool_decide (imageId ∈ currentIds))
    then removeTrackedObject imageId
           (sendDespawnMessage now imageId (releaseOwnership now imageId acc))
    else acc) p.

(** The body of the loop over the detected images. *)
Definition trackImage (now : Z) (shouldSendUpdate : bool)
    (image : WebXRTrackedImage) (p : Peer) : Peer :=
  let imageId := getImageId image in
  let assetIndex := getAssetIndex image in
  match calculateRelativeTransform p image with
  | None => p
  | Some relativeTransform =>
      match syncedObjects p !! imageId with
      | None => sendSpawnMessage now imageId assetIndex relativeTransform p
      | Some existingData =>
          if isLocallyTracked existingData && shouldSendUpdate
          then sendTransformMessage now imageId relativeTransform p
          else if negb (isLocallyTracked existingData)
                  && negb (bool_decide (ownerId existingData = getLocalId p))
          then requestOwnership now imageId p
          else p
      end
  end.

Definition onImageTrackingUpdate (now : Z) (images : list WebXRTrackedImage)
    (p : Peer) : Peer :=
  if negb (canSync p) then p
  else match images with
  | [] => p
  | _ =>
      let shouldSendUpdate := bool_decide (updateInterval (config p) <= now - lastUpdateTime p) in
      let p1 := foldl (fun acc image => trackImage now shouldSendUpdate image acc) p images in
      let p2 := if shouldSendUpdate then set_lastUpdateTime now p1 else p1 in
      checkForLostTracking now images p2
  end.

(** ** Network receivers *)

Definition onReceiveSpawn (message : TrackedImageSpawnMessage) (p : Peer) : Peer :=
  match syncedObjects p !! spawn_imageId message with
  | Some existingData =>
      if bool_decide (spawn_timestamp message < lastUpdate existingData)
      then set_syncedObjects
             (<[spawn_imageId message :=
                  {| object := object existingData;
                     ownerId := spawn_senderId message;
                     assetIndex := assetIndex existingData;
                     lastUpdate := lastUpdate existingData;
                     isLocallyTracked :=
                       bool_decide (spawn_senderId message = getLocalId p) |}]>
                (syncedObjects p)) p
      else p
  | None => createTrackedObject message p
  end.

Definition onReceiveTransform (message : TrackedImageTransformMessage) (p : Peer) : Peer :=
  match syncedObjects p !! transform_imageId message with
  | None => p
  | Some data =>
      if negb (bool_decide (transform_senderId message = ownerId data)) then p
      else if bool_decide (transform_senderId message = getLocalId p)
              && isLocallyTracked data then p
      else if bool_decide (transform_timestamp message < lastUpdate data) then p
      else
        let p1 := applyRelativeTransform (object data)
                    (transform_relativePosition message)
                    (transform_relativeRotation message) p in
        set_syncedObjects
          (<[transform_imageId message :=
               {| object := object data; ownerId := ownerId data;
                  assetIndex := assetIndex data;
                  lastUpdate := transform_timestamp message;
                  isLocallyTracked := isLocallyTracked data |}]>
             (syncedObjects p1)) p1
  end.

Definition onReceiveDespawn (message : TrackedImageDespawnMessage) (p : Peer) : Peer :=
  match syncedObjects p !! despawn_imageId message with
  | None => p
  | Some data =>
      if negb (bool_decide (despawn_senderId message = ownerId data)) then p
      else removeTrackedObject (despawn_imageId message) p
  end.

Definition onReceiveOwnership (message : TrackedImageOwnershipMessage) (p : Peer) : Peer :=
  match syncedObjects p !! ownership_imageId message with
  | None => p
  | Some data =>
      match ownership_action message with
      | request =>
          if negb (isLocallyTracked data)
             || negb (bool_decide (ownerId data = getLocalId p))
          then set_syncedObjects
                 (<[ownership_imageId message :=
                      {| object := object data;
                         ownerId := ownership_senderId message;
                         assetIndex := assetIndex data;
                         lastUpdate := lastUpdate data;
                         isLocallyTracked :=
                           bool_decide (ownership_senderId message = getLocalId p) |}]>
                    (syncedObjects p)) p
          else p
      | release =>
          if bool_decide (ownerId data = ownership_senderId message)
          then set_syncedObjects
                 (<[ownership_imageId message :=
                      {| object := object data;
                         ownerId := "";
                         assetIndex := assetIndex data;
                         lastUpdate := lastUpdate data;
                         isLocallyTracked := isLocallyTracked data |}]>
                    (syncedObjects p)) p
          else p
      end
  end.

Definition onReceiveStateRequest (now : Z) (senderId : string) (p : Peer) : Peer :=
  if bool_decide (senderId = getLocalId p) then p
  else forEachSynced (fun imageId data acc =>
    if isLocallyTracked data then
      match scene acc !! object data, sandboxRoot (config acc) with
      | Some o, Some root =>
          match calculateRelativeTransformFromObject acc
                  (worldPose root o).1 (worldPose root o).2 with
          | Some transform =>
              emit (Send (StateResponsePayload
                {| response_targetId := senderId;
                   response_imageId := imageId;
                   response_assetIndex := assetIndex data;
                   response_ownerId := ownerId data;
                   response_relativePosition := transform.1;
                   response_relativeRotation := transform.2;
                   response_timestamp := now |})) acc
          | None => acc
          end
      | _, _ => acc
      end
    else acc) p.

Definition onReceiveStateResponse (message : StateResponseMessage) (p : Peer) : Peer :=
  if negb (bool_decide (response_targetId message = ""))
     && negb (bool_decide (response_targetId message = getLocalId p)) then p
  else match syncedObjects p !! response_imageId message with
  | Some _ => p
  | None =>
      createTrackedObject
        {| spawn_senderId := response_ownerId message;
           spawn_imageId := response_imageId message;
           spawn_assetIndex := response_assetIndex message;
           spawn_relativePosition := response_relativePosition message;
           spawn_relativeRotation := response_relativeRotation message;
           spawn_timestamp := response_timestamp message |} p
  end.

Definition onUserJoined (userId : string) (p : Peer) : Peer :=
  if bool_decide (userId = getLocalId p)
  then emit (Send (StateRequestPayload (getLocalId p))) p
  else p.

Definition onUserLeft (userId : string) (p : Peer) : Peer :=
  forEachSynced (fun imageId objData acc =>
    if bool_decide (ownerId objData = userId)
    then removeTrackedObject imageId acc else acc) p.

(** ** Lifecycle *)

Definition networkTopics : list Topic :=
  [ MSG_TRACKED_IMAGE_SPAWN; MSG_TRACKED_IMAGE_TRANSFORM;
    MSG_TRACKED_IMAGE_DESPAWN; MSG_TRACKED_IMAGE_OWNERSHIP;
    MSG_TRACKED_IMAGE_STATE_REQUEST; MSG_TRACKED_IMAGE_STATE_RESPONSE;
    JoinedRoom; UserLeftRoom ].

Definition onEnable (p : Peer) : Peer :=
  let p1 := match imageTracking (config p) with
            | Some _ => emit AddImageTrackingListener p
            | None => emit Warn p
            end in
  let p2 := match sandboxRoot (config p1) with
            | Some _ => p1
            | None => emit Warn p1
            end in
  foldl (fun acc t => emit (BeginListen t) acc) p2 networkTopics.

Definition onDisable (now : Z) (p : Peer) : Peer :=
  let p1 := match imageTracking (config p) with
            | Some _ => emit RemoveImageTrackingListener p
            | None => p
            end in
  let p2 := foldl (fun acc t => emit (StopListen t) acc) p1 networkTopics in
  despawnAllLocallyTracked now p2.

Definition onDestroy (p : Peer) : Peer :=
  let p1 := forEachSynced (fun imageId data acc => destroyObject (object data) acc) p in
  set_syncedObjects ∅ p1.

(** ** The event loop

    Handlers run to completion, one event at a time. *)

Inductive Event :=
  | ImageTracking (now : Z) (images : list WebXRTrackedImage)
  | ReceiveSpawn (m : TrackedImageSpawnMessage)
  | ReceiveTransform (m : TrackedImageTransformMessage)
  | ReceiveDespawn (m : TrackedImageDespawnMessage)
  | ReceiveOwnership (m : TrackedImageOwnershipMessage)
  | ReceiveStateRequest (now : Z) (senderId : string)
  | ReceiveStateResponse (m : StateResponseMessage)
  | UserJoined (userId : string)
  | UserLeft (userId : string)
  | LoadSettled (k : nat) (outcome : LoadOutcome).

Definition dispatch (e : Event) (p : Peer) : Peer :=
  match e with
  | ImageTracking now images => onImageTrackingUpdate now images p
  | ReceiveSpawn m => onReceiveSpawn m p
  | ReceiveTransform m => onReceiveTransform m p
  | ReceiveDespawn m => onReceiveDespawn m p
  | ReceiveOwnership m => onReceiveOwnership m p
  | ReceiveStateRequest now senderId => onReceiveStateRequest now senderId p
  | ReceiveStateResponse m => onReceiveStateResponse m p
  | UserJoined userId => onUserJoined userId p
  | UserLeft userId => onUserLeft userId p
  | LoadSettled k outcome => onLoadSettled k outcome p
  end.

Definition run (events : list Event) (p : Peer) : Peer :=
  foldl (fun acc e => dispatch e acc) p events.

End Model.

Arguments awake {_} _.
Arguments run {_} _ _.

(** ** An exact-arithmetic implementation of the math interface

    Numbers are rationals; the routines follow the library's formulas.
    Division by zero yields 0 here (the library yields an infinity). *)

Record QVector3 := { vx : Q; vy : Q; vz : Q }.
Record QQuaternion := { qx : Q; qy : Q; qz : Q; qw : Q }.

(** A 4x4 matrix is its column-major [elements] array. *)
Definition QMatrix4 := list Q.

Definition element (m : QMatrix4) (r c : nat) : Q := nth (c * 4 + r) m 0%Q.

Definition q_applyMatrix4 (v : QVector3) (m : QMatrix4) : QVector3 :=
  let x := vx v in let y := vy v in let z := vz v in
  let w := (1 / (element m 3 0 * x + element m 3 1 * y + element m 3 2 * z + element m 3 3))%Q in
  {| vx := ((element m 0 0 * x + element m 0 1 * y + element m 0 2 * z + element m 0 3) * w)%Q;
     vy := ((element m 1 0 * x + element m 1 1 * y + element m 1 2 * z + element m 1 3) * w)%Q;
     vz := ((element m 2 0 * x + element m 2 1 * y + element m 2 2 * z + element m 2 3) * w)%Q |}.

Definition without (i : nat) : list nat :=
  filter (fun j => j ≠ i) [0; 1; 2; 3]%nat.

Definition det3 (m : QMatrix4) (rows cols : list nat) : Q :=
  match rows, cols with
  | [r0; r1; r2], [c0; c1; c2] =>
      (element m r0 c0 * (element m r1 c1 * element m r2 c2 - element m r1 c2 * element m r2 c1)
       - element m r0 c1 * (element m r1 c0 * element m r2 c2 - element m r1 c2 * element m r2 c0)
       + element m r0 c2 * (element m r1 c0 * element m r2 c1 - element m r1 c1 * element m r2 c0))%Q
  | _, _ => 0%Q
  end.

Definition cofactor (m : QMatrix4) (r c : nat) : Q :=
  let d := det3 m (without r) (without c) in
  if Nat.even (r + c) then d else (- d)%Q.

Definition determinant (m : QMatrix4) : Q :=
  (element m 0 0 * cofactor m 0 0 + element m 0 1 * cofactor m 0 1
   + element m 0 2 * cofactor m 0 2 + element m 0 3 * cofactor m 0 3)%Q.

(** The adjugate over the determinant; the zero matrix when the determinant
    is zero. *)
Definition q_invertMatrix (m : QMatrix4) : QMatrix4 :=
  let det := determinant m in
  if Qeq_bool det 0 then repeat 0%Q 16
  else
    c ← [0; 1; 2; 3]%nat;
    r ← [0; 1; 2; 3]%nat;
    [Qred (cofactor m c r / det)%Q].

Definition q_lerp (v target : QVector3) (alpha : Q) : QVector3 :=
  {| vx := Qred (vx v + (vx target - vx v) * alpha);
     vy := Qred (vy v + (vy target - vy v) * alpha);
     vz := Qred (vz v + (vz target - vz v) * alpha) |}.

(** [a * b] *)
Definition multiplyQuaternions (a b : QQuaternion) : QQuaternion :=
  {| qx := Qred (qx a * qw b + qw a * qx b + qy a * qz b - qz a * qy b);
     qy := Qred (qy a * qw b + qw a * qy b + qz a * qx b - qx a * qz b);
     qz := Qred (qz a * qw b + qw a * qz b + qx a * qy b - qy a * qx b);
     qw := Qred (qw a * qw b - qx a * qx b - qy a * qy b - qz a * qz b) |}.

Definition q_premultiply (this q : QQuaternion) : QQuaternion :=
  multiplyQuaternions q this.

(** The library inverts a quaternion by conjugating it. *)
Definition q_invertQuaternion (q : QQuaternion) : QQuaternion :=
  {| qx := Qred (- qx q); qy := Qred (- qy q); qz := Qred (- qz q); qw := qw q |}.

Definition q_dot (a b : QQuaternion) : Q :=
  (qx a * qx b + qy a * qy b + qz a * qz b + qw a * qw b)%Q.

(** [slerp]: the end points and the case of coinciding rotations are exact.
    In between the library needs a square root and trigonometric functions,
    which rationals do not have; this implementation blends the components
    linearly there.  The concrete runs below only interpolate between equal
    rotations. *)
Definition q_slerp (q target : QQuaternion) (t : Q) : QQuaternion :=
  if Qle_bool t 0 then q
  else if Qle_bool 1 t then target
  else if Qle_bool 1 (q_dot q target) then q
  else
    {| qx := Qred (qx q + (qx target - qx q) * t);
       qy := Qred (qy q + (qy target - qy q) * t);
       qz := Qred (qz q + (qz target - qz q) * t);
       qw := Qred (qw q + (qw target - qw q) * t) |}.

#[local] Instance RatThree : Three := {|
  number := Q;
  Vector3 := QVector3;
  Quaternion := QQuaternion;
  Matrix4 := QMatrix4;
  applyMatrix4 := q_applyMatrix4;
  invertMatrix := q_invertMatrix;
  lerp := q_lerp;
  slerp := q_slerp;
  premultiply := q_premultiply;
  invertQuaternion := q_invertQuaternion;
|}.

Definition identityMatrix : QMatrix4 :=
  [1; 0; 0; 0;  0; 1; 0; 0;  0; 0; 1; 0;  0; 0; 0; 1]%Q.

Definition identityQuaternion : QQuaternion :=
  {| qx := 0; qy := 0; qz := 0; qw := 1 |}.

Definition vec3 (x y z : Q) : QVector3 := {| vx := x; vy := y; vz := z |}.





(** ** The specification's vocabulary *)

Section Vocabulary.
Context `{Three}.

(** A Transform is accepted, in the specification's words: the sender is the
    stored owner, the sender is not the local peer while the entity is
    locally driven, and the timestamp is not older than the stored one. *)
Definition transformAccepted (p : Peer) (data : SyncedTrackedObject)
    (m : TrackedImageTransformMessage) : bool :=
  bool_decide (transform_senderId m = ownerId data)
  && negb (bool_decide (transform_senderId m = getLocalId p) && isLocallyTracked data)
  && bool_decide (lastUpdate data <= transform_timestamp m).

(** The pose update of a Transform has been applied to the entity's host
    object between [p] and [p']. *)
Definition poseUpdateApplied (p : Peer) (data : SyncedTrackedObject)
    (m : TrackedImageTransformMessage) (p' : Peer) : Prop :=
  exists root o,
    sandboxRoot (config p) = Some root /\
    scene p !! object data = Some o /\
    scene p' !! object data =
      Some (smoothed root (interpolationFactor (config p)) o
              (transform_relativePosition m) (transform_relativeRotation m)).

(** The entity's state (record and host object) is the same in [p] and [p']. *)
Definition entityUnchanged (imageId : string) (data : SyncedTrackedObject)
    (p p' : Peer) : Prop :=
  syncedObjects p' !! imageId = Some data /\
  scene p' !! object data = scene p !! object data.

(** [data] with its stored timestamp replaced by [t]. *)
Definition withLastUpdate (t : Z) (data : SyncedTrackedObject) : SyncedTrackedObject :=
  {| object := object data; ownerId := ownerId data; assetIndex := assetIndex data;
     lastUpdate := t; isLocallyTracked := isLocallyTracked data |}.

(** The ownership invariant of the data model. *)
Definition ownershipInvariant (p : Peer) : Prop :=
  forall imageId data,
    syncedObjects p !! imageId = Some data ->
    isLocallyTracked data = true -> ownerId data = getLocalId p.

(** Every registered host object has been allocated. *)
Definition handlesAllocated (p : Peer) : Prop :=
  forall imageId data,
    syncedObjects p !! imageId = Some data -> (object data < nextHandle p)%nat.

(** Host objects that are still attached to the scene although no registry
    record refers to them. *)
Definition orphaned (p : Peer) (h : nat) : Prop :=
  (exists o, scene p !! h = Some o /\ destroyed o = false /\ parent o <> ParentNone) /\
  (forall imageId data, syncedObjects p !! imageId = Some data -> object data <> h).

(** [p] with [es] appended to its log. *)
Definition appendLog (es : list Effect) (p : Peer) : Peer :=
  {| config := config p; syncedObjects := syncedObjects p;
     lastUpdateTime := lastUpdateTime p;
     scene := scene p; nextHandle := nextHandle p;
     pendingLoads := pendingLoads p; log := log p ++ es |}.

(** What [onDisable] unsubscribes, in order. *)
Definition unsubscriptions (p : Peer) : list Effect :=
  match imageTracking (config p) with
  | Some _ => [RemoveImageTrackingListener]
  | None => []
  end ++ (StopListen <$> networkTopics).

(** The Despawn messages for the locally tracked entries of a listing of
    the registry. *)
Definition despawnsOf (now : Z) (localId : string)
    (entries : list (string * SyncedTrackedObject)) : list Effect :=
  (fun kd => Send (DespawnPayload
     {| despawn_senderId := localId; despawn_imageId := kd.1;
        despawn_timestamp := now |}))
  <$> filter (fun kd => isLocallyTracked kd.2 = true) entries.

(** The host object [h] has been detached and destroyed. *)
Definition released (p : Peer) (h : nat) : Prop :=
  exists o, scene p !! h = Some o /\ destroyed o = true /\ parent o = ParentNone.

(** How the registry of [p'] relates to that of [p]: every record of [p']
    either continues a record of [p] under the same id, with the same host
    object and a timestamp that is not older, or is a new record whose host
    object has just been allocated. *)
Definition recordsContinue (p p' : Peer) : Prop :=
  (nextHandle p <= nextHandle p')%nat /\
  forall imageId data',
    syncedObjects p' !! imageId = Some data' ->
    (exists data,
       syncedObjects p !! imageId = Some data /\
       object data = object data' /\ lastUpdate data <= lastUpdate data') \/
    (object data' = nextHandle p /\ (nextHandle p < nextHandle p')%nat).

(** An Ownership release that names the local peer as its sender. *)
Definition releaseBySelf (p : Peer) (e : Event) : Prop :=
  match e with
  | ReceiveOwnership m =>
      ownership_action m = release /\ ownership_senderId m = getLocalId p
  | _ => False
  end.

(** A Transform for the entity [imageId] sent by the owner stored in [data]. *)
Definition sentByOwner (imageId : string) (data : SyncedTrackedObject)
    (m : TrackedImageTransformMessage) : Prop :=
  transform_imageId m = imageId /\ transform_senderId m = ownerId data.

(** [q] is [p] up to Transforms accepted for the entity [imageId], the last
    of them stamped [t]. *)
Definition tracksEntity (p : Peer) (imageId : string) (data : SyncedTrackedObject)
    (q : Peer) (t : Z) : Prop :=
  config q = config p /\
  syncedObjects q = <[imageId := withLastUpdate t data]> (syncedObjects p).

Definition deliverTransforms (msgs : list TrackedImageTransformMessage) (p : Peer) : Peer :=
  run (ReceiveTransform <$> msgs) p.

(** *** Vocabulary of the further properties *)

(** The effects of a loop that removes the entries selected by [selected]:
    for each of them, in the order of the listing, the messages [before]
    sends for it and then the destruction of its host object. *)
Definition removalLog (before : string -> list Effect)
    (selected : string -> SyncedTrackedObject -> bool)
    (entries : list (string * SyncedTrackedObject)) : list Effect :=
  filter (fun kd => selected kd.1 kd.2 = true) entries
    ≫= (fun kd => before kd.1 ++ [Destroy (object kd.2)]).

(** The two messages sent for an entity whose tracking is lost. *)
Definition lostTrackingMessages (now : Z) (localId imageId : string) : list Effect :=
  [ Send (OwnershipPayload
      {| ownership_senderId := localId; ownership_imageId := imageId;
         ownership_action := release; ownership_timestamp := now |});
    Send (DespawnPayload
      {| despawn_senderId := localId; despawn_imageId := imageId;
         despawn_timestamp := now |}) ].

(** The ids of the detected images. *)
Definition detectedIds (images : list WebXRTrackedImage) : gset string :=
  list_to_set (getImageId <$> images).

(** A locally tracked entry whose image is not among the detected ones. *)
Definition trackingLost (images : list WebXRTrackedImage)
    (imageId : string) (data : SyncedTrackedObject) : bool :=
  isLocallyTracked data && negb (bool_decide (imageId ∈ detectedIds images)).

(** No two registry records share a host object. *)
Definition objectsDistinct (p : Peer) : Prop :=
  forall i j di dj,
    syncedObjects p !! i = Some di -> syncedObjects p !! j = Some dj ->
    object di = object dj -> i = j.

(** Every registered host object is in the scene and has not been destroyed. *)
Definition registeredLive (p : Peer) : Prop :=
  forall imageId data,
    syncedObjects p !! imageId = Some data ->
    exists o, scene p !! object data = Some o /\ destroyed o = false.

(** Every host object whose destruction is logged is marked destroyed. *)
Definition destroyedLogged (p : Peer) : Prop :=
  forall h, Destroy h ∈ log p ->
    exists o, scene p !! h = Some o /\ destroyed o = true.

(** The handles whose destruction is logged, in order. *)
Definition destroyedHandles (es : list Effect) : list nat :=
  es ≫= (fun e => match e with Destroy h => [h] | _ => [] end).

(** Every host object of the scene has been allocated. *)
Definition sceneAllocated (p : Peer) : Prop :=
  forall h o, scene p !! h = Some o -> (h < nextHandle p)%nat.

Definition wellFormed (p : Peer) : Prop :=
  handlesAllocated p /\ sceneAllocated p /\ objectsDistinct p /\ registeredLive p /\
  destroyedLogged p /\ NoDup (destroyedHandles (log p)).

(** The snapshot a peer sends to [requester] for one registry entry: one
    StateResponse when the entry is locally tracked, its host object is in
    the scene and the anchor root is assigned, nothing otherwise. *)
Definition stateResponseFor (now : Z) (requester : string) (p : Peer)
    (imageId : string) (data : SyncedTrackedObject) : list Effect :=
  if isLocallyTracked data then
    match scene p !! object data, sandboxRoot (config p) with
    | Some o, Some root =>
        match calculateRelativeTransformFromObject p
                (worldPose root o).1 (worldPose root o).2 with
        | Some transform =>
            [ Send (StateResponsePayload
                {| response_targetId := requester;
                   response_imageId := imageId;
                   response_assetIndex := assetIndex data;
                   response_ownerId := ownerId data;
                   response_relativePosition := transform.1;
                   response_relativeRotation := transform.2;
                   response_timestamp := now |}) ]
        | None => []
        end
    | _, _ => []
    end
  else [].

(** The Transform messages among the effects. *)
Definition isTransformSend (e : Effect) : bool :=
  match e with Send (TransformPayload _) => true | _ => false end.

(** A message sent in the name of [localId]: it carries [localId] as its
    sender, and a state snapshot is addressed to some other peer. *)
Definition sentAs (localId : string) (e : Effect) : Prop :=
  match e with
  | Send (SpawnPayload m) => spawn_senderId m = localId
  | Send (TransformPayload m) => transform_senderId m = localId
  | Send (DespawnPayload m) => despawn_senderId m = localId
  | Send (OwnershipPayload m) => ownership_senderId m = localId
  | Send (StateRequestPayload senderId) => senderId = localId
  | Send (StateResponsePayload m) => response_targetId m <> localId
  | _ => True
  end.

Definition isSend (e : Effect) : bool :=
  match e with Send _ => true | _ => false end.

(** The events whose handlers call [connection.send]: a detection, a state
    request and a join. *)
Definition sendingEvent (e : Event) : bool :=
  match e with
  | ImageTracking _ _ | ReceiveStateRequest _ _ | UserJoined _ => true
  | _ => false
  end.

(** The subscriptions [onEnable] makes. *)
Definition isSubscription (e : Effect) : bool :=
  match e with BeginListen _ | AddImageTrackingListener => true | _ => false end.

(** The call that undoes a subscription. *)
Definition undoes (e : Effect) : Effect :=
  match e with
  | BeginListen t => StopListen t
  | AddImageTrackingListener => RemoveImageTrackingListener
  | _ => e
  end.


(** The Spawn that [onReceiveStateResponse] builds from a snapshot. *)
Definition asSpawn (m : StateResponseMessage) : TrackedImageSpawnMessage :=
  {| spawn_senderId := response_ownerId m;
     spawn_imageId := response_imageId m;
     spawn_assetIndex := response_assetIndex m;
     spawn_relativePosition := response_relativePosition m;
     spawn_relativeRotation := response_relativeRotation m;
     spawn_timestamp := response_timestamp m |}.

(** *** Statements of the specification that the code does not meet *)

(** Transform receipt: the pose update is applied exactly when the message
    is accepted, and otherwise the entity's state is unchanged. *)
Definition transformClaim (p : Peer) (data : SyncedTrackedObject)
    (m : TrackedImageTransformMessage) : Prop :=
  (poseUpdateApplied p data m (onReceiveTransform m p)
     <-> transformAccepted p data m = true) /\
  (~ poseUpdateApplied p data m (onReceiveTransform m p) ->
     entityUnchanged (transform_imageId m) data p (onReceiveTransform m p)).

(** Teardown: Despawn for the locally owned entities, then every registry
    entry released, then the handlers unsubscribed. *)
Definition teardownClaim (now : Z) (p : Peer) : Prop :=
  (forall imageId data,
     syncedObjects p !! imageId = Some data -> isLocallyTracked data = true ->
     Send (DespawnPayload {| despawn_senderId := getLocalId p;
                             despawn_imageId := imageId;
                             despawn_timestamp := now |})
       ∈ log (onDisable now p)) /\
  syncedObjects (onDisable now p) = ∅ /\
  (forall imageId data,
     syncedObjects p !! imageId = Some data -> released (onDisable now p) (object data)) /\
  (forall i j t m,
     log (onDisable now p) !! i = Some (StopListen t) ->
     log (onDisable now p) !! j = Some (Send (DespawnPayload m)) ->
     (j < i)%nat).

(** Detection of an unregistered anchor: a Spawn is sent and the entity is
    locally owned when the handler returns. *)
Definition detectionClaim (now : Z) (images : list WebXRTrackedImage)
    (image : WebXRTrackedImage) (p : Peer) : Prop :=
  canSync p = true -> image ∈ images ->
  syncedObjects p !! getImageId image = None ->
  (exists m, Send (SpawnPayload m) ∈ log (onImageTrackingUpdate now images p) /\
             spawn_imageId m = getImageId image) /\
  exists data,
    syncedObjects (onImageTrackingUpdate now images p) !! getImageId image = Some data /\
    ownerId data = getLocalId p /\ isLocallyTracked data = true.

End Vocabulary.

(** ** Concrete peers and messages *)

Module Scenario.

Definition root0 : SandboxRoot :=
  {| matrixWorld := identityMatrix; worldQuaternion := identityQuaternion |}.

(** Peer "A": in a room, anchor placed, one asset slot, smoothing 1/2. *)
Definition configA : Config :=
  {| imageTracking := Some [ {| hasObject := true |} ];
     sandboxRoot := Some root0;
     updateInterval := 50;
     interpolationFactor := (1 # 2)%Q;
     connectionId := Some "A";
     isInRoom := true;
     hasPlaced := true |}.

(** The same peer with the anchor root left unassigned. *)
Definition configNoRoot : Config :=
  {| imageTracking := Some [ {| hasObject := true |} ];
     sandboxRoot := None;
     updateInterval := 50;
     interpolationFactor := (1 # 2)%Q;
     connectionId := Some "A";
     isInRoom := true;
     hasPlaced := true |}.

Definition pose0 : QVector3 * QQuaternion := (vec3 0 0 0, identityQuaternion).

Definition spawnFrom (sender : string) (t : Z) : TrackedImageSpawnMessage :=
  {| spawn_senderId := sender; spawn_imageId := "tracked_image_0";
     spawn_assetIndex := 0;
     spawn_relativePosition := vec3 0 0 0;
     spawn_relativeRotation := identityQuaternion;
     spawn_timestamp := t |}.

Definition transformFrom (sender : string) (x : Q) (t : Z) : TrackedImageTransformMessage :=
  {| transform_senderId := sender; transform_imageId := "tracked_image_0";
     transform_relativePosition := vec3 x 0 0;
     transform_relativeRotation := identityQuaternion;
     transform_timestamp := t |}.

(** The registry after a Spawn from [sender] at time [t] has been received
    and its asset has loaded. *)
Definition spawned (c : Config) (sender : string) (t : Z) : Peer :=
  run [ReceiveSpawn (spawnFrom sender t); LoadSettled 0 (AssetLoaded (Some pose0))]
      (awake c).

(** Peer "A" holding the entity spawned by "B" at time 10, with and without
    an anchor root, and peer "A" holding its own entity. *)
Definition remoteEntity : Peer := spawned configA "B" 10.
Definition remoteEntityNoRoot : Peer := spawned configNoRoot "B" 10.
Definition ownEntity : Peer := spawned configA "A" 10.

Definition recordOf (sender : string) (t : Z) (locally : bool) : SyncedTrackedObject :=
  {| object := 0%nat; ownerId := sender; assetIndex := 0; lastUpdate := t;
     isLocallyTracked := locally |}.

Definition detected0 : WebXRTrackedImage :=
  {| modelIndex := 0; imagePosition := vec3 1 2 3; imageQuaternion := identityQuaternion |}.

Definition imageId0 : string := "tracked_image_0".

Definition releaseFrom (sender : string) (t : Z) : TrackedImageOwnershipMessage :=
  {| ownership_senderId := sender; ownership_imageId := imageId0;
     ownership_action := release; ownership_timestamp := t |}.

Definition despawnFrom (sender : string) (t : Z) : TrackedImageDespawnMessage :=
  {| despawn_senderId := sender; despawn_imageId := imageId0; despawn_timestamp := t |}.

(** Two rational poses agree. *)
Definition samePose (o : Object3D) (pos : QVector3) (rot : QQuaternion) : Prop :=
  (vx (position o) == vx pos /\ vy (position o) == vy pos /\ vz (position o) == vz pos /\
   qx (quaternion o) == qx rot /\ qy (quaternion o) == qy rot /\
   qz (quaternion o) == qz rot /\ qw (quaternion o) == qw rot)%Q.

(** Reordering, as the specification states it: in whatever order the messages are
    delivered, the host object [h] ends with the pose carried by the newest
    message. *)
Definition finalPoseIsNewest (p : Peer) (h : nat)
    (msgs : list TrackedImageTransformMessage) : Prop :=
  forall order newest,
    order ≡ₚ msgs -> newest ∈ msgs ->
    (forall m, m ∈ msgs -> transform_timestamp m <= transform_timestamp newest) ->
    exists o,
      scene (deliverTransforms order p) !! h = Some o /\
      samePose o (transform_relativePosition newest) (transform_relativeRotation newest).

(** Two Transforms from "B": the older one carries x = 8, the newer x = 16. *)
Definition older8 : TrackedImageTransformMessage := transformFrom "B" 8 11.
Definition newer16 : TrackedImageTransformMessage := transformFrom "B" 16 12.

Definition requestFrom (sender : string) (t : Z) : TrackedImageOwnershipMessage :=
  {| ownership_senderId := sender; ownership_imageId := imageId0;
     ownership_action := request; ownership_timestamp := t |}.

(** A detection of the image in slot 1, for which peer "A" has no asset. *)
Definition detected1 : WebXRTrackedImage :=
  {| modelIndex := 1; imagePosition := vec3 0 0 0; imageQuaternion := identityQuaternion |}.

(** The snapshot of B's entity, addressed to peer "A". *)
Definition snapshotOfB : StateResponseMessage :=
  {| response_targetId := "A"; response_imageId := imageId0;
     response_assetIndex := 0; response_ownerId := "B";
     response_relativePosition := vec3 0 0 0;
     response_relativeRotation := identityQuaternion;
     response_timestamp := 10 |}.

(** A Spawn naming an asset slot that peer "A" does not have. *)
Definition spawnOfSlot5 : TrackedImageSpawnMessage :=
  {| spawn_senderId := "B"; spawn_imageId := "tracked_image_5";
     spawn_assetIndex := 5;
     spawn_relativePosition := vec3 0 0 0;
     spawn_relativeRotation := identityQuaternion;
     spawn_timestamp := 10 |}.




End Scenario.

(** ** Properties of the handlers *)

Section Properties.
Context `{Three}.

Implicit Types (p : Peer) (data : SyncedTrackedObject).

(** *** Transform receipt *)

Lemma applyRelativeTransform_registry h pos rot p :
  syncedObjects (applyRelativeTransform h pos rot p) = syncedObjects p.
Proof.
  unfold applyRelativeTransform.
  destruct (sandboxRoot (config p)); [|done].
  by destruct (scene p !! h).
Qed.

Lemma applyRelativeTransform_no_root h pos rot p :
  sandboxRoot (config p) = None -> applyRelativeTransform h pos rot p = p.
Proof. intros Hr. unfold applyRelativeTransform. by rewrite Hr. Qed.

Lemma transform_guards_rejected p m data :
  syncedObjects p !! transform_imageId m = Some data ->
  transformAccepted p data m = false ->
  onReceiveTransform m p = p.
Proof.
  intros Hl Hacc. unfold onReceiveTransform. rewrite Hl.
  unfold transformAccepted in Hacc.
  repeat case_bool_decide; simpl in *; try done; try lia.
  all: destruct (isLocallyTracked data); simpl in *; try done; lia.
Qed.

Lemma transform_guards_accepted p m data :
  syncedObjects p !! transform_imageId m = Some data ->
  transformAccepted p data m = true ->
  onReceiveTransform m p =
    set_syncedObjects
      (<[transform_imageId m := withLastUpdate (transform_timestamp m) data]>
         (syncedObjects p))
      (applyRelativeTransform (object data) (transform_relativePosition m)
         (transform_relativeRotation m) p).
Proof.
  intros Hl Hacc. unfold onReceiveTransform. rewrite Hl.
  unfold transformAccepted in Hacc. unfold withLastUpdate.
  rewrite applyRelativeTransform_registry.
  destruct (isLocallyTracked data);
    repeat case_bool_decide; simpl in *; try done; lia.
Qed.

(** C1 (as amended).  For a registered entity a Transform is accepted exactly
    when the sender is the stored owner, the sender is not the local peer
    while the entity is locally driven, and the timestamp is not older than
    the stored one.  A message that is not accepted leaves the whole peer
    unchanged.  An accepted message stores its timestamp; it moves the host
    object toward the carried pose when the anchor root is assigned and
    leaves every pose as it is when the anchor root is unassigned. *)
Theorem transform_receipt p m data :
  syncedObjects p !! transform_imageId m = Some data ->
  (transformAccepted p data m = false -> onReceiveTransform m p = p) /\
  (transformAccepted p data m = true ->
     onReceiveTransform m p =
       set_syncedObjects
         (<[transform_imageId m := withLastUpdate (transform_timestamp m) data]>
            (syncedObjects p))
         (set_scene
            match sandboxRoot (config p), scene p !! object data with
            | Some root, Some o =>
                <[object data :=
                    smoothed root (interpolationFactor (config p)) o
                      (transform_relativePosition m) (transform_relativeRotation m)]>
                  (scene p)
            | _, _ => scene p
            end p)).
Proof.
  intros Hl. split; [by apply transform_guards_rejected|].
  intros Hacc. rewrite (transform_guards_accepted _ _ _ Hl Hacc).
  unfold applyRelativeTransform.
  destruct (sandboxRoot (config p)); [|by destruct p].
  destruct (scene p !! object data); [done|by destruct p].
Qed.

(** *** Spawn receipt for a registered id *)

(** C2.  A Spawn for a registered id with a strictly older timestamp makes
    the sender the owner and sets [isLocallyTracked] to whether the sender is
    the local peer; the host object, asset index and stored timestamp stay
    as they are, as does the rest of the peer.  A Spawn that is not older
    changes nothing. *)
Theorem spawn_for_registered_id p m data :
  syncedObjects p !! spawn_imageId m = Some data ->
  (spawn_timestamp m < lastUpdate data ->
     onReceiveSpawn m p =
       set_syncedObjects
         (<[spawn_imageId m :=
              {| object := object data;
                 ownerId := spawn_senderId m;
                 assetIndex := assetIndex data;
                 lastUpdate := lastUpdate data;
                 isLocallyTracked := bool_decide (spawn_senderId m = getLocalId p) |}]>
            (syncedObjects p)) p /\
     scene (onReceiveSpawn m p) = scene p) /\
  (lastUpdate data <= spawn_timestamp m -> onReceiveSpawn m p = p).
Proof.
  intros Hl. unfold onReceiveSpawn. rewrite Hl.
  split; intros Ht; case_bool_decide; try lia; done.
Qed.

(** *** Despawn receipt *)

Lemma removeTrackedObject_registered imageId data p :
  syncedObjects p !! imageId = Some data ->
  removeTrackedObject imageId p =
    set_syncedObjects (delete imageId (syncedObjects p)) (destroyObject (object data) p).
Proof. intros Hl. unfold removeTrackedObject. by rewrite Hl. Qed.

(** C10.  Despawn handling never looks at the timestamp.  For a registered
    entity, a Despawn from the stored owner deletes the record, detaches and
    destroys the host object and nothing else, whatever the message's
    timestamp is; a Despawn from any other sender changes nothing; a Despawn
    for an unregistered id changes nothing. *)
Theorem despawn_receipt p m :
  (forall data,
     syncedObjects p !! despawn_imageId m = Some data ->
     despawn_senderId m = ownerId data ->
     onReceiveDespawn m p =
       set_syncedObjects (delete (despawn_imageId m) (syncedObjects p))
         (destroyObject (object data) p) /\
     syncedObjects (onReceiveDespawn m p) = delete (despawn_imageId m) (syncedObjects p) /\
     scene (onReceiveDespawn m p) !! object data =
       (fun o => {| parent := ParentNone; position := position o;
                    quaternion := quaternion o; active := active o;
                    destroyed := true |}) <$> scene p !! object data /\
     log (onReceiveDespawn m p) = log p ++ [Destroy (object data)]) /\
  (forall data,
     syncedObjects p !! despawn_imageId m = Some data ->
     despawn_senderId m <> ownerId data ->
     onReceiveDespawn m p = p) /\
  (syncedObjects p !! despawn_imageId m = None -> onReceiveDespawn m p = p).
Proof.
  unfold onReceiveDespawn. split; [|split].
  - intros data Hl Hs. rewrite Hl, (bool_decide_eq_true_2 _ Hs). simpl.
    rewrite (removeTrackedObject_registered _ _ _ Hl). simpl.
    by rewrite lookup_alter_eq.
  - intros data Hl Hne. rewrite Hl. by case_bool_decide.
  - intros Hl. by rewrite Hl.
Qed.

(** *** Loops over the registry *)

Lemma appendLog_nil p : appendLog [] p = p.
Proof. destruct p. unfold appendLog. simpl. by rewrite app_nil_r. Qed.

Lemma appendLog_app es1 es2 p :
  appendLog es2 (appendLog es1 p) = appendLog (es1 ++ es2) p.
Proof. unfold appendLog. simpl. by rewrite app_assoc. Qed.

Lemma emit_appendLog e p : emit e p = appendLog [e] p.
Proof. done. Qed.

Lemma foldl_entries_ind (P : Peer -> Prop) body p0
    (entries : list (string * SyncedTrackedObject)) :
  (forall kd acc, kd ∈ entries -> P acc -> P (body kd.1 kd.2 acc)) ->
  P p0 ->
  P (foldl (fun acc kd => body kd.1 kd.2 acc) p0 entries).
Proof.
  revert p0. induction entries as [|kd entries IH]; intros p0 Hstep Hp; [done|].
  simpl. apply IH.
  - intros kd' acc Hin. apply Hstep. by apply list_elem_of_further.
  - apply Hstep; [apply list_elem_of_here | done].
Qed.

Lemma forEachSynced_ind (P : Peer -> Prop) body p :
  P p ->
  (forall imageId data acc,
     syncedObjects p !! imageId = Some data -> P acc -> P (body imageId data acc)) ->
  P (forEachSynced body p).
Proof.
  intros Hp Hstep. unfold forEachSynced. apply foldl_entries_ind; [|done].
  intros [k d] acc Hin. apply Hstep. by apply elem_of_map_to_list.
Qed.

(** *** Teardown *)

Lemma foldl_stopListen (ts : list Topic) p :
  foldl (fun acc t => emit (StopListen t) acc) p ts = appendLog (StopListen <$> ts) p.
Proof.
  revert p. induction ts as [|t ts IH]; intros p; simpl.
  - by rewrite appendLog_nil.
  - by rewrite IH, emit_appendLog, appendLog_app.
Qed.

Lemma foldl_despawns now (entries : list (string * SyncedTrackedObject)) p :
  foldl (fun acc kd =>
           (fun imageId data acc =>
              if isLocallyTracked data then sendDespawnMessage now imageId acc else acc)
             kd.1 kd.2 acc) p entries
  = appendLog (despawnsOf now (getLocalId p) entries) p.
Proof.
  revert p. induction entries as [|[k d] entries IH]; intros p; simpl.
  - by rewrite appendLog_nil.
  - rewrite IH. unfold despawnsOf. rewrite filter_cons. simpl.
    destruct (isLocallyTracked d) eqn:Hd.
    + rewrite decide_True by done. simpl.
      unfold sendDespawnMessage. by rewrite emit_appendLog, appendLog_app.
    + rewrite decide_False by done. done.
Qed.

Lemma despawnAllLocallyTracked_effects now p :
  despawnAllLocallyTracked now p
  = appendLog (despawnsOf now (getLocalId p) (map_to_list (syncedObjects p))) p.
Proof. unfold despawnAllLocallyTracked, forEachSynced. apply foldl_despawns. Qed.

Lemma onDisable_effects now p :
  onDisable now p
  = appendLog (unsubscriptions p
               ++ despawnsOf now (getLocalId p) (map_to_list (syncedObjects p))) p.
Proof.
  unfold onDisable. rewrite despawnAllLocallyTracked_effects, foldl_stopListen.
  unfold unsubscriptions.
  destruct (imageTracking (config p)) eqn:Hi; simpl.
  - rewrite emit_appendLog, !appendLog_app. done.
  - rewrite !appendLog_app. done.
Qed.

Lemma destroyObject_released h h' p :
  released p h -> released (destroyObject h' p) h.
Proof.
  intros (o & Ho & Hd & Hp). unfold released, destroyObject. simpl.
  destruct (decide (h' = h)) as [->|Hne].
  - rewrite lookup_alter_eq, Ho. simpl. eauto.
  - rewrite lookup_alter_ne by done. eauto.
Qed.

Lemma destroyObject_releases h p :
  is_Some (scene p !! h) -> released (destroyObject h p) h.
Proof.
  intros [o Ho]. unfold released, destroyObject. simpl.
  rewrite lookup_alter_eq, Ho. simpl. eauto.
Qed.

Lemma destroyObject_scene_dom h h' p :
  is_Some (scene p !! h) -> is_Some (scene (destroyObject h' p) !! h).
Proof.
  intros [o Ho]. unfold destroyObject. simpl.
  destruct (decide (h' = h)) as [->|Hne].
  - rewrite lookup_alter_eq, Ho. simpl. eauto.
  - rewrite lookup_alter_ne by done. eauto.
Qed.

Lemma foldl_destroy_log_grows (entries : list (string * SyncedTrackedObject)) p e :
  e ∈ log p ->
  e ∈ log (foldl (fun acc kd => destroyObject (object kd.2) acc) p entries).
Proof.
  revert p. induction entries as [|x entries IH]; intros p He; [done|].
  simpl. apply IH. simpl. apply elem_of_app. by left.
Qed.

Lemma foldl_destroy_logged (entries : list (string * SyncedTrackedObject)) p kd :
  kd ∈ entries ->
  Destroy (object kd.2)
    ∈ log (foldl (fun acc kd => destroyObject (object kd.2) acc) p entries).
Proof.
  revert p. induction entries as [|x entries IH]; intros p Hin.
  - by apply elem_of_nil in Hin.
  - simpl. apply elem_of_cons in Hin as [->|Hin]; [|by apply IH].
    apply foldl_destroy_log_grows. simpl.
    apply elem_of_app. right. apply list_elem_of_here.
Qed.

Lemma foldl_destroy_keeps_released (entries : list (string * SyncedTrackedObject)) p h :
  released p h ->
  released (foldl (fun acc kd => destroyObject (object kd.2) acc) p entries) h.
Proof.
  revert p. induction entries as [|x entries IH]; intros p Hr; [done|].
  simpl. apply IH. by apply destroyObject_released.
Qed.

Lemma foldl_destroy_released (entries : list (string * SyncedTrackedObject)) p kd :
  kd ∈ entries ->
  is_Some (scene p !! object kd.2) ->
  released (foldl (fun acc kd => destroyObject (object kd.2) acc) p entries)
    (object kd.2).
Proof.
  revert p. induction entries as [|x entries IH]; intros p Hin Hsome.
  - by apply elem_of_nil in Hin.
  - simpl. apply elem_of_cons in Hin as [->|Hin].
    + apply foldl_destroy_keeps_released. by apply destroyObject_releases.
    + apply IH; [done|]. by apply destroyObject_scene_dom.
Qed.

(** C8 (as amended).  [onDisable] first unsubscribes (the detection listener,
    then the eight network topics) and only then sends one Despawn for every
    locally tracked entry; it releases nothing: the registry and the host
    objects are as before.  The registry entries are released by [onDestroy]:
    it destroys the host object of every record and leaves the registry
    empty. *)
Theorem teardown_order now p :
  (log (onDisable now p) =
     log p ++ unsubscriptions p
           ++ despawnsOf now (getLocalId p) (map_to_list (syncedObjects p)) /\
   syncedObjects (onDisable now p) = syncedObjects p /\
   scene (onDisable now p) = scene p) /\
  (syncedObjects (onDestroy p) = ∅ /\
   forall imageId data,
     syncedObjects p !! imageId = Some data ->
     Destroy (object data) ∈ log (onDestroy p) /\
     (is_Some (scene p !! object data) -> released (onDestroy p) (object data))).
Proof.
  split.
  - rewrite onDisable_effects. done.
  - split; [done|]. intros imageId data Hl.
    apply elem_of_map_to_list in Hl.
    unfold onDestroy, forEachSynced. simpl. split.
    + apply (foldl_destroy_logged _ p (imageId, data) Hl).
    + intros Hs. apply (foldl_destroy_released _ p (imageId, data) Hl Hs).
Qed.

(** *** Detection of an anchor that is not registered *)

Lemma trackImage_emits now b image p :
  exists es, trackImage now b image p = appendLog es p.
Proof.
  unfold trackImage.
  destruct (calculateRelativeTransform p image) as [transform|];
    [|exists []; by rewrite appendLog_nil].
  destruct (syncedObjects p !! getImageId image) as [existingData|].
  - destruct (isLocallyTracked existingData && b).
    + eexists. apply emit_appendLog.
    + destruct (negb (isLocallyTracked existingData)
                && negb (bool_decide (ownerId existingData = getLocalId p))).
      * eexists. apply emit_appendLog.
      * exists []. by rewrite appendLog_nil.
  - eexists. apply emit_appendLog.
Qed.

Lemma foldl_trackImage_emits now b images p :
  exists es,
    foldl (fun acc image => trackImage now b image acc) p images = appendLog es p.
Proof.
  revert p. induction images as [|x images IH]; intros p; simpl.
  - exists []. by rewrite appendLog_nil.
  - destruct (trackImage_emits now b x p) as [es1 ->].
    destruct (IH (appendLog es1 p)) as [es2 ->].
    eexists. apply appendLog_app.
Qed.

Lemma foldl_trackImage_spawn now b images image p transform :
  calculateRelativeTransform p image = Some transform ->
  image ∈ images ->
  syncedObjects p !! getImageId image = None ->
  exists es,
    foldl (fun acc image => trackImage now b image acc) p images = appendLog es p /\
    Send (SpawnPayload
      {| spawn_senderId := getLocalId p;
         spawn_imageId := getImageId image;
         spawn_assetIndex := getAssetIndex image;
         spawn_relativePosition := transform.1;
         spawn_relativeRotation := transform.2;
         spawn_timestamp := now |}) ∈ es.
Proof.
  revert p. induction images as [|x images IH]; intros p Hc Hin Hl.
  - by apply elem_of_nil in Hin.
  - simpl. apply elem_of_cons in Hin as [<-|Hin].
    + unfold trackImage at 2. rewrite Hc, Hl.
      destruct (foldl_trackImage_emits now b images
                  (sendSpawnMessage now (getImageId image) (getAssetIndex image)
                     transform p)) as [es ->].
      unfold sendSpawnMessage. rewrite emit_appendLog, appendLog_app.
      eexists. split; [done|]. apply elem_of_app. left. apply list_elem_of_here.
    + destruct (trackImage_emits now b x p) as [es Hes]. rewrite Hes.
      destruct (IH (appendLog es p) Hc Hin Hl) as (es' & -> & Hsent).
      rewrite appendLog_app. eexists. split; [done|]. apply elem_of_app. by right.
Qed.

Lemma removeTrackedObject_shrinks imageId p :
  syncedObjects (removeTrackedObject imageId p) ⊆ syncedObjects p /\
  (exists es, log (removeTrackedObject imageId p) = log p ++ es) /\
  nextHandle (removeTrackedObject imageId p) = nextHandle p /\
  config (removeTrackedObject imageId p) = config p.
Proof.
  unfold removeTrackedObject.
  destruct (syncedObjects p !! imageId) as [data|].
  - simpl. split; [apply delete_subseteq|]. split; [eauto|done].
  - split; [done|]. split; [|done]. exists []. by rewrite app_nil_r.
Qed.

Lemma checkForLostTracking_shrinks now images p :
  syncedObjects (checkForLostTracking now images p) ⊆ syncedObjects p /\
  (exists es, log (checkForLostTracking now images p) = log p ++ es) /\
  nextHandle (checkForLostTracking now images p) = nextHandle p /\
  config (checkForLostTracking now images p) = config p.
Proof.
  unfold checkForLostTracking.
  apply (forEachSynced_ind
    (fun acc => syncedObjects acc ⊆ syncedObjects p /\
                (exists es, log acc = log p ++ es) /\
                nextHandle acc = nextHandle p /\ config acc = config p)).
  { split; [done|]. split; [|done]. exists []. by rewrite app_nil_r. }
  intros imageId data acc _ (Hsub & [es Hlog] & Hn & Hc).
  destruct (isLocallyTracked data && _); [|eauto].
  match goal with |- context [removeTrackedObject ?i ?q] =>
    destruct (removeTrackedObject_shrinks i q) as (Hs' & [es' Hl'] & Hn' & Hc') end.
  split; [by etrans|]. split; [|split; [by rewrite Hn'|by rewrite Hc']].
  rewrite Hl'. simpl. rewrite Hlog. eexists. by rewrite <- !app_assoc.
Qed.

Lemma applyRelativeTransform_config h pos rot p :
  config (applyRelativeTransform h pos rot p) = config p.
Proof.
  unfold applyRelativeTransform.
  destruct (sandboxRoot (config p)); [|done].
  by destruct (scene p !! h).
Qed.

Lemma applyRelativeTransform_nextHandle h pos rot p :
  nextHandle (applyRelativeTransform h pos rot p) = nextHandle p.
Proof.
  unfold applyRelativeTransform.
  destruct (sandboxRoot (config p)); [|done].
  by destruct (scene p !! h).
Qed.

Lemma createTrackedObject_parks m p trackedImages model :
  imageTracking (config p) = Some trackedImages ->
  trackedImageAt trackedImages (spawn_assetIndex m) = Some model ->
  hasObject model = true ->
  createTrackedObject m p = set_pendingLoads (pendingLoads p ++ [m]) p.
Proof. intros Hi Ha Ho. unfold createTrackedObject. by rewrite Hi, Ha, Ho. Qed.

Lemma onLoadSettled_registry k pose m p :
  pendingLoads p !! k = Some m ->
  syncedObjects (onLoadSettled k (AssetLoaded (Some pose)) p) =
    <[spawn_imageId m :=
        {| object := nextHandle p;
           ownerId := spawn_senderId m;
           assetIndex := spawn_assetIndex m;
           lastUpdate := spawn_timestamp m;
           isLocallyTracked := bool_decide (spawn_senderId m = getLocalId p) |}]>
      (syncedObjects p) /\
  nextHandle (onLoadSettled k (AssetLoaded (Some pose)) p) = S (nextHandle p).
Proof.
  intros Hk. unfold onLoadSettled. rewrite Hk. simpl.
  rewrite applyRelativeTransform_registry, applyRelativeTransform_nextHandle.
  unfold getLocalId. rewrite applyRelativeTransform_config. done.
Qed.

(** C9 (as amended).  When a detection event reports an anchor whose id is
    not registered and [canSync()] holds, the handler sends a Spawn for it
    (sender the local peer, the anchor's id and asset index, the relative
    pose, the current time) and does not itself register the entity: the id
    is still absent from the registry when the handler returns.  The entity
    becomes locally owned when a Spawn whose sender is the local peer is
    received for the unregistered id and its asset load yields an instance. *)
Theorem detection_of_unregistered_anchor now images image p :
  canSync p = true ->
  image ∈ images ->
  syncedObjects p !! getImageId image = None ->
  (exists transform sent,
     calculateRelativeTransform p image = Some transform /\
     log (onImageTrackingUpdate now images p) = log p ++ sent /\
     Send (SpawnPayload
       {| spawn_senderId := getLocalId p;
          spawn_imageId := getImageId image;
          spawn_assetIndex := getAssetIndex image;
          spawn_relativePosition := transform.1;
          spawn_relativeRotation := transform.2;
          spawn_timestamp := now |}) ∈ sent) /\
  syncedObjects (onImageTrackingUpdate now images p) !! getImageId image = None /\
  (forall m q trackedImages model pose,
     spawn_senderId m = getLocalId q ->
     syncedObjects q !! spawn_imageId m = None ->
     imageTracking (config q) = Some trackedImages ->
     trackedImageAt trackedImages (spawn_assetIndex m) = Some model ->
     hasObject model = true ->
     exists data,
       syncedObjects
         (onLoadSettled (length (pendingLoads q)) (AssetLoaded (Some pose))
            (onReceiveSpawn m q)) !! spawn_imageId m = Some data /\
       ownerId data = getLocalId q /\ isLocallyTracked data = true).
Proof.
  intros Hsync Hin Hl.
  assert (Hroot : is_Some (sandboxRoot (config p))).
  { unfold canSync in Hsync.
    destruct (isInRoom (config p)); simpl in Hsync; [|done].
    case_bool_decide; simpl in Hsync; done. }
  destruct Hroot as [root Hroot].
  assert (Hcalc : exists transform, calculateRelativeTransform p image = Some transform).
  { unfold calculateRelativeTransform. rewrite Hroot. eauto. }
  destruct Hcalc as [transform Hcalc].
  unfold onImageTrackingUpdate. rewrite Hsync. simpl.
  destruct images as [|x images]; [by apply elem_of_nil in Hin|].
  set (b := bool_decide (updateInterval (config p) <= now - lastUpdateTime p)).
  destruct (foldl_trackImage_spawn now b (x :: images) image p transform Hcalc Hin Hl)
    as (es & Hes & Hsent).
  rewrite Hes.
  set (p2 := if b then set_lastUpdateTime now (appendLog es p) else appendLog es p).
  assert (Hreg2 : syncedObjects p2 = syncedObjects p) by (unfold p2; by destruct b).
  assert (Hlog2 : log p2 = log p ++ es) by (unfold p2; by destruct b).
  destruct (checkForLostTracking_shrinks now (x :: images) p2) as (Hsub & [es' Hlog] & _).
  split; [|split].
  - exists transform, (es ++ es'). split; [done|]. split.
    + by rewrite Hlog, Hlog2, app_assoc.
    + apply elem_of_app. by left.
  - eapply lookup_weaken_None; [|exact Hsub]. by rewrite Hreg2.
  - intros m q trackedImages model pose Hsender Hq Hi Ha Ho.
    unfold onReceiveSpawn. rewrite Hq.
    rewrite (createTrackedObject_parks _ _ _ _ Hi Ha Ho).
    edestruct (onLoadSettled_registry (length (pendingLoads q)) pose m
                 (set_pendingLoads (pendingLoads q ++ [m]) q)) as [Hr _].
    { simpl. by rewrite lookup_app_r, Nat.sub_diag by lia. }
    rewrite Hr, lookup_insert_eq. eexists. split; [done|]. simpl.
    split; [done|]. by apply bool_decide_eq_true.
Qed.

(** *** What every handler does to the registry *)

Lemma recordsContinue_shrink p p' :
  syncedObjects p' ⊆ syncedObjects p ->
  nextHandle p' = nextHandle p ->
  recordsContinue p p'.
Proof.
  intros Hsub Hn. split; [lia|]. intros imageId data' Hl. left.
  exists data'. split; [|split; [done|lia]].
  by eapply lookup_weaken.
Qed.

Lemma recordsContinue_update p p' imageId data data' :
  syncedObjects p !! imageId = Some data ->
  syncedObjects p' = <[imageId := data']> (syncedObjects p) ->
  object data = object data' ->
  lastUpdate data <= lastUpdate data' ->
  nextHandle p' = nextHandle p ->
  recordsContinue p p'.
Proof.
  intros Hl Hreg Ho Ht Hn. split; [lia|]. intros i d' Hi. left.
  rewrite Hreg in Hi. destruct (decide (imageId = i)) as [Heq|Hne].
  - subst i. rewrite lookup_insert_eq in Hi. injection Hi as <-. eauto.
  - rewrite lookup_insert_ne in Hi by done. exists d'. split; [done|]. split; [done|lia].
Qed.

Lemma recordsContinue_same p p' :
  syncedObjects p' = syncedObjects p -> nextHandle p' = nextHandle p ->
  recordsContinue p p'.
Proof. intros Hr Hn. apply recordsContinue_shrink; [by rewrite Hr | done]. Qed.

Lemma createTrackedObject_frame m p :
  syncedObjects (createTrackedObject m p) = syncedObjects p /\
  nextHandle (createTrackedObject m p) = nextHandle p /\
  config (createTrackedObject m p) = config p.
Proof.
  unfold createTrackedObject.
  destruct (imageTracking (config p)) as [trackedImages|]; [|done].
  destruct (trackedImageAt trackedImages (spawn_assetIndex m)) as [model|]; [|done].
  by destruct (hasObject model).
Qed.

Lemma onImageTrackingUpdate_shrinks now images p :
  syncedObjects (onImageTrackingUpdate now images p) ⊆ syncedObjects p /\
  nextHandle (onImageTrackingUpdate now images p) = nextHandle p /\
  config (onImageTrackingUpdate now images p) = config p.
Proof.
  unfold onImageTrackingUpdate.
  destruct (negb (canSync p)); [done|].
  destruct images as [|x images]; [done|].
  set (b := bool_decide _).
  destruct (foldl_trackImage_emits now b (x :: images) p) as [es ->].
  set (p2 := if b then _ else _).
  destruct (checkForLostTracking_shrinks now (x :: images) p2) as (Hs & _ & Hn & Hc).
  rewrite Hn, Hc. split; [|by unfold p2; destruct b].
  etrans; [exact Hs|]. by unfold p2; destruct b.
Qed.

Lemma onUserLeft_shrinks userId p :
  syncedObjects (onUserLeft userId p) ⊆ syncedObjects p /\
  nextHandle (onUserLeft userId p) = nextHandle p /\
  config (onUserLeft userId p) = config p.
Proof.
  unfold onUserLeft.
  apply (forEachSynced_ind
    (fun acc => syncedObjects acc ⊆ syncedObjects p /\
                nextHandle acc = nextHandle p /\ config acc = config p)); [done|].
  intros imageId data acc _ (Hsub & Hn & Hc).
  case_bool_decide; [|done].
  destruct (removeTrackedObject_shrinks imageId acc) as (Hs' & _ & Hn' & Hc').
  split; [by etrans|]. by rewrite Hn', Hc'.
Qed.

Lemma onReceiveStateRequest_frame now senderId p :
  syncedObjects (onReceiveStateRequest now senderId p) = syncedObjects p /\
  nextHandle (onReceiveStateRequest now senderId p) = nextHandle p /\
  config (onReceiveStateRequest now senderId p) = config p.
Proof.
  unfold onReceiveStateRequest. case_bool_decide; [done|].
  apply (forEachSynced_ind
    (fun acc => syncedObjects acc = syncedObjects p /\
                nextHandle acc = nextHandle p /\ config acc = config p)); [done|].
  intros imageId data acc _ (Hr & Hn & Hc).
  destruct (isLocallyTracked data); [|done].
  destruct (scene acc !! object data); [|done].
  destruct (sandboxRoot (config acc)); [|done].
  by destruct (calculateRelativeTransformFromObject _ _ _).
Qed.

Lemma onReceiveDespawn_shrinks m p :
  syncedObjects (onReceiveDespawn m p) ⊆ syncedObjects p /\
  nextHandle (onReceiveDespawn m p) = nextHandle p /\
  config (onReceiveDespawn m p) = config p.
Proof.
  unfold onReceiveDespawn.
  destruct (syncedObjects p !! despawn_imageId m); [|done].
  destruct (negb _); [done|].
  destruct (removeTrackedObject_shrinks (despawn_imageId m) p) as (Hs & _ & Hn & Hc).
  done.
Qed.

Lemma dispatch_config e p : config (dispatch e p) = config p.
Proof.
  destruct e as [now images|m|m|m|m|now senderId|m|userId|userId|k outcome]; simpl.
  - apply onImageTrackingUpdate_shrinks.
  - unfold onReceiveSpawn. destruct (syncedObjects p !! spawn_imageId m).
    + by case_bool_decide.
    + apply createTrackedObject_frame.
  - unfold onReceiveTransform. destruct (syncedObjects p !! transform_imageId m); [|done].
    repeat (match goal with |- context [if ?b then _ else _] => destruct b end);
      try done.
    simpl. apply applyRelativeTransform_config.
  - apply onReceiveDespawn_shrinks.
  - unfold onReceiveOwnership. destruct (syncedObjects p !! ownership_imageId m); [|done].
    destruct (ownership_action m);
      match goal with |- context [if ?b then _ else _] => by destruct b end.
  - apply onReceiveStateRequest_frame.
  - unfold onReceiveStateResponse. destruct (_ && _); [done|].
    destruct (syncedObjects p !! response_imageId m); [done|].
    apply createTrackedObject_frame.
  - unfold onUserJoined. by case_bool_decide.
  - apply onUserLeft_shrinks.
  - unfold onLoadSettled. destruct (pendingLoads p !! k); [|done].
    destruct outcome as [[pose|]| |]; try done.
    simpl. by rewrite applyRelativeTransform_config.
Qed.

Lemma dispatch_recordsContinue e p : recordsContinue p (dispatch e p).
Proof.
  destruct e as [now images|m|m|m|m|now senderId|m|userId|userId|k outcome]; simpl.
  - destruct (onImageTrackingUpdate_shrinks now images p) as (? & ? & _).
    by apply recordsContinue_shrink.
  - unfold onReceiveSpawn.
    destruct (syncedObjects p !! spawn_imageId m) as [data|] eqn:Hl.
    + case_bool_decide; [|by apply recordsContinue_same].
      eapply recordsContinue_update; [exact Hl|done|done|simpl; lia|done].
    + destruct (createTrackedObject_frame m p) as (? & ? & _).
      by apply recordsContinue_same.
  - unfold onReceiveTransform.
    destruct (syncedObjects p !! transform_imageId m) as [data|] eqn:Hl;
      [|by apply recordsContinue_same].
    destruct (negb _); [by apply recordsContinue_same|].
    destruct (_ && _); [by apply recordsContinue_same|].
    case_bool_decide; [by apply recordsContinue_same|].
    apply (recordsContinue_update p _ _ data
             (withLastUpdate (transform_timestamp m) data) Hl);
      [|done|simpl; lia|].
    + simpl. by rewrite applyRelativeTransform_registry.
    + simpl. apply applyRelativeTransform_nextHandle.
  - destruct (onReceiveDespawn_shrinks m p) as (? & ? & _).
    by apply recordsContinue_shrink.
  - unfold onReceiveOwnership.
    destruct (syncedObjects p !! ownership_imageId m) as [data|] eqn:Hl;
      [|by apply recordsContinue_same].
    destruct (ownership_action m).
    + destruct (_ || _); [|by apply recordsContinue_same].
      eapply recordsContinue_update; [exact Hl|done|done|simpl; lia|done].
    + case_bool_decide; [|by apply recordsContinue_same].
      eapply recordsContinue_update; [exact Hl|done|done|simpl; lia|done].
  - destruct (onReceiveStateRequest_frame now senderId p) as (? & ? & _).
    by apply recordsContinue_same.
  - unfold onReceiveStateResponse. destruct (_ && _); [by apply recordsContinue_same|].
    destruct (syncedObjects p !! response_imageId m); [by apply recordsContinue_same|].
    match goal with |- context [createTrackedObject ?x p] =>
      destruct (createTrackedObject_frame x p) as (? & ? & _) end.
    by apply recordsContinue_same.
  - unfold onUserJoined. case_bool_decide; by apply recordsContinue_same.
  - destruct (onUserLeft_shrinks userId p) as (? & ? & _).
    by apply recordsContinue_shrink.
  - destruct (pendingLoads p !! k) as [m|] eqn:Hk.
    + destruct outcome as [[pose|]| |].
      * destruct (onLoadSettled_registry k pose m p Hk) as [Hr Hn].
        split; [lia|]. intros i d' Hi. rewrite Hr in Hi.
        destruct (decide (spawn_imageId m = i)) as [Heq|Hne].
        -- rewrite Heq, lookup_insert_eq in Hi. injection Hi as <-. right. simpl. lia.
        -- rewrite lookup_insert_ne in Hi by done. left. exists d'.
           split; [done|]. split; [done|lia].
      * unfold onLoadSettled. rewrite Hk. by apply recordsContinue_same.
      * unfold onLoadSettled. rewrite Hk. by apply recordsContinue_same.
      * unfold onLoadSettled. rewrite Hk. by apply recordsContinue_same.
    + unfold onLoadSettled. rewrite Hk. by apply recordsContinue_same.
Qed.

Lemma run_cons e events p : run (e :: events) p = run events (dispatch e p).
Proof. done. Qed.

Lemma run_records events p :
  handlesAllocated p ->
  handlesAllocated (run events p) /\
  (nextHandle p <= nextHandle (run events p))%nat /\
  forall imageId data',
    syncedObjects (run events p) !! imageId = Some data' ->
    (object data' < nextHandle p)%nat ->
    exists data,
      syncedObjects p !! imageId = Some data /\
      object data = object data' /\ lastUpdate data <= lastUpdate data'.
Proof.
  revert p. induction events as [|e events IH]; intros p Halloc.
  - split; [done|]. split; [done|]. intros imageId data' Hl _.
    exists data'. split; [done|]. split; [done|lia].
  - rewrite run_cons.
    destruct (dispatch_recordsContinue e p) as [Hn Hstep].
    assert (Halloc1 : handlesAllocated (dispatch e p)).
    { intros i d1 Hi. destruct (Hstep i d1 Hi) as [(d & Hd & Ho & _)|[Ho Hlt]].
      - specialize (Halloc i d Hd). lia.
      - lia. }
    destruct (IH _ Halloc1) as (Halloc' & Hn' & Hback).
    split; [done|]. split; [lia|].
    intros imageId data' Hl Hlt.
    destruct (Hback imageId data' Hl) as (d1 & Hd1 & Ho1 & Ht1); [lia|].
    destruct (Hstep imageId d1 Hd1) as [(d & Hd & Ho & Ht)|[Ho _]].
    + exists d. split; [done|]. split; [congruence|lia].
    + lia.
Qed.

(** Spawn re-announcements and Ownership messages never touch the stored
    timestamp of a record they leave in place; a Transform stores a
    timestamp that is not older. *)
Lemma handlers_on_lastUpdate p imageId data data' :
  syncedObjects p !! imageId = Some data ->
  (forall m, syncedObjects (onReceiveSpawn m p) !! imageId = Some data' ->
             lastUpdate data' = lastUpdate data) /\
  (forall m, syncedObjects (onReceiveOwnership m p) !! imageId = Some data' ->
             lastUpdate data' = lastUpdate data) /\
  (forall m, syncedObjects (onReceiveTransform m p) !! imageId = Some data' ->
             lastUpdate data <= lastUpdate data').
Proof.
  intros Hl. split; [|split]; intros m Hl'.
  - unfold onReceiveSpawn in Hl'.
    destruct (syncedObjects p !! spawn_imageId m) as [d|] eqn:Hd.
    + case_bool_decide; [|congruence]. simpl in Hl'.
      destruct (decide (spawn_imageId m = imageId)) as [Heq|Hne].
      * rewrite Heq, lookup_insert_eq in Hl'. injection Hl' as <-. simpl. congruence.
      * rewrite lookup_insert_ne in Hl' by done. congruence.
    + destruct (createTrackedObject_frame m p) as (Hr & _). rewrite Hr in Hl'. congruence.
  - unfold onReceiveOwnership in Hl'.
    destruct (syncedObjects p !! ownership_imageId m) as [d|] eqn:Hd; [|congruence].
    destruct (decide (ownership_imageId m = imageId)) as [Heq|Hne].
    + destruct (ownership_action m);
        match type of Hl' with context [if ?b then _ else _] => destruct b end;
        try congruence; simpl in Hl';
        rewrite Heq, lookup_insert_eq in Hl'; injection Hl' as <-; simpl; congruence.
    + destruct (ownership_action m);
        match type of Hl' with context [if ?b then _ else _] => destruct b end;
        try congruence; simpl in Hl';
        rewrite lookup_insert_ne in Hl' by done; congruence.
  - assert (Hsame : syncedObjects p !! imageId = Some data' ->
                    lastUpdate data <= lastUpdate data').
    { intros Hp. replace data' with data by congruence. lia. }
    unfold onReceiveTransform in Hl'.
    destruct (syncedObjects p !! transform_imageId m) as [d|] eqn:Hd; [|by apply Hsame].
    destruct (negb _); [by apply Hsame|].
    destruct (_ && _); [by apply Hsame|].
    case_bool_decide as Ht; [by apply Hsame|].
    simpl in Hl'. rewrite applyRelativeTransform_registry in Hl'.
    destruct (decide (transform_imageId m = imageId)) as [Heq|Hne].
    + rewrite Heq, lookup_insert_eq in Hl'. injection Hl' as <-. simpl.
      replace data with d by congruence. lia.
    + rewrite lookup_insert_ne in Hl' by done. by apply Hsame.
Qed.

Lemma lastUpdate_monotone_from events p imageId data data' :
  handlesAllocated p ->
  syncedObjects p !! imageId = Some data ->
  syncedObjects (run events p) !! imageId = Some data' ->
  object data' = object data ->
  lastUpdate data <= lastUpdate data'.
Proof.
  intros Halloc Hl Hl' Ho.
  destruct (run_records events p Halloc) as (_ & _ & Hback).
  destruct (Hback imageId data' Hl') as (d & Hd & _ & Ht).
  - rewrite Ho. by apply (Halloc imageId).
  - congruence.
Qed.

Lemma awake_handlesAllocated c : handlesAllocated (awake c).
Proof. intros imageId data Hl. simpl in Hl. by rewrite lookup_empty in Hl. Qed.

(** As long as an id keeps its host object, its stored timestamp never
    decreases.  On every state [p] reached from the empty registry and for
    every further sequence of events: if the record of an id has the same
    host object before and after the sequence, its [lastUpdate] afterwards
    is at least its [lastUpdate] before.  Only a record written by the load
    continuation of [createTrackedObject], which comes with a new host
    object, can carry an older timestamp. *)
Theorem lastUpdate_never_decreases c history events imageId data data' :
  syncedObjects (run history (awake c)) !! imageId = Some data ->
  syncedObjects (run events (run history (awake c))) !! imageId = Some data' ->
  object data' = object data ->
  lastUpdate data <= lastUpdate data'.
Proof.
  apply lastUpdate_monotone_from.
  apply run_records, awake_handlesAllocated.
Qed.

(** *** The ownership invariant *)

Lemma ownershipInvariant_shrink p p' :
  syncedObjects p' ⊆ syncedObjects p -> config p' = config p ->
  ownershipInvariant p -> ownershipInvariant p'.
Proof.
  intros Hsub Hc Hinv imageId data Hl Hd.
  unfold getLocalId. rewrite Hc. apply (Hinv imageId); [|done].
  by eapply lookup_weaken.
Qed.

Lemma ownershipInvariant_update p p' imageId data' :
  syncedObjects p' = <[imageId := data']> (syncedObjects p) ->
  config p' = config p ->
  (isLocallyTracked data' = true -> ownerId data' = getLocalId p) ->
  ownershipInvariant p -> ownershipInvariant p'.
Proof.
  intros Hr Hc Hnew Hinv i d Hl Hd.
  unfold getLocalId. rewrite Hc. rewrite Hr in Hl.
  destruct (decide (imageId = i)) as [Heq|Hne].
  - subst i. rewrite lookup_insert_eq in Hl. injection Hl as <-. by apply Hnew.
  - rewrite lookup_insert_ne in Hl by done. by apply (Hinv i).
Qed.

(** Every handler other than an Ownership release naming the local peer as
    sender keeps the ownership invariant. *)
Lemma dispatch_ownershipInvariant e p :
  ownershipInvariant p -> ~ releaseBySelf p e -> ownershipInvariant (dispatch e p).
Proof.
  intros Hinv Hself.
  destruct e as [now images|m|m|m|m|now senderId|m|userId|userId|k outcome]; simpl.
  - destruct (onImageTrackingUpdate_shrinks now images p) as (? & _ & ?).
    by eapply ownershipInvariant_shrink.
  - unfold onReceiveSpawn.
    destruct (syncedObjects p !! spawn_imageId m) as [data|] eqn:Hl.
    + case_bool_decide; [|done].
      eapply ownershipInvariant_update; [done|done| |done].
      simpl. intros Hb. by apply bool_decide_eq_true in Hb.
    + destruct (createTrackedObject_frame m p) as (Hr & _ & Hc).
      eapply ownershipInvariant_shrink; [by rewrite Hr|done|done].
  - unfold onReceiveTransform.
    destruct (syncedObjects p !! transform_imageId m) as [data|] eqn:Hl; [|done].
    destruct (negb _); [done|]. destruct (_ && _); [done|].
    case_bool_decide; [done|].
    apply (ownershipInvariant_update p _ (transform_imageId m)
             (withLastUpdate (transform_timestamp m) data));
      [| |exact (Hinv _ _ Hl)|done].
    + simpl. by rewrite applyRelativeTransform_registry.
    + simpl. by rewrite applyRelativeTransform_config.
  - destruct (onReceiveDespawn_shrinks m p) as (? & _ & ?).
    by eapply ownershipInvariant_shrink.
  - unfold onReceiveOwnership.
    destruct (syncedObjects p !! ownership_imageId m) as [data|] eqn:Hl; [|done].
    destruct (ownership_action m) eqn:Ha.
    + destruct (_ || _); [|done].
      eapply ownershipInvariant_update; [done|done| |done].
      simpl. intros Hb. by apply bool_decide_eq_true in Hb.
    + case_bool_decide as Hown; [|done].
      eapply ownershipInvariant_update; [done|done| |done].
      simpl. intros Hd. exfalso. apply Hself. simpl. split; [done|].
      rewrite <- Hown. by apply (Hinv _ _ Hl).
  - destruct (onReceiveStateRequest_frame now senderId p) as (Hr & _ & Hc).
    eapply ownershipInvariant_shrink; [by rewrite Hr|done|done].
  - unfold onReceiveStateResponse. destruct (_ && _); [done|].
    destruct (syncedObjects p !! response_imageId m); [done|].
    match goal with |- context [createTrackedObject ?x p] =>
      destruct (createTrackedObject_frame x p) as (Hr & _ & Hc) end.
    eapply ownershipInvariant_shrink; [by rewrite Hr|done|done].
  - unfold onUserJoined. by case_bool_decide.
  - destruct (onUserLeft_shrinks userId p) as (? & _ & ?).
    by eapply ownershipInvariant_shrink.
  - destruct (pendingLoads p !! k) as [m|] eqn:Hk.
    + destruct outcome as [[pose|]| |].
      * destruct (onLoadSettled_registry k pose m p Hk) as [Hr _].
        eapply ownershipInvariant_update;
          [exact Hr|apply (dispatch_config (LoadSettled _ _))| |done].
        simpl. intros Hb. by apply bool_decide_eq_true in Hb.
      * unfold onLoadSettled. rewrite Hk.
        eapply ownershipInvariant_shrink; [|done|done]. done.
      * unfold onLoadSettled. rewrite Hk.
        eapply ownershipInvariant_shrink; [|done|done]. done.
      * unfold onLoadSettled. rewrite Hk.
        eapply ownershipInvariant_shrink; [|done|done]. done.
    + unfold onLoadSettled. by rewrite Hk.
Qed.

(** *** Transforms delivered in any order *)

Lemma deliverTransforms_cons m msgs p :
  deliverTransforms (m :: msgs) p = deliverTransforms msgs (onReceiveTransform m p).
Proof. done. Qed.

Lemma deliverTransforms_app msgs1 msgs2 p :
  deliverTransforms (msgs1 ++ msgs2) p
  = deliverTransforms msgs2 (deliverTransforms msgs1 p).
Proof.
  unfold deliverTransforms, run. by rewrite fmap_app, foldl_app.
Qed.

Lemma stale_transform_dropped p m data :
  syncedObjects p !! transform_imageId m = Some data ->
  transform_timestamp m < lastUpdate data ->
  onReceiveTransform m p = p.
Proof.
  intros Hl Ht. apply (transform_guards_rejected _ _ _ Hl).
  unfold transformAccepted. rewrite (bool_decide_eq_false_2 (_ <= _)) by lia.
  by rewrite andb_false_r.
Qed.

Lemma withLastUpdate_twice t t' data :
  withLastUpdate t' (withLastUpdate t data) = withLastUpdate t' data.
Proof. done. Qed.

Lemma withLastUpdate_same data : withLastUpdate (lastUpdate data) data = data.
Proof. by destruct data. Qed.

Lemma foldl_max_le (t bound : Z) (ts : list Z) :
  t <= bound -> (forall x, x ∈ ts -> x <= bound) -> foldl Z.max t ts <= bound.
Proof.
  revert t. induction ts as [|x ts IH]; intros t Ht Hall; [done|].
  simpl. apply IH.
  - specialize (Hall x (list_elem_of_here _ _)). lia.
  - intros y Hy. apply Hall. by apply list_elem_of_further.
Qed.

Section OneEntity.
Variables (p : Peer) (imageId : string) (data : SyncedTrackedObject).
Hypothesis registered : syncedObjects p !! imageId = Some data.
Hypothesis notSelfDriven :
  ~ (ownerId data = getLocalId p /\ isLocallyTracked data = true).

Local Abbreviation fromOwner := (sentByOwner imageId data).
Local Abbreviation tracks := (tracksEntity p imageId data).

Lemma tracks_initially : tracks p (lastUpdate data).
Proof.
  split; [done|]. rewrite withLastUpdate_same. by rewrite insert_id.
Qed.

Lemma tracks_accepts q t m :
  tracks q t -> fromOwner m ->
  transformAccepted q (withLastUpdate t data) m = bool_decide (t <= transform_timestamp m).
Proof.
  intros [Hc _] [_ Hs]. unfold transformAccepted. simpl.
  rewrite (bool_decide_eq_true_2 _ Hs). simpl.
  unfold getLocalId. rewrite Hc. fold (getLocalId p).
  destruct (isLocallyTracked data) eqn:Hd; [|by rewrite andb_false_r].
  rewrite bool_decide_eq_false_2; [done|].
  intros Heq. apply notSelfDriven. split; [congruence|done].
Qed.

Lemma tracks_step q t m :
  tracks q t -> fromOwner m ->
  tracks (onReceiveTransform m q) (Z.max t (transform_timestamp m)).
Proof.
  intros Htr Hm. pose proof (tracks_accepts q t m Htr Hm) as Hacc.
  destruct Htr as [Hc Hr]. destruct Hm as [Hid Hs].
  assert (Hl : syncedObjects q !! transform_imageId m = Some (withLastUpdate t data)).
  { by rewrite Hid, Hr, lookup_insert_eq. }
  case_bool_decide as Ht.
  - rewrite (transform_guards_accepted _ _ _ Hl Hacc). split.
    + simpl. by rewrite applyRelativeTransform_config.
    + simpl. rewrite Hid, Hr, insert_insert_eq, withLastUpdate_twice.
      by rewrite Z.max_r by lia.
  - rewrite (transform_guards_rejected _ _ _ Hl Hacc).
    rewrite Z.max_l by lia. done.
Qed.

Lemma tracks_deliver msgs q t :
  tracks q t -> Forall fromOwner msgs ->
  tracks (deliverTransforms msgs q) (foldl Z.max t (transform_timestamp <$> msgs)).
Proof.
  revert q t. induction msgs as [|m msgs IH]; intros q t Htr Hall; [done|].
  inversion Hall as [|? ? Hm Hrest]; subst.
  rewrite deliverTransforms_cons. simpl. apply IH; [|done].
  by apply tracks_step.
Qed.

Lemma older_all_dropped msgs q t :
  tracks q t -> Forall fromOwner msgs ->
  (forall m, m ∈ msgs -> transform_timestamp m < t) ->
  deliverTransforms msgs q = q.
Proof.
  intros Htr. induction msgs as [|m msgs IH]; intros Hall Hold; [done|].
  inversion Hall as [|? ? Hm Hrest]; subst.
  rewrite deliverTransforms_cons.
  rewrite (stale_transform_dropped q m (withLastUpdate t data)).
  - apply IH; [done|]. intros m' Hm'. apply Hold. by apply list_elem_of_further.
  - destruct Htr as [_ Hr]. destruct Hm as [-> _]. by rewrite Hr, lookup_insert_eq.
  - simpl. apply Hold. apply list_elem_of_here.
Qed.

(** C5 (as amended).  Take a finite set of Transform messages for one
    registered entity, all sent by its stored owner (who is not the local
    peer driving it), with distinct timestamps, whose newest message is not
    older than the stored timestamp.  A Transform older than the stored
    timestamp is never applied.  In whatever order the set is delivered, the
    newest message is accepted when it arrives and every message delivered
    after it is dropped, so the registry ends in the same state (stored
    timestamp = the newest timestamp) for every order.  The final pose is
    the result of one smoothing step toward the pose carried by the newest
    message, taken from the pose reached by the messages delivered before
    it; that pose is in general neither the carried pose nor independent of
    the order. *)
Theorem transforms_in_any_order msgs newest :
  Forall fromOwner msgs ->
  NoDup (transform_timestamp <$> msgs) ->
  newest ∈ msgs ->
  (forall m, m ∈ msgs -> transform_timestamp m <= transform_timestamp newest) ->
  lastUpdate data <= transform_timestamp newest ->
  (forall q m d,
     syncedObjects q !! transform_imageId m = Some d ->
     transform_timestamp m < lastUpdate d ->
     onReceiveTransform m q = q) /\
  forall order, order ≡ₚ msgs ->
    syncedObjects (deliverTransforms order p) =
      <[imageId := withLastUpdate (transform_timestamp newest) data]> (syncedObjects p) /\
    exists before after,
      order = before ++ newest :: after /\
      deliverTransforms order p = onReceiveTransform newest (deliverTransforms before p) /\
      scene (deliverTransforms order p) =
        scene (applyRelativeTransform (object data)
                 (transform_relativePosition newest)
                 (transform_relativeRotation newest)
                 (deliverTransforms before p)).
Proof.
  intros Hall Hnd Hin Hmax Hfresh.
  split; [intros q m d; apply stale_transform_dropped|].
  intros order Hperm.
  assert (Hall' : Forall fromOwner order) by (by rewrite Hperm).
  assert (Hnd' : NoDup (transform_timestamp <$> order)) by (by rewrite Hperm).
  assert (Hin' : newest ∈ order) by (by rewrite Hperm).
  assert (Hmax' : forall m, m ∈ order ->
            transform_timestamp m <= transform_timestamp newest).
  { intros m Hm. apply Hmax. by rewrite <- Hperm. }
  apply list_elem_of_split in Hin' as (before & after & ->).
  apply Forall_app in Hall' as [Hb Ha].
  inversion Ha as [|? ? Hnewest Hafter]; subst.
  rewrite fmap_app, fmap_cons in Hnd'.
  apply NoDup_app in Hnd' as (_ & _ & Hnd').
  apply NoDup_cons in Hnd' as [Hnotin _].
  pose proof (tracks_deliver before p _ tracks_initially Hb) as Htr.
  set (t1 := foldl Z.max (lastUpdate data) (transform_timestamp <$> before)) in *.
  assert (Ht1 : t1 <= transform_timestamp newest).
  { apply foldl_max_le; [done|]. intros x Hx.
    apply list_elem_of_fmap in Hx as (m & -> & Hm).
    apply Hmax'. apply elem_of_app. by left. }
  pose proof (tracks_step _ _ _ Htr Hnewest) as Htr1.
  rewrite Z.max_r in Htr1 by lia.
  assert (Hdrop : deliverTransforms after
                    (onReceiveTransform newest (deliverTransforms before p))
                  = onReceiveTransform newest (deliverTransforms before p)).
  { apply (older_all_dropped _ _ _ Htr1 Hafter). intros m Hm.
    assert (transform_timestamp m <= transform_timestamp newest).
    { apply Hmax'. apply elem_of_app. right. by apply list_elem_of_further. }
    assert (transform_timestamp m <> transform_timestamp newest).
    { intros Heq. apply Hnotin. rewrite <- Heq. apply list_elem_of_fmap. eauto. }
    lia. }
  assert (Hfinal : deliverTransforms (before ++ newest :: after) p
                   = onReceiveTransform newest (deliverTransforms before p)).
  { by rewrite deliverTransforms_app, deliverTransforms_cons, Hdrop. }
  split; [rewrite Hfinal; apply Htr1|].
  exists before, after. split; [done|]. split; [done|].
  rewrite Hfinal.
  assert (Hl : syncedObjects (deliverTransforms before p) !! transform_imageId newest
               = Some (withLastUpdate t1 data)).
  { destruct Htr as [_ Hr]. destruct Hnewest as [-> _]. by rewrite Hr, lookup_insert_eq. }
  rewrite (transform_guards_accepted _ _ _ Hl).
  - done.
  - rewrite (tracks_accepts _ _ _ Htr Hnewest). by apply bool_decide_eq_true_2.
Qed.

End OneEntity.

End Properties.

(** ** The handlers on concrete inputs *)

Section Concrete.
Import Scenario.

Local Open Scope Z_scope.

Lemma awake_ownershipInvariant c : ownershipInvariant (awake c).
Proof. intros imageId data Hl. simpl in Hl. by rewrite lookup_empty in Hl. Qed.

Lemma spawned_ownershipInvariant c sender t : ownershipInvariant (spawned c sender t).
Proof.
  unfold spawned. rewrite !run_cons.
  apply dispatch_ownershipInvariant; [|by intros []].
  apply dispatch_ownershipInvariant; [|by intros []].
  apply awake_ownershipInvariant.
Qed.

(** C1, counterexample.  With the anchor root unassigned, a Transform from
    the stored owner with a newer timestamp passes the three conditions, yet
    no pose update is applied, and the entity's stored timestamp changes
    from 10 to 20. *)
Lemma transform_without_anchor_root :
  ~ transformClaim remoteEntityNoRoot (recordOf "B" 10 false) (transformFrom "B" 8 20).
Proof.
  intros [_ Hunchanged].
  destruct Hunchanged as [Hrecord _].
  - intros (root & o & Hroot & _). by change (None = Some root) in Hroot.
  - vm_compute in Hrecord. discriminate.
Qed.

Lemma transform_receipt_witness :
  syncedObjects remoteEntity !! imageId0 = Some (recordOf "B" 10 false) /\
  transformAccepted remoteEntity (recordOf "B" 10 false) (transformFrom "B" 8 20) = true /\
  syncedObjects (onReceiveTransform (transformFrom "B" 8 20) remoteEntity) !! imageId0
    = Some (recordOf "B" 20 false) /\
  position <$> scene (onReceiveTransform (transformFrom "B" 8 20) remoteEntity) !! 0%nat
    = Some (vec3 4 0 0).
Proof.
  assert (Hl : syncedObjects remoteEntity !! transform_imageId (transformFrom "B" 8 20)
               = Some (recordOf "B" 10 false)) by (vm_compute; reflexivity).
  assert (Ha : transformAccepted remoteEntity (recordOf "B" 10 false)
                 (transformFrom "B" 8 20) = true) by (vm_compute; reflexivity).
  destruct (transform_receipt remoteEntity (transformFrom "B" 8 20)
              (recordOf "B" 10 false) Hl) as [_ Haccepted].
  pose proof (Haccepted Ha) as Heq.
  split; [exact Hl|]. split; [exact Ha|]. split.
  - rewrite Heq. vm_compute. reflexivity.
  - rewrite Heq. reflexivity.
Defined.

Lemma spawn_for_registered_id_witness :
  syncedObjects remoteEntity !! imageId0 = Some (recordOf "B" 10 false) /\
  syncedObjects (onReceiveSpawn (spawnFrom "A" 5) remoteEntity) !! imageId0
    = Some (recordOf "A" 10 true) /\
  scene (onReceiveSpawn (spawnFrom "A" 5) remoteEntity) = scene remoteEntity /\
  onReceiveSpawn (spawnFrom "C" 10) remoteEntity = remoteEntity.
Proof.
  assert (Hl : syncedObjects remoteEntity !! spawn_imageId (spawnFrom "A" 5)
               = Some (recordOf "B" 10 false)) by (vm_compute; reflexivity).
  destruct (spawn_for_registered_id remoteEntity (spawnFrom "A" 5)
              (recordOf "B" 10 false) Hl) as [Holder _].
  destruct Holder as [Heq Hscene]; [vm_compute; reflexivity|].
  destruct (spawn_for_registered_id remoteEntity (spawnFrom "C" 10)
              (recordOf "B" 10 false) Hl) as [_ Hnewer].
  split; [exact Hl|]. split; [|split; [exact Hscene|]].
  - rewrite Heq. vm_compute. reflexivity.
  - apply Hnewer. vm_compute. discriminate.
Defined.

Lemma despawn_receipt_witness :
  syncedObjects remoteEntity !! imageId0 = Some (recordOf "B" 10 false) /\
  despawn_timestamp (despawnFrom "B" 3) < lastUpdate (recordOf "B" 10 false) /\
  syncedObjects (onReceiveDespawn (despawnFrom "B" 3) remoteEntity) !! imageId0 = None /\
  log (onReceiveDespawn (despawnFrom "B" 3) remoteEntity)
    = log remoteEntity ++ [Destroy 0%nat] /\
  onReceiveDespawn (despawnFrom "C" 30) remoteEntity = remoteEntity.
Proof.
  assert (Hl : syncedObjects remoteEntity !! imageId0 = Some (recordOf "B" 10 false))
    by (vm_compute; reflexivity).
  destruct (despawn_receipt remoteEntity (despawnFrom "B" 3)) as (Howner & _ & _).
  destruct (Howner _ Hl) as (_ & Hr & _ & Hlog); [reflexivity|].
  destruct (despawn_receipt remoteEntity (despawnFrom "C" 30)) as (_ & Hother & _).
  split; [exact Hl|]. split; [reflexivity|].
  split; [|split; [exact Hlog|]].
  - rewrite Hr. apply lookup_delete_eq.
  - apply (Hother _ Hl). discriminate.
Defined.

(** C3, the failing input evaluated.  Peer "A" holds its own entity (the
    invariant holds); an Ownership release naming "A" as sender arrives.
    The handler clears [ownerId] and leaves [isLocallyTracked] set, so the
    record is locally driven without being owned by the local peer. *)
Theorem release_by_self_breaks_invariant :
  ownershipInvariant ownEntity /\
  syncedObjects (onReceiveOwnership (releaseFrom "A" 20) ownEntity) !! imageId0
    = Some (recordOf "" 10 true) /\
  getLocalId (onReceiveOwnership (releaseFrom "A" 20) ownEntity) = "A" /\
  ~ ownershipInvariant (onReceiveOwnership (releaseFrom "A" 20) ownEntity).
Proof.
  split; [apply spawned_ownershipInvariant|].
  assert (Hl : syncedObjects (onReceiveOwnership (releaseFrom "A" 20) ownEntity) !! imageId0
               = Some (recordOf "" 10 true)) by (vm_compute; reflexivity).
  split; [exact Hl|]. split; [reflexivity|].
  intros Hinv. specialize (Hinv _ _ Hl eq_refl). vm_compute in Hinv. discriminate.
Qed.

(** C6, the failing input evaluated.  Two Spawn messages for the same id
    arrive while the first asset load is still pending; both loads then
    settle.  Two host objects are instantiated; the registry record refers
    to the second one, and the first stays in the scene with no record
    referring to it. *)
Theorem racing_loads_instantiate_twice :
  let p := run [ ReceiveSpawn (spawnFrom "B" 10);
                 ReceiveSpawn (spawnFrom "B" 11);
                 LoadSettled 0 (AssetLoaded (Some pose0));
                 LoadSettled 0 (AssetLoaded (Some pose0)) ] (awake configA) in
  log p = [Instantiate 0%nat; Instantiate 1%nat] /\
  syncedObjects p = {[ imageId0 := {| object := 1%nat; ownerId := "B"; assetIndex := 0;
                                      lastUpdate := 11; isLocallyTracked := false |} ]} /\
  orphaned p 0%nat.
Proof.
  intros p.
  assert (Hr : syncedObjects p =
               {[ imageId0 := {| object := 1%nat; ownerId := "B"; assetIndex := 0;
                                 lastUpdate := 11; isLocallyTracked := false |} ]})
    by (vm_compute; reflexivity).
  split; [reflexivity|]. split; [exact Hr|]. split.
  - eexists. split; [reflexivity|]. split; [reflexivity|discriminate].
  - intros imageId data Hl. rewrite Hr in Hl.
    apply lookup_singleton_Some in Hl as [_ <-]. discriminate.
Qed.

(** C4, the failing input evaluated.  Peers "B" and "C" both announce the
    same id, "B" with timestamp 11 and then "C" with timestamp 10; both
    Spawns arrive while no load has settled, so both start a load.  When the
    first load settles the id is registered with timestamp 11; when the
    second settles, the continuation of [createTrackedObject] overwrites the
    record without looking at it, and the id's stored timestamp drops to 10.
    Nothing was removed in between (no object is destroyed).  Had the first
    load settled before the second Spawn arrived, [onReceiveSpawn] would
    have kept the timestamp at 11. *)
Theorem racing_load_lowers_lastUpdate :
  let first := run [ ReceiveSpawn (spawnFrom "B" 11);
                     ReceiveSpawn (spawnFrom "C" 10);
                     LoadSettled 0 (AssetLoaded (Some pose0)) ] (awake configA) in
  let second := dispatch (LoadSettled 0 (AssetLoaded (Some pose0))) first in
  syncedObjects first !! imageId0
    = Some {| object := 0%nat; ownerId := "B"; assetIndex := 0; lastUpdate := 11;
              isLocallyTracked := false |} /\
  syncedObjects second !! imageId0
    = Some {| object := 1%nat; ownerId := "C"; assetIndex := 0; lastUpdate := 10;
              isLocallyTracked := false |} /\
  log second = [Instantiate 0%nat; Instantiate 1%nat] /\
  syncedObjects (run [ ReceiveSpawn (spawnFrom "B" 11);
                       LoadSettled 0 (AssetLoaded (Some pose0));
                       ReceiveSpawn (spawnFrom "C" 10) ] (awake configA)) !! imageId0
    = Some {| object := 0%nat; ownerId := "C"; assetIndex := 0; lastUpdate := 11;
              isLocallyTracked := false |}.
Proof.
  intros first second.
  split; [vm_compute; reflexivity|]. split; [vm_compute; reflexivity|].
  split; [reflexivity|]. vm_compute. reflexivity.
Qed.

Lemma lastUpdate_never_decreases_witness :
  syncedObjects remoteEntity !! imageId0 = Some (recordOf "B" 10 false) /\
  syncedObjects (run [ReceiveTransform (transformFrom "B" 8 20);
                      ReceiveSpawn (spawnFrom "B" 3)] remoteEntity) !! imageId0
    = Some (recordOf "B" 20 false) /\
  lastUpdate (recordOf "B" 10 false) <= lastUpdate (recordOf "B" 20 false).
Proof.
  assert (Hl : syncedObjects remoteEntity !! imageId0 = Some (recordOf "B" 10 false))
    by (vm_compute; reflexivity).
  assert (Hl' : syncedObjects (run [ReceiveTransform (transformFrom "B" 8 20);
                                    ReceiveSpawn (spawnFrom "B" 3)] remoteEntity) !! imageId0
                = Some (recordOf "B" 20 false)) by (vm_compute; reflexivity).
  split; [exact Hl|]. split; [exact Hl'|].
  exact (lastUpdate_never_decreases configA
           [ReceiveSpawn (spawnFrom "B" 10); LoadSettled 0 (AssetLoaded (Some pose0))]
           [ReceiveTransform (transformFrom "B" 8 20); ReceiveSpawn (spawnFrom "B" 3)]
           imageId0 _ _ Hl Hl' eq_refl).
Defined.

(** Why the record is identified with its host object: after the owner
    despawns the entity and spawns it again, the id has a new record, backed
    by a new host object, that starts from the timestamp of the new Spawn. *)
Example recreated_record_starts_over :
  syncedObjects (run [ReceiveDespawn (despawnFrom "B" 12);
                      ReceiveSpawn (spawnFrom "B" 5);
                      LoadSettled 0 (AssetLoaded (Some pose0))] remoteEntity) !! imageId0
    = Some {| object := 1%nat; ownerId := "B"; assetIndex := 0; lastUpdate := 5;
              isLocallyTracked := false |}.
Proof. vm_compute. reflexivity. Qed.

(** C5, counterexample.  Peer "A" holds B's entity at x = 0 with smoothing
    1/2.  Delivered in timestamp order, the Transforms carrying x = 8 and
    x = 16 leave the host object at x = 10, not at the 16 carried by the
    newest message. *)
Lemma final_pose_is_not_the_newest_pose :
  ~ finalPoseIsNewest remoteEntity 0 [older8; newer16].
Proof.
  intros Hclaim.
  destruct (Hclaim [older8; newer16] newer16) as (o & Ho & Hpose).
  - done.
  - apply list_elem_of_further, list_elem_of_here.
  - intros m Hm. apply elem_of_cons in Hm as [->|Hm]; [simpl; lia|].
    apply list_elem_of_singleton in Hm as ->. simpl. lia.
  - assert (Hs : scene (deliverTransforms [older8; newer16] remoteEntity) !! 0%nat
                 = Some {| parent := ParentSandboxRoot; position := vec3 10 0 0;
                           quaternion := identityQuaternion;
                           active := true; destroyed := false |}) by reflexivity.
    rewrite Hs in Ho. injection Ho as <-.
    destruct Hpose as [Hx _]. simpl in Hx. discriminate Hx.
Qed.

(** The same two messages in the two delivery orders end at different
    poses: x = 10 when the older one comes first, x = 8 when it comes last. *)
Example final_pose_depends_on_order :
  position <$> scene (deliverTransforms [older8; newer16] remoteEntity) !! 0%nat
    = Some (vec3 10 0 0) /\
  position <$> scene (deliverTransforms [newer16; older8] remoteEntity) !! 0%nat
    = Some (vec3 8 0 0).
Proof. split; reflexivity. Qed.

Lemma transforms_in_any_order_witness :
  syncedObjects remoteEntity !! imageId0 = Some (recordOf "B" 10 false) /\
  syncedObjects (deliverTransforms [newer16; older8] remoteEntity)
    = <[imageId0 := recordOf "B" 12 false]> (syncedObjects remoteEntity) /\
  syncedObjects (deliverTransforms [older8; newer16] remoteEntity)
    = <[imageId0 := recordOf "B" 12 false]> (syncedObjects remoteEntity).
Proof.
  assert (Hl : syncedObjects remoteEntity !! imageId0 = Some (recordOf "B" 10 false))
    by (vm_compute; reflexivity).
  assert (Hn : ~ (ownerId (recordOf "B" 10 false) = getLocalId remoteEntity /\
                  isLocallyTracked (recordOf "B" 10 false) = true))
    by (intros [_ Hd]; discriminate Hd).
  assert (Hfrom : Forall (sentByOwner imageId0 (recordOf "B" 10 false)) [older8; newer16])
    by (repeat constructor).
  assert (Hnd : NoDup (transform_timestamp <$> [older8; newer16])).
  { simpl. apply NoDup_cons. split; [|apply NoDup_singleton].
    intros Hin. apply list_elem_of_singleton in Hin. discriminate Hin. }
  assert (Hin : newer16 ∈ [older8; newer16])
    by apply list_elem_of_further, list_elem_of_here.
  assert (Hmax : forall m, m ∈ [older8; newer16] ->
            transform_timestamp m <= transform_timestamp newer16).
  { intros m Hm. apply elem_of_cons in Hm as [->|Hm]; [simpl; lia|].
    apply list_elem_of_singleton in Hm as ->. simpl. lia. }
  assert (Hfresh : lastUpdate (recordOf "B" 10 false) <= transform_timestamp newer16)
    by (simpl; lia).
  destruct (transforms_in_any_order remoteEntity imageId0 (recordOf "B" 10 false)
              Hl Hn [older8; newer16] newer16 Hfrom Hnd Hin Hmax Hfresh)
    as [_ Horders].
  split; [exact Hl|]. split.
  - apply (Horders [newer16; older8]). apply Permutation_swap.
  - apply (Horders [older8; newer16]). done.
Defined.

(** C8, counterexample.  Peer "A" holds its own entity and is disabled:
    the registry still holds the record afterwards. *)
Lemma onDisable_releases_nothing : ~ teardownClaim 100 ownEntity.
Proof.
  intros (_ & Hempty & _).
  assert (Hl : syncedObjects (onDisable 100 ownEntity) !! imageId0
               = Some (recordOf "A" 10 true)) by (vm_compute; reflexivity).
  rewrite Hempty, lookup_empty in Hl. discriminate Hl.
Qed.

(** What [onDisable] does on that input, in order: the unsubscriptions come
    first, the Despawn last, and nothing is destroyed. *)
Example onDisable_log :
  log (onDisable 100 ownEntity) =
    [ Instantiate 0%nat;
      RemoveImageTrackingListener;
      StopListen MSG_TRACKED_IMAGE_SPAWN; StopListen MSG_TRACKED_IMAGE_TRANSFORM;
      StopListen MSG_TRACKED_IMAGE_DESPAWN; StopListen MSG_TRACKED_IMAGE_OWNERSHIP;
      StopListen MSG_TRACKED_IMAGE_STATE_REQUEST;
      StopListen MSG_TRACKED_IMAGE_STATE_RESPONSE;
      StopListen JoinedRoom; StopListen UserLeftRoom;
      Send (DespawnPayload (despawnFrom "A" 100)) ].
Proof. reflexivity. Qed.

Lemma teardown_order_witness :
  syncedObjects (onDisable 100 ownEntity) = syncedObjects ownEntity /\
  syncedObjects (onDestroy ownEntity) = ∅ /\
  Destroy 0%nat ∈ log (onDestroy ownEntity) /\
  released (onDestroy ownEntity) 0%nat.
Proof.
  destruct (teardown_order 100 ownEntity) as [(_ & Hkept & _) [Hcleared Hdestroyed]].
  assert (Hl : syncedObjects ownEntity !! imageId0 = Some (recordOf "A" 10 true))
    by (vm_compute; reflexivity).
  destruct (Hdestroyed _ _ Hl) as [Hlog Hreleased].
  split; [exact Hkept|]. split; [exact Hcleared|]. split; [exact Hlog|].
  apply Hreleased. eexists. reflexivity.
Defined.

(** C9, counterexample.  Peer "A" has an empty registry, [canSync()] holds,
    and a detection event reports anchor 0: when the handler returns the
    registry still has no record for "tracked_image_0". *)
Lemma detection_registers_nothing :
  ~ detectionClaim 100 [detected0] detected0 (awake configA).
Proof.
  intros Hclaim.
  destruct Hclaim as (_ & data & Hl & _).
  - reflexivity.
  - apply list_elem_of_here.
  - reflexivity.
  - vm_compute in Hl. discriminate Hl.
Qed.

Lemma detection_of_unregistered_anchor_witness :
  canSync (awake configA) = true /\
  Send (SpawnPayload
    {| spawn_senderId := "A"; spawn_imageId := imageId0; spawn_assetIndex := 0;
       spawn_relativePosition := vec3 1 2 3;
       spawn_relativeRotation := identityQuaternion;
       spawn_timestamp := 100 |})
    ∈ log (onImageTrackingUpdate 100 [detected0] (awake configA)) /\
  syncedObjects (onImageTrackingUpdate 100 [detected0] (awake configA)) !! imageId0 = None /\
  syncedObjects
    (onLoadSettled 0 (AssetLoaded (Some pose0))
       (onReceiveSpawn (spawnFrom "A" 100)
          (onImageTrackingUpdate 100 [detected0] (awake configA)))) !! imageId0
    = Some (recordOf "A" 100 true).
Proof.
  assert (Hsync : canSync (awake configA) = true) by reflexivity.
  destruct (detection_of_unregistered_anchor 100 [detected0] detected0 (awake configA)
              Hsync (list_elem_of_here _ _) eq_refl)
    as ((transform & sent & Hcalc & Hlog & Hsent) & Hnone & _).
  split; [exact Hsync|]. split; [|split; [exact Hnone|vm_compute; reflexivity]].
  assert (Ht : transform = (vec3 1 2 3, identityQuaternion)).
  { assert (Hc : calculateRelativeTransform (awake configA) detected0
                 = Some (vec3 1 2 3, identityQuaternion)) by reflexivity.
    rewrite Hc in Hcalc. by injection Hcalc. }
  subst transform. rewrite Hlog. apply elem_of_app. right. exact Hsent.
Defined.

End Concrete.

(** ** The relative pose and back

    [calculateRelativeTransform] takes a world pose into the frame of the
    anchor root; the world-coordinates branch of [applyRelativeTransform]
    takes a relative pose back.  In exact arithmetic the second undoes the
    first. *)

Section RelativePose.
Import Scenario.

Local Open Scope Q_scope.





End RelativePose.

(** ** Further properties of the handlers *)

Section FurtherProperties.
Context `{Three}.

Implicit Types (p : Peer) (data : SyncedTrackedObject).

(** *** Loops that remove entries *)

Lemma removeTrackedObject_registry imageId p :
  syncedObjects (removeTrackedObject imageId p) = delete imageId (syncedObjects p).
Proof.
  unfold removeTrackedObject.
  destruct (syncedObjects p !! imageId) as [data|] eqn:Hl; [done|].
  by rewrite delete_id.
Qed.

Lemma removeTrackedObject_absent imageId p :
  syncedObjects p !! imageId = None -> removeTrackedObject imageId p = p.
Proof. intros Hl. unfold removeTrackedObject. by rewrite Hl. Qed.

Section RemovalLoop.
Variables (selected : string -> SyncedTrackedObject -> bool).
Variables (pre : string -> Peer -> Peer) (before : Config -> string -> list Effect).
Hypothesis pre_appends :
  forall i acc, pre i acc = appendLog (before (config acc) i) acc.

Local Abbreviation body :=
  (fun imageId data acc =>
     if selected imageId data then removeTrackedObject imageId (pre imageId acc) else acc).

Local Abbreviation loop :=
  (foldl (fun acc (kd : string * SyncedTrackedObject) => body kd.1 kd.2 acc)).

Lemma removalLoop_registry entries p :
  syncedObjects (loop p entries) =
    foldl (fun r kd => if selected kd.1 kd.2 then delete kd.1 r else r)
      (syncedObjects p) entries.
Proof.
  revert p. induction entries as [|[k d] entries IH]; intros p; [done|].
  simpl. rewrite IH. destruct (selected k d); [|done].
  by rewrite removeTrackedObject_registry, pre_appends.
Qed.

Lemma foldl_delete_lookup (entries : list (string * SyncedTrackedObject))
    (r : gmap string SyncedTrackedObject) i :
  foldl (fun r kd => if selected kd.1 kd.2 then delete kd.1 r else r) r entries !! i =
    if bool_decide (Exists (fun kd => kd.1 = i /\ selected kd.1 kd.2 = true) entries)
    then None else r !! i.
Proof.
  revert r. induction entries as [|[k d] entries IH]; intros r; cbn [foldl fst snd].
  - rewrite bool_decide_eq_false_2; [done|]. by intros ?%Exists_nil.
  - rewrite IH. case_bool_decide as Hrest.
    + rewrite bool_decide_eq_true_2; [done|]. by apply Exists_cons_tl.
    + destruct (selected k d) eqn:Hsel.
      * destruct (decide (k = i)) as [->|Hne].
        -- rewrite lookup_delete_eq, bool_decide_eq_true_2; [done|].
           apply Exists_cons_hd. done.
        -- rewrite lookup_delete_ne by done.
           rewrite bool_decide_eq_false_2; [done|].
           intros [[? ?]|?]%Exists_cons; simpl in *; done.
      * rewrite bool_decide_eq_false_2; [done|].
        intros [[? ?]|?]%Exists_cons; simpl in *; [congruence|done].
Qed.

Lemma removalLoop_filter p :
  syncedObjects (loop p (map_to_list (syncedObjects p))) =
    filter (fun kd => selected kd.1 kd.2 = false) (syncedObjects p).
Proof.
  rewrite removalLoop_registry. apply map_eq. intros i.
  rewrite foldl_delete_lookup.
  destruct (syncedObjects p !! i) as [d|] eqn:Hl.
  - destruct (selected i d) eqn:Hsel.
    + rewrite bool_decide_eq_true_2.
      * symmetry. apply map_lookup_filter_None. right.
        intros d' Hd'. simpl. congruence.
      * apply Exists_exists. exists (i, d). split; [|done].
        by apply elem_of_map_to_list.
    + rewrite bool_decide_eq_false_2.
      * symmetry. by apply map_lookup_filter_Some.
      * intros ([k d'] & Hin & Hk & Hs)%Exists_exists. simpl in *. subst k.
        apply elem_of_map_to_list in Hin. congruence.
  - assert (Hnone : filter (fun kd => selected kd.1 kd.2 = false) (syncedObjects p) !! i
                    = None) by (apply map_lookup_filter_None; by left).
    rewrite Hnone. by case_bool_decide.
Qed.

Lemma removalLoop_log entries p :
  NoDup entries.*1 ->
  (forall kd, kd ∈ entries -> syncedObjects p !! kd.1 = Some kd.2) ->
  log (loop p entries) = log p ++ removalLog (before (config p)) selected entries /\
  config (loop p entries) = config p /\
  nextHandle (loop p entries) = nextHandle p.
Proof.
  revert p. induction entries as [|[k d] entries IH]; intros p Hnd Hin.
  - simpl. unfold removalLog. simpl. by rewrite app_nil_r.
  - rewrite fmap_cons in Hnd. apply NoDup_cons in Hnd as [Hk Hnd].
    simpl. unfold removalLog. rewrite filter_cons. simpl.
    destruct (selected k d) eqn:Hsel.
    + rewrite decide_True by done. rewrite bind_cons. simpl.
      assert (Hkd : syncedObjects p !! k = Some d).
      { apply (Hin (k, d)). apply list_elem_of_here. }
      rewrite pre_appends.
      rewrite (removeTrackedObject_registered k d) by done.
      destruct (IH (set_syncedObjects
                      (delete k (syncedObjects (appendLog (before (config p) k) p)))
                      (destroyObject (object d) (appendLog (before (config p) k) p))) Hnd)
        as (Hlog & Hc & Hn).
      { intros [k' d'] Hin'. simpl. rewrite lookup_delete_ne.
        - apply (Hin (k', d')). by apply list_elem_of_further.
        - intros ->. apply Hk. apply list_elem_of_fmap. by exists (k', d'). }
      rewrite Hlog, Hc, Hn. simpl. split; [|done].
      by rewrite <- !app_assoc.
    + rewrite decide_False by done.
      apply IH; [done|]. intros kd Hkd. apply Hin. by apply list_elem_of_further.
Qed.

Lemma removalLoop_scene_other entries p h :
  (forall kd, kd ∈ entries -> syncedObjects p !! kd.1 = Some kd.2) ->
  (forall kd, kd ∈ entries -> selected kd.1 kd.2 = true -> object kd.2 <> h) ->
  scene (loop p entries) !! h = scene p !! h.
Proof.
  intros Hin Hother.
  apply (foldl_entries_ind
    (fun acc => syncedObjects acc ⊆ syncedObjects p /\ scene acc !! h = scene p !! h)
    (fun imageId data acc => body imageId data acc)); [|done].
  intros [k d] acc Hkd [Hsub Hscene]. simpl.
  destruct (selected k d) eqn:Hsel; [|done].
  rewrite pre_appends. unfold removeTrackedObject.
  destruct (syncedObjects (appendLog (before (config acc) k) acc) !! k)
    as [d'|] eqn:Hl; [|done].
  simpl in Hl. assert (d' = d) as ->.
  { pose proof (lookup_weaken _ _ _ _ Hl Hsub) as Hp. specialize (Hin _ Hkd).
    simpl in Hin. congruence. }
  simpl. split.
  - etrans; [apply delete_subseteq|done].
  - rewrite lookup_alter_ne; [done|]. by apply (Hother (k, d)).
Qed.

Lemma removalLoop_released entries p kd :
  NoDup entries.*1 ->
  (forall kd, kd ∈ entries -> syncedObjects p !! kd.1 = Some kd.2) ->
  kd ∈ entries -> selected kd.1 kd.2 = true ->
  is_Some (scene p !! object kd.2) ->
  released (loop p entries) (object kd.2).
Proof.
  assert (Hkeep : forall (l : list (string * SyncedTrackedObject)) q h,
            released q h -> released (loop q l) h).
  { induction l as [|[k d] l IH]; intros q h Hr; [done|].
    simpl. apply IH. destruct (selected k d); [|done].
    rewrite pre_appends. unfold removeTrackedObject.
    destruct (syncedObjects _ !! k) as [d'|]; [|done].
    destruct Hr as (o & Ho & Hd & Hp). unfold released. simpl.
    destruct (decide (object d' = h)) as [->|Hne].
    - rewrite lookup_alter_eq, Ho. simpl. eauto.
    - rewrite lookup_alter_ne by done. eauto. }
  assert (Hdom : forall k q h, is_Some (scene q !! h) ->
            is_Some (scene (body k.1 k.2 q) !! h)).
  { intros [k d] q h [o Ho]. simpl. destruct (selected k d); [|by eauto].
    rewrite pre_appends. unfold removeTrackedObject.
    destruct (syncedObjects _ !! k) as [d'|]; [|by eauto]. simpl.
    destruct (decide (object d' = h)) as [->|Hne].
    - rewrite lookup_alter_eq, Ho. simpl. eauto.
    - rewrite lookup_alter_ne by done. eauto. }
  revert p. induction entries as [|[k d] entries IH]; intros p Hnd Hin Hkd Hsel Hsome.
  - by apply elem_of_nil in Hkd.
  - rewrite fmap_cons in Hnd. apply NoDup_cons in Hnd as [Hk Hnd].
    apply elem_of_cons in Hkd as [->|Hkd].
    + simpl in Hsome, Hsel |- *. apply Hkeep. rewrite Hsel, pre_appends.
      rewrite (removeTrackedObject_registered k d)
        by (apply (Hin (k, d)); apply list_elem_of_here).
      destruct Hsome as [o Ho]. unfold released. simpl.
      rewrite lookup_alter_eq, Ho. simpl. eauto.
    + simpl. apply IH; [done| |done|done|by apply (Hdom (k, d))].
      intros [k' d'] Hin'. simpl.
      assert (Hne : k <> k').
      { intros ->. apply Hk. apply list_elem_of_fmap. by exists (k', d'). }
      destruct (selected k d); [|apply (Hin (k', d')); by apply list_elem_of_further].
      rewrite removeTrackedObject_registry, pre_appends. simpl.
      rewrite lookup_delete_ne by done.
      apply (Hin (k', d')). by apply list_elem_of_further.
Qed.

End RemovalLoop.

Lemma removalLog_segment (before : string -> list Effect) selected
    (entries : list (string * SyncedTrackedObject)) kd :
  kd ∈ entries -> selected kd.1 kd.2 = true ->
  exists l1 l2,
    removalLog before selected entries
    = l1 ++ before kd.1 ++ [Destroy (object kd.2)] ++ l2.
Proof.
  intros Hin Hsel. unfold removalLog.
  assert (Hf : kd ∈ filter (fun kd => selected kd.1 kd.2 = true) entries)
    by (by apply list_elem_of_filter).
  apply list_elem_of_split in Hf as (a & b & ->).
  rewrite bind_app, bind_cons.
  exists (a ≫= (fun kd => before kd.1 ++ [Destroy (object kd.2)])),
         (b ≫= (fun kd => before kd.1 ++ [Destroy (object kd.2)])).
  by rewrite <- !app_assoc.
Qed.

(** *** Peer departure *)

(** X1.  When a peer leaves, exactly the entities it owns are removed: the
    registry keeps the records of every other owner unchanged, the host
    object of every removed record is detached and destroyed, no other host
    object is touched, and the only effects are those destructions. *)
Theorem peer_left_cleanup userId p :
  syncedObjects (onUserLeft userId p) =
    filter (fun kd => ownerId kd.2 <> userId) (syncedObjects p) /\
  log (onUserLeft userId p) =
    log p ++ removalLog (fun _ => []) (fun _ d => bool_decide (ownerId d = userId))
               (map_to_list (syncedObjects p)) /\
  (forall imageId data,
     syncedObjects p !! imageId = Some data -> ownerId data = userId ->
     is_Some (scene p !! object data) ->
     released (onUserLeft userId p) (object data)) /\
  (forall h,
     (forall imageId data,
        syncedObjects p !! imageId = Some data -> ownerId data = userId ->
        object data <> h) ->
     scene (onUserLeft userId p) !! h = scene p !! h).
Proof.
  assert (Hpre : forall i acc,
            (fun (_ : string) (q : Peer) => q) i acc
            = appendLog ((fun _ _ => []) (config acc) i) acc)
    by (intros; by rewrite appendLog_nil).
  assert (Hin : forall kd, kd ∈ map_to_list (syncedObjects p) ->
            syncedObjects p !! kd.1 = Some kd.2)
    by (intros [k d] Hkd; by apply elem_of_map_to_list).
  pose (sel := fun (_ : string) d => bool_decide (ownerId d = userId)).
  assert (Hfilter : syncedObjects (onUserLeft userId p)
                    = filter (fun kd => sel kd.1 kd.2 = false) (syncedObjects p))
    by exact (removalLoop_filter sel _ _ Hpre p).
  assert (Hlog : log (onUserLeft userId p)
                 = log p ++ removalLog (fun _ => []) sel (map_to_list (syncedObjects p))).
  { pose proof (removalLoop_log sel _ _ Hpre (map_to_list (syncedObjects p)) p
                  (NoDup_fst_map_to_list _) Hin) as (Hlog & _). exact Hlog. }
  split; [|split; [|split]].
  - rewrite Hfilter. apply map_filter_ext. intros i d _. unfold sel. simpl.
    split; intros Hd.
    + by apply bool_decide_eq_false in Hd.
    + by apply bool_decide_eq_false.
  - exact Hlog.
  - intros imageId data Hl Ho Hs.
    pose proof (removalLoop_released sel _ _ Hpre _ p (imageId, data)
                  (NoDup_fst_map_to_list _) Hin) as Hrel.
    apply Hrel; [by apply elem_of_map_to_list| |done].
    unfold sel. simpl. by apply bool_decide_eq_true.
  - intros h Hother.
    pose proof (removalLoop_scene_other sel _ _ Hpre (map_to_list (syncedObjects p)) p h
                  Hin) as Hsc.
    apply Hsc. intros [k d] Hkd Hsel. unfold sel in Hsel. simpl in *.
    apply bool_decide_eq_true in Hsel.
    apply (Hother k); [by apply elem_of_map_to_list|done].
Qed.

(** *** Lost tracking *)

Lemma lostTracking_appends now i acc :
  (fun i q => sendDespawnMessage now i (releaseOwnership now i q)) i acc
  = appendLog ((fun c i => lostTrackingMessages now (default "" (connectionId c)) i)
                 (config acc) i) acc.
Proof.
  simpl. unfold sendDespawnMessage, releaseOwnership.
  by rewrite !emit_appendLog, appendLog_app.
Qed.

(** X2.  A detection event (with [canSync()] and at least one image) drops
    the locally tracked entities whose image is no longer detected and
    nothing else from the registry.  Afterwards every locally tracked record
    left belongs to a detected image.  For each dropped entity the handler
    sends the Ownership release, then the Despawn, then destroys the host
    object, in that order and without anything in between. *)
Theorem lost_tracking_cleanup now images p :
  canSync p = true -> images <> [] ->
  syncedObjects (onImageTrackingUpdate now images p) =
    filter (fun kd => trackingLost images kd.1 kd.2 = false) (syncedObjects p) /\
  (forall imageId data,
     syncedObjects (onImageTrackingUpdate now images p) !! imageId = Some data ->
     isLocallyTracked data = true ->
     exists image, image ∈ images /\ getImageId image = imageId) /\
  (forall imageId data,
     syncedObjects p !! imageId = Some data -> trackingLost images imageId data = true ->
     (exists l1 l2,
        log (onImageTrackingUpdate now images p) =
          log p ++ l1 ++ lostTrackingMessages now (getLocalId p) imageId
                ++ [Destroy (object data)] ++ l2) /\
     (is_Some (scene p !! object data) ->
      released (onImageTrackingUpdate now images p) (object data))).
Proof.
  intros Hsync Hne. unfold onImageTrackingUpdate. rewrite Hsync. simpl.
  destruct images as [|x images]; [done|].
  set (b := bool_decide (updateInterval (config p) <= now - lastUpdateTime p)).
  destruct (foldl_trackImage_emits now b (x :: images) p) as [es ->].
  set (p2 := if b then set_lastUpdateTime now (appendLog es p) else appendLog es p).
  assert (Hreg2 : syncedObjects p2 = syncedObjects p) by (unfold p2; by destruct b).
  assert (Hlog2 : log p2 = log p ++ es) by (unfold p2; by destruct b).
  assert (Hcfg2 : config p2 = config p) by (unfold p2; by destruct b).
  assert (Hscene2 : scene p2 = scene p) by (unfold p2; by destruct b).
  assert (Hin : forall kd, kd ∈ map_to_list (syncedObjects p2) ->
            syncedObjects p2 !! kd.1 = Some kd.2)
    by (intros [k d] Hkd; by apply elem_of_map_to_list).
  assert (Hfilter : syncedObjects (checkForLostTracking now (x :: images) p2)
                    = filter (fun kd => trackingLost (x :: images) kd.1 kd.2 = false)
                        (syncedObjects p2))
    by exact (removalLoop_filter (trackingLost (x :: images)) _ _
                (lostTracking_appends now) p2).
  rewrite Hreg2 in Hfilter.
  assert (Hlog : log (checkForLostTracking now (x :: images) p2)
                 = log p2 ++ removalLog
                     (fun i => lostTrackingMessages now
                                 (default "" (connectionId (config p2))) i)
                     (trackingLost (x :: images)) (map_to_list (syncedObjects p2))).
  { pose proof (removalLoop_log (trackingLost (x :: images)) _ _
                  (lostTracking_appends now) (map_to_list (syncedObjects p2)) p2
                  (NoDup_fst_map_to_list _) Hin) as (Hlog & _). exact Hlog. }
  split; [exact Hfilter|]. split.
  - intros imageId data Hl Hd. rewrite Hfilter in Hl.
    apply map_lookup_filter_Some in Hl as [_ Hlost]. simpl in Hlost.
    unfold trackingLost in Hlost. rewrite Hd in Hlost. simpl in Hlost.
    apply negb_false_iff, bool_decide_eq_true in Hlost.
    unfold detectedIds in Hlost. apply elem_of_list_to_set in Hlost.
    apply list_elem_of_fmap in Hlost as (image & -> & Himg). eauto.
  - intros imageId data Hl Hlost. rewrite <- Hreg2 in Hl. split.
    + destruct (removalLog_segment
                  (fun i => lostTrackingMessages now (default "" (connectionId (config p2))) i)
                  (trackingLost (x :: images))
                  (map_to_list (syncedObjects p2)) (imageId, data))
        as (l1 & l2 & Hseg); [by apply elem_of_map_to_list|done|].
      rewrite Hlog, Hseg, Hlog2. simpl. unfold getLocalId. rewrite Hcfg2.
      exists (es ++ l1), l2. by rewrite <- !app_assoc.
    + intros Hs. rewrite <- Hscene2 in Hs.
      pose proof (removalLoop_released (trackingLost (x :: images)) _ _
                    (lostTracking_appends now) _ p2 (imageId, data)
                    (NoDup_fst_map_to_list _) Hin) as Hrel.
      apply Hrel; [by apply elem_of_map_to_list|done|done].
Qed.

(** *** Registry and scene stay consistent *)

Lemma destroyedHandles_app es1 es2 :
  destroyedHandles (es1 ++ es2) = destroyedHandles es1 ++ destroyedHandles es2.
Proof. unfold destroyedHandles. apply bind_app. Qed.

Lemma elem_of_destroyedHandles h es : h ∈ destroyedHandles es <-> Destroy h ∈ es.
Proof.
  unfold destroyedHandles. rewrite list_elem_of_bind. split.
  - intros (e & He & Hin). destruct e; try (by apply elem_of_nil in He).
    apply list_elem_of_singleton in He as ->. done.
  - intros Hin. exists (Destroy h). split; [apply list_elem_of_here|done].
Qed.

Lemma wellFormed_emit e p :
  (forall h, e <> Destroy h) -> wellFormed p -> wellFormed (emit e p).
Proof.
  intros He (Ha & Hs & Hd & Hl & Hdl & Hnd). repeat split; try done.
  - intros h Hin. simpl in Hin. apply elem_of_app in Hin as [Hin|Hin]; [by apply Hdl|].
    apply list_elem_of_singleton in Hin. by destruct (He h).
  - simpl. rewrite destroyedHandles_app.
    replace (destroyedHandles [e]) with (@nil nat); [by rewrite app_nil_r|].
    destruct e; try done. by destruct (He h).
Qed.

Lemma wellFormed_update imageId data data' p :
  syncedObjects p !! imageId = Some data -> object data' = object data ->
  wellFormed p ->
  wellFormed (set_syncedObjects (<[imageId := data']> (syncedObjects p)) p).
Proof.
  intros Hl Ho (Ha & Hs & Hd & Hlive & Hdl & Hnd).
  assert (Hback : forall i d',
            <[imageId := data']> (syncedObjects p) !! i = Some d' ->
            exists d, syncedObjects p !! i = Some d /\ object d = object d').
  { intros i d' Hi. destruct (decide (imageId = i)) as [Heq|Hne].
    - subst i. rewrite lookup_insert_eq in Hi. injection Hi as <-. eauto.
    - rewrite lookup_insert_ne in Hi by done. eauto. }
  repeat split; try done.
  - intros i d' Hi. simpl in Hi. destruct (Hback i d' Hi) as (d & Hd' & <-).
    by apply (Ha i).
  - intros i j di dj Hi Hj Heq. simpl in Hi, Hj.
    destruct (Hback i di Hi) as (d1 & H1 & E1).
    destruct (Hback j dj Hj) as (d2 & H2 & E2).
    apply (Hd i j d1 d2 H1 H2). congruence.
  - intros i d' Hi. simpl in Hi. destruct (Hback i d' Hi) as (d & Hd' & <-).
    by apply (Hlive i).
Qed.

Lemma wellFormed_applyRelativeTransform h pos rot p :
  wellFormed p -> wellFormed (applyRelativeTransform h pos rot p).
Proof.
  intros HW. unfold applyRelativeTransform.
  destruct (sandboxRoot (config p)) as [root|]; [|done].
  destruct (scene p !! h) as [o|] eqn:Ho; [|done].
  destruct HW as (Ha & Hs & Hd & Hlive & Hdl & Hnd).
  assert (Hflag : destroyed (smoothed root (interpolationFactor (config p)) o pos rot)
                  = destroyed o).
  { unfold smoothed. by destruct (parent o). }
  repeat split; try done.
  - intros h' o' Hh'. simpl in Hh'. destruct (decide (h = h')) as [<-|Hne].
    + by apply (Hs h o).
    + rewrite lookup_insert_ne in Hh' by done. by apply (Hs h' o').
  - intros i d Hi. simpl in Hi. destruct (Hlive i d Hi) as (o' & Ho' & Hf). simpl.
    destruct (decide (h = object d)) as [Heq|Hne].
    + subst h. rewrite lookup_insert_eq. eexists. split; [done|]. rewrite Hflag. congruence.
    + rewrite lookup_insert_ne by done. eauto.
  - intros h' Hin. simpl in Hin. destruct (Hdl h' Hin) as (o' & Ho' & Hf). simpl.
    destruct (decide (h = h')) as [Heq|Hne].
    + subst h'. rewrite lookup_insert_eq. eexists. split; [done|]. rewrite Hflag. congruence.
    + rewrite lookup_insert_ne by done. eauto.
Qed.

Lemma wellFormed_remove imageId p :
  wellFormed p -> wellFormed (removeTrackedObject imageId p).
Proof.
  intros HW. unfold removeTrackedObject.
  destruct (syncedObjects p !! imageId) as [data|] eqn:Hl; [|done].
  destruct HW as (Ha & Hs & Hd & Hlive & Hdl & Hnd).
  destruct (Hlive _ _ Hl) as (o & Ho & Hf).
  repeat split.
  - intros i d Hi. simpl in Hi. apply lookup_delete_Some in Hi as [_ Hi]. by apply (Ha i).
  - intros h o' Hh. simpl in Hh. destruct (decide (object data = h)) as [<-|Hne].
    + by apply (Hs _ o).
    + rewrite lookup_alter_ne in Hh by done. by apply (Hs h o').
  - intros i j di dj Hi Hj. simpl in Hi, Hj.
    apply lookup_delete_Some in Hi as [_ Hi]. apply lookup_delete_Some in Hj as [_ Hj].
    by apply Hd.
  - intros i d Hi. simpl in Hi. apply lookup_delete_Some in Hi as [Hne Hi]. simpl.
    rewrite lookup_alter_ne; [by apply (Hlive i)|].
    intros Heq. apply Hne. by apply (Hd imageId i data d).
  - intros h Hin. simpl in Hin. simpl.
    apply elem_of_app in Hin as [Hin|Hin].
    + destruct (Hdl h Hin) as (o' & Ho' & Hf').
      destruct (decide (object data = h)) as [<-|Hne].
      * rewrite lookup_alter_eq, Ho. simpl. eauto.
      * rewrite lookup_alter_ne by done. eauto.
    + apply list_elem_of_singleton in Hin. injection Hin as ->.
      rewrite lookup_alter_eq, Ho. simpl. eauto.
  - simpl. rewrite destroyedHandles_app. apply NoDup_app. split; [done|]. split.
    + intros h Hin Hin'. apply list_elem_of_singleton in Hin'. subst h.
      apply elem_of_destroyedHandles in Hin.
      destruct (Hdl _ Hin) as (o' & Ho' & Hf'). congruence.
    + apply NoDup_singleton.
Qed.

Lemma wellFormed_pendingLoads l p :
  wellFormed p -> wellFormed (set_pendingLoads l p).
Proof. done. Qed.

Lemma wellFormed_createTrackedObject m p :
  wellFormed p -> wellFormed (createTrackedObject m p).
Proof.
  intros HW. unfold createTrackedObject.
  destruct (imageTracking (config p)) as [trackedImages|]; [|done].
  destruct (trackedImageAt trackedImages (spawn_assetIndex m)) as [model|].
  - destruct (hasObject model); [done|]. by apply wellFormed_emit.
  - by apply wellFormed_emit.
Qed.

Lemma wellFormed_onLoadSettled k outcome p :
  wellFormed p -> wellFormed (onLoadSettled k outcome p).
Proof.
  intros HW. unfold onLoadSettled.
  destruct (pendingLoads p !! k) as [m|]; [|done].
  destruct outcome as [[pose|]| |]; [|done|done|by apply wellFormed_emit].
  destruct HW as (Ha & Hs & Hd & Hlive & Hdl & Hnd).
  cbv zeta.
  set (p0 := set_pendingLoads _ p).
  set (h := nextHandle p0).
  assert (Hh : h = nextHandle p) by done.
  set (p1 := emit (Instantiate h) _).
  assert (HW1 : wellFormed p1).
  { repeat split.
    - intros i d Hi. simpl in Hi. specialize (Ha i d Hi). simpl. lia.
    - intros h' o' Hh'. simpl in Hh'. simpl.
      destruct (decide (h = h')) as [<-|Hne]; [lia|].
      rewrite lookup_insert_ne in Hh' by done. specialize (Hs h' o' Hh'). lia.
    - done.
    - intros i d Hi. simpl in Hi. destruct (Hlive i d Hi) as (o & Ho & Hf). simpl.
      rewrite lookup_insert_ne; [eauto|]. specialize (Ha i d Hi). lia.
    - intros h' Hin. simpl in Hin. apply elem_of_app in Hin as [Hin|Hin].
      + destruct (Hdl h' Hin) as (o & Ho & Hf). simpl.
        rewrite lookup_insert_ne; [eauto|]. specialize (Hs h' o Ho). lia.
      + by apply list_elem_of_singleton in Hin.
    - simpl. rewrite destroyedHandles_app. simpl. by rewrite app_nil_r. }
  assert (Hlive1 : exists o, scene p1 !! h = Some o /\ destroyed o = false).
  { simpl. rewrite lookup_insert_eq. eauto. }
  assert (Hfresh1 : forall i d, syncedObjects p1 !! i = Some d -> object d <> h).
  { intros i d Hi. simpl in Hi. specialize (Ha i d Hi). unfold h. lia. }
  assert (Hnext1 : nextHandle p1 = S h) by done.
  clearbody p1.
  pose proof (wellFormed_applyRelativeTransform h (spawn_relativePosition m)
                (spawn_relativeRotation m) p1 HW1) as HW2.
  set (p2 := applyRelativeTransform h _ _ p1) in *.
  assert (Hlive2 : exists o, scene p2 !! h = Some o /\ destroyed o = false).
  { unfold p2, applyRelativeTransform.
    destruct (sandboxRoot (config p1)) as [root|]; [|done].
    destruct Hlive1 as (o & Ho & Hf). rewrite Ho. simpl. rewrite lookup_insert_eq.
    eexists. split; [done|]. unfold smoothed. by destruct (parent o). }
  assert (Hreg2 : syncedObjects p2 = syncedObjects p1)
    by apply applyRelativeTransform_registry.
  assert (Hnext2 : nextHandle p2 = S h)
    by (unfold p2; by rewrite applyRelativeTransform_nextHandle).
  clearbody p2. destruct HW2 as (Ha2 & Hs2 & Hd2 & Hl2 & Hdl2 & Hnd2).
  unfold setActive. simpl.
  assert (Hscene : forall h',
            (exists o, scene p2 !! h' = Some o /\ destroyed o = false) ->
            exists o, alter (fun o => {| parent := parent o; position := position o;
                                         quaternion := quaternion o; active := true;
                                         destroyed := destroyed o |}) h (scene p2) !! h'
                      = Some o /\ destroyed o = false).
  { intros h' (o & Ho & Hf). destruct (decide (h = h')) as [<-|Hne].
    - rewrite lookup_alter_eq, Ho. simpl. eauto.
    - rewrite lookup_alter_ne by done. eauto. }
  repeat split.
  - intros i d Hi. simpl in Hi. simpl. rewrite Hnext2.
    destruct (decide (spawn_imageId m = i)) as [Heq|Hne].
    + rewrite Heq, lookup_insert_eq in Hi. injection Hi as <-. simpl. lia.
    + rewrite lookup_insert_ne in Hi by done. specialize (Ha2 i d Hi). lia.
  - intros h' o' Hh'. simpl in Hh'. simpl. destruct (decide (h = h')) as [<-|Hne].
    + rewrite Hnext2. lia.
    + rewrite lookup_alter_ne in Hh' by done. by apply (Hs2 h' o').
  - intros i j di dj Hi Hj Heq. simpl in Hi, Hj. rewrite Hreg2 in Hi, Hj.
    destruct (decide (spawn_imageId m = i)) as [Ei|Ni];
      destruct (decide (spawn_imageId m = j)) as [Ej|Nj]; [congruence| | |].
    + rewrite Ei, lookup_insert_eq in Hi. injection Hi as <-.
      rewrite lookup_insert_ne in Hj by congruence.
      by destruct (Hfresh1 j dj Hj).
    + rewrite Ej, lookup_insert_eq in Hj. injection Hj as <-.
      rewrite lookup_insert_ne in Hi by congruence.
      by destruct (Hfresh1 i di Hi).
    + rewrite lookup_insert_ne in Hi, Hj by done.
      rewrite <- Hreg2 in Hi, Hj. by apply (Hd2 i j di dj).
  - intros i d Hi. simpl in Hi. simpl. apply Hscene.
    destruct (decide (spawn_imageId m = i)) as [Heq|Hne].
    + rewrite Heq, lookup_insert_eq in Hi. injection Hi as <-. done.
    + rewrite lookup_insert_ne in Hi by done. by apply (Hl2 i).
  - intros h' Hin. simpl in Hin. destruct (Hdl2 h' Hin) as (o & Ho & Hf). simpl.
    destruct (decide (h = h')) as [<-|Hne].
    + rewrite lookup_alter_eq, Ho. simpl. eauto.
    + rewrite lookup_alter_ne by done. eauto.
  - done.
Qed.

Lemma wellFormed_forEachSynced body p :
  (forall imageId data acc, wellFormed acc -> wellFormed (body imageId data acc)) ->
  wellFormed p -> wellFormed (forEachSynced body p).
Proof.
  intros Hbody HW. apply (forEachSynced_ind wellFormed); [done|].
  intros imageId data acc _. apply Hbody.
Qed.

Lemma wellFormed_trackImages now b images p :
  wellFormed p ->
  wellFormed (foldl (fun acc image => trackImage now b image acc) p images).
Proof.
  revert p. induction images as [|x images IH]; intros p HW; [done|].
  simpl. apply IH. unfold trackImage.
  destruct (calculateRelativeTransform p x); [|done].
  destruct (syncedObjects p !! getImageId x) as [existingData|].
  - destruct (_ && b); [by apply wellFormed_emit|].
    destruct (_ && _); [by apply wellFormed_emit|done].
  - by apply wellFormed_emit.
Qed.

Lemma dispatch_wellFormed e p : wellFormed p -> wellFormed (dispatch e p).
Proof.
  intros HW.
  destruct e as [now images|m|m|m|m|now senderId|m|userId|userId|k outcome]; simpl.
  - unfold onImageTrackingUpdate. destruct (negb (canSync p)); [done|].
    destruct images as [|x images]; [done|].
    apply wellFormed_forEachSynced.
    + intros imageId data acc HWacc. destruct (_ && _); [|done].
      apply wellFormed_remove. unfold sendDespawnMessage, releaseOwnership.
      apply wellFormed_emit; [done|]. by apply wellFormed_emit.
    + destruct (bool_decide _); by apply wellFormed_trackImages.
  - unfold onReceiveSpawn.
    destruct (syncedObjects p !! spawn_imageId m) as [data|] eqn:Hl.
    + case_bool_decide; [|done]. by eapply wellFormed_update.
    + by apply wellFormed_createTrackedObject.
  - unfold onReceiveTransform.
    destruct (syncedObjects p !! transform_imageId m) as [data|] eqn:Hl; [|done].
    destruct (negb _); [done|]. destruct (_ && _); [done|].
    case_bool_decide; [done|].
    apply (wellFormed_update _ data);
      [by rewrite applyRelativeTransform_registry|done
      |by apply wellFormed_applyRelativeTransform].
  - unfold onReceiveDespawn.
    destruct (syncedObjects p !! despawn_imageId m); [|done].
    destruct (negb _); [done|]. by apply wellFormed_remove.
  - unfold onReceiveOwnership.
    destruct (syncedObjects p !! ownership_imageId m) as [data|] eqn:Hl; [|done].
    destruct (ownership_action m).
    + destruct (_ || _); [|done]. by eapply wellFormed_update.
    + case_bool_decide; [|done]. by eapply wellFormed_update.
  - unfold onReceiveStateRequest. case_bool_decide; [done|].
    apply wellFormed_forEachSynced; [|done].
    intros imageId data acc HWacc. destruct (isLocallyTracked data); [|done].
    destruct (scene acc !! object data); [|done].
    destruct (sandboxRoot (config acc)); [|done].
    destruct (calculateRelativeTransformFromObject _ _ _); [|done].
    by apply wellFormed_emit.
  - unfold onReceiveStateResponse. destruct (_ && _); [done|].
    destruct (syncedObjects p !! response_imageId m); [done|].
    by apply wellFormed_createTrackedObject.
  - unfold onUserJoined. case_bool_decide; [|done]. by apply wellFormed_emit.
  - unfold onUserLeft. apply wellFormed_forEachSynced; [|done].
    intros imageId data acc HWacc. case_bool_decide; [|done].
    by apply wellFormed_remove.
  - by apply wellFormed_onLoadSettled.
Qed.

Lemma awake_wellFormed c : wellFormed (awake c).
Proof.
  repeat split; try (intros ? ? Hl; simpl in Hl; by rewrite lookup_empty in Hl).
  - intros i j di dj Hi. simpl in Hi. by rewrite lookup_empty in Hi.
  - intros h Hin. simpl in Hin. by apply elem_of_nil in Hin.
  - apply NoDup_nil_2.
Qed.

Lemma run_wellFormed events p : wellFormed p -> wellFormed (run events p).
Proof.
  revert p. induction events as [|e events IH]; intros p HW; [done|].
  rewrite run_cons. apply IH. by apply dispatch_wellFormed.
Qed.

(** X3.  In every state reached from the empty registry, no two registry
    records share a host object, and the host object of every record is in
    the scene and has not been destroyed. *)
Theorem records_have_their_own_live_object c events :
  objectsDistinct (run events (awake c)) /\ registeredLive (run events (awake c)).
Proof.
  destruct (run_wellFormed events (awake c) (awake_wellFormed c))
    as (_ & _ & Hd & Hl & _). done.
Qed.

(** X4.  In every state reached from the empty registry, no host object has
    been destroyed twice, and every host object whose destruction was
    requested is marked destroyed in the scene. *)
Theorem host_objects_destroyed_once c events :
  NoDup (destroyedHandles (log (run events (awake c)))) /\
  destroyedLogged (run events (awake c)).
Proof.
  destruct (run_wellFormed events (awake c) (awake_wellFormed c))
    as (_ & _ & _ & _ & Hdl & Hnd). done.
Qed.

(** *** The ownership invariant along a run *)

Lemma run_config events p : config (run events p) = config p.
Proof.
  revert p. induction events as [|e events IH]; intros p; [done|].
  by rewrite run_cons, IH, dispatch_config.
Qed.

(** X5.  Starting from the empty registry, as long as no Ownership release
    naming the local peer as its sender is received, every record that is
    locally tracked is owned by the local peer. *)
Theorem ownership_invariant_along_run c events :
  (forall e, e ∈ events -> ~ releaseBySelf (awake c) e) ->
  ownershipInvariant (run events (awake c)).
Proof.
  assert (Hgen : forall events p,
            config p = c -> ownershipInvariant p ->
            (forall e, e ∈ events -> ~ releaseBySelf (awake c) e) ->
            ownershipInvariant (run events p)).
  { clear events. induction events as [|e events IH]; intros p Hc Hinv Hno; [done|].
    rewrite run_cons. apply IH.
    - by rewrite dispatch_config.
    - apply dispatch_ownershipInvariant; [done|].
      intros Hself. apply (Hno e); [apply list_elem_of_here|].
      destruct e; try done. unfold releaseBySelf, getLocalId in *. simpl.
      by rewrite <- Hc.
    - intros e' He'. apply Hno. by apply list_elem_of_further. }
  intros Hno. apply Hgen; [done| |done].
  intros imageId data Hl. simpl in Hl. by rewrite lookup_empty in Hl.
Qed.

(** *** Entity identifiers *)

(** X6.  The identifier derived from a detected image determines its asset
    slot: two detections get the same identifier exactly when they refer to
    the same slot of [trackedImages]. *)
Theorem getImageId_identifies_slot (a b : WebXRTrackedImage) :
  getImageId a = getImageId b <-> getAssetIndex a = getAssetIndex b.
Proof.
  unfold getImageId, getAssetIndex. split.
  - intros Heq. apply String.app_inj in Heq. by apply pretty_Z_inj in Heq.
  - by intros ->.
Qed.

(** *** Removal is idempotent *)

(** X7.  Removing an entity twice is the same as removing it once, and so is
    receiving the same Despawn twice: the second time nothing is destroyed
    and nothing changes. *)
Theorem removal_is_idempotent imageId m p :
  removeTrackedObject imageId (removeTrackedObject imageId p)
    = removeTrackedObject imageId p /\
  onReceiveDespawn m (onReceiveDespawn m p) = onReceiveDespawn m p.
Proof.
  split.
  - apply removeTrackedObject_absent.
    by rewrite removeTrackedObject_registry, lookup_delete_eq.
  - unfold onReceiveDespawn at 2 3.
    destruct (syncedObjects p !! despawn_imageId m) as [data|] eqn:Hl.
    + destruct (negb _) eqn:Hs.
      * unfold onReceiveDespawn. by rewrite Hl, Hs.
      * unfold onReceiveDespawn.
        by rewrite removeTrackedObject_registry, lookup_delete_eq.
    + unfold onReceiveDespawn. by rewrite Hl.
Qed.

(** *** Asset errors *)

Lemma delete_not_pending {A} (l : list A) k : l !! k = None -> delete k l = l.
Proof.
  revert k. induction l as [|x l IH]; intros [|k] Hk; try done.
  simpl. f_equal. by apply IH.
Qed.

Lemma trackedImageAt_None trackedImages i :
  trackedImageAt trackedImages i = None <-> i < 0 \/ Z.of_nat (length trackedImages) <= i.
Proof.
  unfold trackedImageAt. case_bool_decide as Hi.
  - rewrite lookup_ge_None. split; [intros; right; lia | intros [?|?]; lia].
  - split; [intros; left; lia | done].
Qed.

(** X8.  A Spawn or snapshot whose asset cannot be provided never creates an
    entity.  When the asset index is negative, beyond [trackedImages], or
    names a slot without an asset, [createTrackedObject] only logs a warning
    and starts no load; when the tracking component is unassigned it does
    nothing at all.  When a started load yields no asset, fails, or the
    instantiation yields nothing, the registry, the scene and the handle
    counter stay as they were. *)
Theorem missing_assets_register_nothing m p :
  (imageTracking (config p) = None -> createTrackedObject m p = p) /\
  (forall trackedImages,
     imageTracking (config p) = Some trackedImages ->
     (spawn_assetIndex m < 0 \/
      Z.of_nat (length trackedImages) <= spawn_assetIndex m \/
      trackedImages !! Z.to_nat (spawn_assetIndex m) = Some {| hasObject := false |}) ->
     createTrackedObject m p = emit Warn p) /\
  (forall k outcome,
     outcome = AssetNull \/ outcome = AssetRejected \/ outcome = AssetLoaded None ->
     syncedObjects (onLoadSettled k outcome p) = syncedObjects p /\
     scene (onLoadSettled k outcome p) = scene p /\
     nextHandle (onLoadSettled k outcome p) = nextHandle p /\
     pendingLoads (onLoadSettled k outcome p) = delete k (pendingLoads p)).
Proof.
  split; [|split].
  - intros Hi. unfold createTrackedObject. by rewrite Hi.
  - intros trackedImages Hi Hbad. unfold createTrackedObject. rewrite Hi.
    destruct (trackedImageAt trackedImages (spawn_assetIndex m)) as [model|] eqn:Hat;
      [|done].
    destruct Hbad as [Hneg|[Hbig|Hno]].
    + assert (trackedImageAt trackedImages (spawn_assetIndex m) = None)
        by (apply trackedImageAt_None; by left). congruence.
    + assert (trackedImageAt trackedImages (spawn_assetIndex m) = None)
        by (apply trackedImageAt_None; by right). congruence.
    + unfold trackedImageAt in Hat. case_bool_decide; [|done].
      rewrite Hno in Hat. by injection Hat as <-.
  - intros k outcome Hout. unfold onLoadSettled.
    destruct (pendingLoads p !! k) as [msg|] eqn:Hk.
    + by destruct Hout as [->|[->| ->]].
    + repeat split; try done. symmetry. by apply delete_not_pending.
Qed.

(** *** Ownership requests and releases *)

(** X9.  An Ownership request for a registered entity is refused (nothing
    changes) when the local peer is driving the entity, and granted
    otherwise: the requester becomes the owner, the rest of the record and
    of the peer stay as they are.  After a grant, Transforms for the entity
    from any other sender are dropped, and a Transform from the new owner
    (when it is not the local peer) that is not older than the stored
    timestamp is accepted. *)
Theorem ownership_request_handover p req data :
  syncedObjects p !! ownership_imageId req = Some data ->
  ownership_action req = request ->
  (isLocallyTracked data = true /\ ownerId data = getLocalId p ->
     onReceiveOwnership req p = p) /\
  (~ (isLocallyTracked data = true /\ ownerId data = getLocalId p) ->
     onReceiveOwnership req p =
       set_syncedObjects
         (<[ownership_imageId req :=
              {| object := object data;
                 ownerId := ownership_senderId req;
                 assetIndex := assetIndex data;
                 lastUpdate := lastUpdate data;
                 isLocallyTracked :=
                   bool_decide (ownership_senderId req = getLocalId p) |}]>
            (syncedObjects p)) p /\
     (forall m,
        transform_imageId m = ownership_imageId req ->
        transform_senderId m <> ownership_senderId req ->
        onReceiveTransform m (onReceiveOwnership req p) = onReceiveOwnership req p) /\
     (forall m,
        transform_imageId m = ownership_imageId req ->
        transform_senderId m = ownership_senderId req ->
        ownership_senderId req <> getLocalId p ->
        lastUpdate data <= transform_timestamp m ->
        syncedObjects (onReceiveTransform m (onReceiveOwnership req p))
          !! ownership_imageId req =
          Some {| object := object data;
                  ownerId := ownership_senderId req;
                  assetIndex := assetIndex data;
                  lastUpdate := transform_timestamp m;
                  isLocallyTracked := false |})).
Proof.
  intros Hl Ha. split.
  - intros [Hd Ho]. unfold onReceiveOwnership. rewrite Hl, Ha, Hd.
    by rewrite (bool_decide_eq_true_2 _ Ho).
  - intros Hnot.
    assert (Hgrant : onReceiveOwnership req p =
              set_syncedObjects
                (<[ownership_imageId req :=
                     {| object := object data;
                        ownerId := ownership_senderId req;
                        assetIndex := assetIndex data;
                        lastUpdate := lastUpdate data;
                        isLocallyTracked :=
                          bool_decide (ownership_senderId req = getLocalId p) |}]>
                   (syncedObjects p)) p).
    { unfold onReceiveOwnership. rewrite Hl, Ha.
      destruct (isLocallyTracked data) eqn:Hd; [|done].
      rewrite bool_decide_eq_false_2; [done|]. intros Ho. by apply Hnot. }
    split; [exact Hgrant|]. rewrite Hgrant. split.
    + intros m Hid Hs.
      eapply transform_guards_rejected.
      * simpl. rewrite Hid. apply lookup_insert_eq.
      * unfold transformAccepted. simpl. by rewrite bool_decide_eq_false_2.
    + intros m Hid Hs Hother Ht.
      rewrite (transform_guards_accepted _ m
                 {| object := object data;
                    ownerId := ownership_senderId req;
                    assetIndex := assetIndex data;
                    lastUpdate := lastUpdate data;
                    isLocallyTracked :=
                      bool_decide (ownership_senderId req = getLocalId p) |}).
      * simpl. rewrite Hid, lookup_insert_eq. unfold withLastUpdate. simpl.
        by rewrite bool_decide_eq_false_2.
      * simpl. rewrite Hid. apply lookup_insert_eq.
      * unfold transformAccepted. simpl.
        rewrite (bool_decide_eq_true_2 _ Hs). simpl.
        rewrite (bool_decide_eq_false_2 (ownership_senderId req = getLocalId p)) by done.
        rewrite andb_false_r. simpl. by apply bool_decide_eq_true_2.
Qed.

(** X10.  An Ownership release for a registered entity is ignored when its
    sender is not the stored owner.  From the stored owner it clears the
    owner and leaves everything else as it is; afterwards the entity accepts
    no Transform and no Despawn from any named sender, and (on a peer with a
    non-empty id) the next Ownership request is granted whoever sends it. *)
Theorem ownership_release_unowns p rel data :
  syncedObjects p !! ownership_imageId rel = Some data ->
  ownership_action rel = release ->
  (ownerId data <> ownership_senderId rel -> onReceiveOwnership rel p = p) /\
  (ownerId data = ownership_senderId rel ->
     onReceiveOwnership rel p =
       set_syncedObjects
         (<[ownership_imageId rel :=
              {| object := object data; ownerId := "";
                 assetIndex := assetIndex data; lastUpdate := lastUpdate data;
                 isLocallyTracked := isLocallyTracked data |}]>
            (syncedObjects p)) p /\
     (forall m,
        transform_imageId m = ownership_imageId rel -> transform_senderId m <> "" ->
        onReceiveTransform m (onReceiveOwnership rel p) = onReceiveOwnership rel p) /\
     (forall m,
        despawn_imageId m = ownership_imageId rel -> despawn_senderId m <> "" ->
        onReceiveDespawn m (onReceiveOwnership rel p) = onReceiveOwnership rel p) /\
     (forall req,
        ownership_imageId req = ownership_imageId rel ->
        ownership_action req = request ->
        getLocalId p <> "" ->
        ownerId <$> syncedObjects (onReceiveOwnership req (onReceiveOwnership rel p))
                      !! ownership_imageId rel
          = Some (ownership_senderId req))).
Proof.
  intros Hl Ha. split.
  - intros Hne. unfold onReceiveOwnership. rewrite Hl, Ha.
    by rewrite bool_decide_eq_false_2.
  - intros Ho.
    assert (Hrel : onReceiveOwnership rel p =
              set_syncedObjects
                (<[ownership_imageId rel :=
                     {| object := object data; ownerId := "";
                        assetIndex := assetIndex data; lastUpdate := lastUpdate data;
                        isLocallyTracked := isLocallyTracked data |}]>
                   (syncedObjects p)) p).
    { unfold onReceiveOwnership. rewrite Hl, Ha. by rewrite bool_decide_eq_true_2. }
    split; [exact Hrel|]. rewrite Hrel. split; [|split].
    + intros m Hid Hs. eapply transform_guards_rejected.
      * simpl. rewrite Hid. apply lookup_insert_eq.
      * unfold transformAccepted. simpl. by rewrite bool_decide_eq_false_2.
    + intros m Hid Hs. unfold onReceiveDespawn. simpl.
      rewrite Hid, lookup_insert_eq. simpl. by rewrite bool_decide_eq_false_2.
    + intros req Hid Hreq Hlocal. unfold onReceiveOwnership at 1. simpl.
      rewrite Hid, lookup_insert_eq, Hreq. simpl.
      rewrite (bool_decide_eq_false_2 ("" = getLocalId p)) by done.
      rewrite orb_true_r. simpl. by rewrite lookup_insert_eq.
Qed.

(** *** Catching up after joining *)

(** X11.  A state snapshot addressed to another peer is ignored, and so is
    one for an id that is already registered.  A snapshot for an unknown id
    (addressed to this peer or to nobody) whose asset is available starts a
    load.  Once that load has settled with an instance, the entity is
    registered with the owner named in the snapshot, the snapshot's asset
    index and timestamp, locally tracked exactly when that owner is the
    local peer, and every snapshot for the same id received from then on
    changes nothing.  A snapshot for the same id received before the load
    has settled is not ignored: the id is still unregistered, and it starts
    a second load. *)
Theorem late_join_catch_up m p :
  (response_targetId m <> "" -> response_targetId m <> getLocalId p ->
     onReceiveStateResponse m p = p) /\
  (is_Some (syncedObjects p !! response_imageId m) -> onReceiveStateResponse m p = p) /\
  (forall trackedImages pose,
     response_targetId m = "" \/ response_targetId m = getLocalId p ->
     syncedObjects p !! response_imageId m = None ->
     imageTracking (config p) = Some trackedImages ->
     trackedImageAt trackedImages (response_assetIndex m) = Some {| hasObject := true |} ->
     syncedObjects
       (onLoadSettled (length (pendingLoads p)) (AssetLoaded (Some pose))
          (onReceiveStateResponse m p)) !! response_imageId m =
       Some {| object := nextHandle p;
               ownerId := response_ownerId m;
               assetIndex := response_assetIndex m;
               lastUpdate := response_timestamp m;
               isLocallyTracked := bool_decide (response_ownerId m = getLocalId p) |} /\
     (forall m',
        response_imageId m' = response_imageId m ->
        onReceiveStateResponse m'
          (onLoadSettled (length (pendingLoads p)) (AssetLoaded (Some pose))
             (onReceiveStateResponse m p))
        = onLoadSettled (length (pendingLoads p)) (AssetLoaded (Some pose))
            (onReceiveStateResponse m p)) /\
     (forall m',
        response_imageId m' = response_imageId m ->
        response_targetId m' = "" \/ response_targetId m' = getLocalId p ->
        trackedImageAt trackedImages (response_assetIndex m')
          = Some {| hasObject := true |} ->
        onReceiveStateResponse m' (onReceiveStateResponse m p)
        = set_pendingLoads (pendingLoads p ++ [asSpawn m; asSpawn m']) p)).
Proof.
  split; [|split].
  - intros H1 H2. unfold onReceiveStateResponse.
    by rewrite !bool_decide_eq_false_2.
  - intros [d Hd]. unfold onReceiveStateResponse. rewrite Hd. by destruct (_ && _).
  - intros trackedImages pose Htarget Hl Hi Hat.
    assert (Hrecv : onReceiveStateResponse m p =
              set_pendingLoads
                (pendingLoads p ++
                   [ {| spawn_senderId := response_ownerId m;
                        spawn_imageId := response_imageId m;
                        spawn_assetIndex := response_assetIndex m;
                        spawn_relativePosition := response_relativePosition m;
                        spawn_relativeRotation := response_relativeRotation m;
                        spawn_timestamp := response_timestamp m |} ]) p).
    { unfold onReceiveStateResponse. rewrite Hl.
      replace (negb (bool_decide (response_targetId m = ""))
               && negb (bool_decide (response_targetId m = getLocalId p))) with false.
      - by apply (createTrackedObject_parks _ _ trackedImages {| hasObject := true |}).
      - destruct Htarget as [Ht|Ht]; rewrite (bool_decide_eq_true_2 _ Ht); simpl;
          [done|by rewrite andb_false_r]. }
    rewrite Hrecv.
    set (parked := {| spawn_senderId := response_ownerId m;
                      spawn_imageId := response_imageId m;
                      spawn_assetIndex := response_assetIndex m;
                      spawn_relativePosition := response_relativePosition m;
                      spawn_relativeRotation := response_relativeRotation m;
                      spawn_timestamp := response_timestamp m |}).
    destruct (onLoadSettled_registry (length (pendingLoads p)) pose parked
                 (set_pendingLoads (pendingLoads p ++ [parked]) p)) as [Hr _].
    { simpl. by rewrite lookup_app_r, Nat.sub_diag by lia. }
    split; [|split].
    + rewrite Hr. simpl. by rewrite lookup_insert_eq.
    + intros m' Hid. unfold onReceiveStateResponse at 1.
      rewrite Hr, Hid. simpl. rewrite lookup_insert_eq. by destruct (_ && _).
    + intros m' Hid Htarget' Hat'. unfold onReceiveStateResponse at 1.
      cbn [syncedObjects set_pendingLoads]. rewrite Hid, Hl.
      replace (negb (bool_decide (response_targetId m' = ""))
               && negb (bool_decide
                          (response_targetId m'
                           = getLocalId (set_pendingLoads (pendingLoads p ++ [parked]) p))))
        with false.
      * rewrite (createTrackedObject_parks _ _ trackedImages {| hasObject := true |});
          [|done|done|done].
        unfold set_pendingLoads, asSpawn. cbn. by rewrite <- app_assoc, Hid.
      * destruct Htarget' as [Ht|Ht].
        -- by rewrite (bool_decide_eq_true_2 _ Ht).
        -- assert (Ht' : response_targetId m'
                         = getLocalId (set_pendingLoads (pendingLoads p ++ [parked]) p))
             by exact Ht.
           rewrite (bool_decide_eq_true_2 _ Ht'). simpl. by rewrite andb_false_r.
Qed.

(** *** Answering a state request *)

Lemma foldl_stateResponses now requester p
    (entries : list (string * SyncedTrackedObject)) es0 :
  foldl (fun acc (kd : string * SyncedTrackedObject) =>
           (fun imageId data acc =>
              if isLocallyTracked data then
                match scene acc !! object data, sandboxRoot (config acc) with
                | Some o, Some root =>
                    match calculateRelativeTransformFromObject acc
                            (worldPose root o).1 (worldPose root o).2 with
                    | Some transform =>
                        emit (Send (StateResponsePayload
                          {| response_targetId := requester;
                             response_imageId := imageId;
                             response_assetIndex := assetIndex data;
                             response_ownerId := ownerId data;
                             response_relativePosition := transform.1;
                             response_relativeRotation := transform.2;
                             response_timestamp := now |})) acc
                    | None => acc
                    end
                | _, _ => acc
                end
              else acc) kd.1 kd.2 acc)
    (appendLog es0 p) entries
  = appendLog (es0 ++ (entries ≫= fun kd => stateResponseFor now requester p kd.1 kd.2)) p.
Proof.
  revert es0. induction entries as [|[k d] entries IH]; intros es0.
  - simpl. by rewrite app_nil_r.
  - cbn [foldl fst snd]. rewrite bind_cons. unfold stateResponseFor at 1. simpl.
    destruct (isLocallyTracked d); [|by rewrite IH].
    destruct (scene p !! object d) as [o|]; [|by rewrite IH].
    destruct (sandboxRoot (config p)) as [root|] eqn:Hroot; [|by rewrite IH].
    unfold calculateRelativeTransformFromObject. simpl. rewrite Hroot.
    rewrite emit_appendLog, appendLog_app, IH. by rewrite <- app_assoc.
Qed.

(** X12.  A state request from the local peer itself is not answered.  A
    request from another peer changes nothing but the log: the peer sends
    one snapshot per registry entry it is driving (and whose host object and
    anchor root are available), addressed to the requester, carrying the
    entry's id, asset index and owner and the current time; it sends nothing
    for the entities driven by others. *)
Theorem state_request_answered now requester p :
  (requester = getLocalId p -> onReceiveStateRequest now requester p = p) /\
  (requester <> getLocalId p ->
     onReceiveStateRequest now requester p =
       appendLog (map_to_list (syncedObjects p)
                    ≫= fun kd => stateResponseFor now requester p kd.1 kd.2) p /\
     (forall e,
        e ∈ (map_to_list (syncedObjects p)
               ≫= fun kd => stateResponseFor now requester p kd.1 kd.2) ->
        exists m data,
          e = Send (StateResponsePayload m) /\
          syncedObjects p !! response_imageId m = Some data /\
          isLocallyTracked data = true /\
          response_targetId m = requester /\
          response_ownerId m = ownerId data /\
          response_assetIndex m = assetIndex data /\
          response_timestamp m = now) /\
     (forall imageId data o root,
        syncedObjects p !! imageId = Some data -> isLocallyTracked data = true ->
        scene p !! object data = Some o -> sandboxRoot (config p) = Some root ->
        exists m,
          Send (StateResponsePayload m)
            ∈ (map_to_list (syncedObjects p)
                 ≫= fun kd => stateResponseFor now requester p kd.1 kd.2) /\
          response_imageId m = imageId /\ response_targetId m = requester)).
Proof.
  split.
  - intros Hself. unfold onReceiveStateRequest. by rewrite bool_decide_eq_true_2.
  - intros Hother. split; [|split].
    + unfold onReceiveStateRequest, forEachSynced.
      rewrite bool_decide_eq_false_2 by done.
      rewrite <- (appendLog_nil p) at 1.
      by rewrite (foldl_stateResponses now requester p _ []).
    + intros e He. apply list_elem_of_bind in He as ([k d] & He & Hkd).
      apply elem_of_map_to_list in Hkd. unfold stateResponseFor in He. simpl in He.
      destruct (isLocallyTracked d) eqn:Hd; [|by apply elem_of_nil in He].
      destruct (scene p !! object d); [|by apply elem_of_nil in He].
      destruct (sandboxRoot (config p)); [|by apply elem_of_nil in He].
      destruct (calculateRelativeTransformFromObject _ _ _);
        [|by apply elem_of_nil in He].
      apply list_elem_of_singleton in He as ->.
      eexists _, d. split; [done|]. simpl. done.
    + intros imageId data o root Hl Hd Ho Hroot.
      eexists. split.
      * apply list_elem_of_bind. exists (imageId, data).
        split; [|by apply elem_of_map_to_list].
        unfold stateResponseFor. simpl. rewrite Hd, Ho, Hroot.
        unfold calculateRelativeTransformFromObject. rewrite Hroot.
        apply list_elem_of_here.
      * done.
Qed.

(** *** Throttled transform updates *)

Lemma trackImage_cases now b image p :
  trackImage now b image p = p \/
  exists transform,
    calculateRelativeTransform p image = Some transform /\
    ((syncedObjects p !! getImageId image = None /\
      trackImage now b image p =
        sendSpawnMessage now (getImageId image) (getAssetIndex image) transform p) \/
     (exists data,
        syncedObjects p !! getImageId image = Some data /\
        isLocallyTracked data = true /\ b = true /\
        trackImage now b image p =
          sendTransformMessage now (getImageId image) transform p) \/
     (exists data,
        syncedObjects p !! getImageId image = Some data /\
        isLocallyTracked data = false /\ ownerId data <> getLocalId p /\
        trackImage now b image p = requestOwnership now (getImageId image) p)).
Proof.
  unfold trackImage.
  destruct (calculateRelativeTransform p image) as [transform|]; [|by left].
  destruct (syncedObjects p !! getImageId image) as [data|] eqn:Hl.
  - destruct (isLocallyTracked data) eqn:Hd; simpl.
    + destruct b; [|by left]. right. exists transform. split; [done|].
      right. left. exists data. done.
    + case_bool_decide as Ho; simpl; [by left|].
      right. exists transform. split; [done|]. right. right. exists data. done.
  - right. exists transform. split; [done|]. by left.
Qed.

Lemma foldl_trackImage_quiet now images p :
  exists es,
    foldl (fun acc image => trackImage now false image acc) p images = appendLog es p /\
    Forall (fun e => isTransformSend e = false) es.
Proof.
  revert p. induction images as [|x images IH]; intros p.
  - exists []. split; [by rewrite appendLog_nil|done].
  - simpl.
    assert (Hstep : exists es1, trackImage now false x p = appendLog es1 p /\
                      Forall (fun e => isTransformSend e = false) es1).
    { destruct (trackImage_cases now false x p)
        as [->|(transform & _ & [[_ ->]|[(d & _ & _ & ? & _)|(d & _ & _ & _ & ->)]])].
      - exists []. split; [by rewrite appendLog_nil|done].
      - eexists. split; [apply emit_appendLog|]. by repeat constructor.
      - done.
      - eexists. split; [apply emit_appendLog|]. by repeat constructor. }
    destruct Hstep as (es1 & -> & Hq1).
    destruct (IH (appendLog es1 p)) as (es2 & -> & Hq2).
    exists (es1 ++ es2). split; [apply appendLog_app|]. by apply Forall_app.
Qed.

Lemma foldl_trackImage_effect now b images image p e :
  image ∈ images ->
  (forall es0, exists es,
     trackImage now b image (appendLog es0 p) = appendLog es (appendLog es0 p) /\ e ∈ es) ->
  exists es,
    foldl (fun acc image => trackImage now b image acc) p images = appendLog es p /\
    e ∈ es.
Proof.
  intros Hin Hstep.
  assert (Hgen : forall images es0, image ∈ images ->
            exists es,
              foldl (fun acc image => trackImage now b image acc) (appendLog es0 p) images
              = appendLog (es0 ++ es) p /\ e ∈ es).
  { clear Hin images. induction images as [|x images IH]; intros es0 Hin.
    - by apply elem_of_nil in Hin.
    - simpl. apply elem_of_cons in Hin as [<-|Hin].
      + destruct (Hstep es0) as (es & -> & He).
        destruct (foldl_trackImage_emits now b images (appendLog es (appendLog es0 p)))
          as [es' ->].
        exists (es ++ es'). split.
        * by rewrite !appendLog_app, app_assoc.
        * apply elem_of_app. by left.
      + destruct (trackImage_emits now b x (appendLog es0 p)) as [es1 ->].
        rewrite appendLog_app.
        destruct (IH (es0 ++ es1) Hin) as (es & -> & He).
        exists (es1 ++ es). split; [by rewrite app_assoc|].
        apply elem_of_app. by right. }
  destruct (Hgen images [] Hin) as (es & Hes & He).
  rewrite appendLog_nil in Hes. exists es. split; [|done]. by rewrite Hes.
Qed.

Lemma removalLog_Forall (P : Effect -> Prop) (before : string -> list Effect) selected
    (entries : list (string * SyncedTrackedObject)) :
  (forall i, Forall P (before i)) -> (forall h, P (Destroy h)) ->
  Forall P (removalLog before selected entries).
Proof.
  intros Hb Hd. unfold removalLog. apply Forall_forall. intros e He.
  apply list_elem_of_bind in He as (kd & He & _).
  apply elem_of_app in He as [He|He].
  - specialize (Hb kd.1). rewrite Forall_forall in Hb. by apply Hb.
  - apply list_elem_of_singleton in He as ->. apply Hd.
Qed.

Lemma checkForLostTracking_effects now images p :
  log (checkForLostTracking now images p) =
    log p ++ removalLog (lostTrackingMessages now (getLocalId p)) (trackingLost images)
               (map_to_list (syncedObjects p)) /\
  lastUpdateTime (checkForLostTracking now images p) = lastUpdateTime p /\
  syncedObjects (checkForLostTracking now images p) =
    filter (fun kd => trackingLost images kd.1 kd.2 = false) (syncedObjects p).
Proof.
  split; [|split].
  - pose proof (removalLoop_log (trackingLost images) _ _
                  (lostTracking_appends now) (map_to_list (syncedObjects p)) p
                  (NoDup_fst_map_to_list _)) as Hlog.
    destruct Hlog as (Hlog & _); [|exact Hlog].
    intros [k d] Hkd. by apply elem_of_map_to_list.
  - unfold checkForLostTracking.
    apply (forEachSynced_ind (fun acc => lastUpdateTime acc = lastUpdateTime p)); [done|].
    intros imageId data acc _ Hacc. destruct (_ && _); [|done].
    unfold removeTrackedObject. by destruct (syncedObjects _ !! imageId).
  - exact (removalLoop_filter (trackingLost images) _ _ (lostTracking_appends now) p).
Qed.

(** X13.  Transform updates are throttled by one clock shared by all
    entities.  A detection event arriving less than [updateInterval] after
    the last update tick sends no Transform at all and leaves the tick where
    it was.  One arriving later (with [canSync()] and at least one image)
    moves the tick to the current time and sends a Transform, stamped with
    the current time, for every detected image whose entity is locally
    tracked. *)
Theorem transform_updates_throttled now images p :
  (now - lastUpdateTime p < updateInterval (config p) ->
     lastUpdateTime (onImageTrackingUpdate now images p) = lastUpdateTime p /\
     exists sent,
       log (onImageTrackingUpdate now images p) = log p ++ sent /\
       Forall (fun e => isTransformSend e = false) sent) /\
  (canSync p = true -> images <> [] ->
   updateInterval (config p) <= now - lastUpdateTime p ->
     lastUpdateTime (onImageTrackingUpdate now images p) = now /\
     forall image data,
       image ∈ images ->
       syncedObjects p !! getImageId image = Some data ->
       isLocallyTracked data = true ->
       exists transform sent,
         calculateRelativeTransform p image = Some transform /\
         log (onImageTrackingUpdate now images p) = log p ++ sent /\
         Send (TransformPayload
           {| transform_senderId := getLocalId p;
              transform_imageId := getImageId image;
              transform_relativePosition := transform.1;
              transform_relativeRotation := transform.2;
              transform_timestamp := now |}) ∈ sent).
Proof.
  split.
  - intros Hearly. unfold onImageTrackingUpdate.
    destruct (negb (canSync p)).
    { split; [done|]. exists []. by rewrite app_nil_r. }
    destruct images as [|x images].
    { split; [done|]. exists []. by rewrite app_nil_r. }
    rewrite bool_decide_eq_false_2 by lia.
    destruct (foldl_trackImage_quiet now (x :: images) p) as (es & -> & Hquiet).
    destruct (checkForLostTracking_effects now (x :: images) (appendLog es p))
      as (Hlog & Htick & _).
    split; [by rewrite Htick|].
    eexists. split; [rewrite Hlog; simpl; by rewrite <- app_assoc|].
    apply Forall_app. split; [done|].
    apply removalLog_Forall; [|done]. intros i. by repeat constructor.
  - intros Hsync Hne Hlate. unfold onImageTrackingUpdate. rewrite Hsync. simpl.
    destruct images as [|x images]; [done|].
    rewrite bool_decide_eq_true_2 by lia.
    split.
    + destruct (foldl_trackImage_emits now true (x :: images) p) as [es ->].
      by destruct (checkForLostTracking_effects now (x :: images)
                     (set_lastUpdateTime now (appendLog es p))) as (_ & -> & _).
    + intros image data Hin Hl Hd.
      assert (Hroot : is_Some (sandboxRoot (config p))).
      { unfold canSync in Hsync.
        destruct (isInRoom (config p)); simpl in Hsync; [|done].
        case_bool_decide; simpl in Hsync; done. }
      destruct Hroot as [root Hroot].
      assert (Hcalc : exists transform,
                calculateRelativeTransform p image = Some transform).
      { unfold calculateRelativeTransform. rewrite Hroot. eauto. }
      destruct Hcalc as [transform Hcalc].
      destruct (foldl_trackImage_effect now true (x :: images) image p
                  (Send (TransformPayload
                     {| transform_senderId := getLocalId p;
                        transform_imageId := getImageId image;
                        transform_relativePosition := transform.1;
                        transform_relativeRotation := transform.2;
                        transform_timestamp := now |})) Hin)
        as (es & -> & Hsent).
      { intros es0. eexists. split; [|apply list_elem_of_here].
        unfold trackImage.
        change (calculateRelativeTransform (appendLog es0 p) image)
          with (calculateRelativeTransform p image).
        rewrite Hcalc. simpl. rewrite Hl, Hd. simpl. apply emit_appendLog. }
      destruct (checkForLostTracking_effects now (x :: images)
                  (set_lastUpdateTime now (appendLog es p))) as (Hlog & _ & _).
      exists transform. eexists. split; [done|]. split.
      * rewrite Hlog. simpl. by rewrite <- app_assoc.
      * apply elem_of_app. by left.
Qed.


(** *** Creation of entities *)

(** X15.  When the asset of a parked Spawn loads and yields an instance, one
    host object is instantiated under the next handle and registered for the
    id of the Spawn.  With the anchor root assigned the instance is parented
    under it and takes one smoothing step from its own initial pose toward
    the announced pose; with the anchor root unassigned it is added to the
    scene directly and keeps its initial pose (the announced pose is not
    applied).  The instance is activated and the load is no longer pending. *)
Theorem load_settled_creates_entity k pose m p :
  pendingLoads p !! k = Some m ->
  scene (onLoadSettled k (AssetLoaded (Some pose)) p) =
    <[nextHandle p :=
        match sandboxRoot (config p) with
        | Some root =>
            {| parent := ParentSandboxRoot;
               position := lerp pose.1 (spawn_relativePosition m)
                             (interpolationFactor (config p));
               quaternion := slerp pose.2 (spawn_relativeRotation m)
                               (interpolationFactor (config p));
               active := true; destroyed := false |}
        | None =>
            {| parent := ParentScene; position := pose.1; quaternion := pose.2;
               active := true; destroyed := false |}
        end]> (scene p) /\
  syncedObjects (onLoadSettled k (AssetLoaded (Some pose)) p) !! spawn_imageId m =
    Some {| object := nextHandle p;
            ownerId := spawn_senderId m;
            assetIndex := spawn_assetIndex m;
            lastUpdate := spawn_timestamp m;
            isLocallyTracked := bool_decide (spawn_senderId m = getLocalId p) |} /\
  log (onLoadSettled k (AssetLoaded (Some pose)) p) = log p ++ [Instantiate (nextHandle p)] /\
  pendingLoads (onLoadSettled k (AssetLoaded (Some pose)) p) = delete k (pendingLoads p).
Proof.
  intros Hk.
  destruct (onLoadSettled_registry k pose m p Hk) as [Hr _].
  split; [|split; [by rewrite Hr, lookup_insert_eq|]].
  - unfold onLoadSettled. rewrite Hk. cbv zeta. unfold setActive, applyRelativeTransform.
    simpl. destruct (sandboxRoot (config p)) as [root|]; simpl.
    + rewrite lookup_insert_eq. simpl.
      by rewrite insert_insert_eq, alter_insert_eq.
    + by rewrite alter_insert_eq.
  - unfold onLoadSettled. rewrite Hk. cbv zeta. unfold setActive, applyRelativeTransform.
    simpl. destruct (sandboxRoot (config p)) as [root|]; simpl; [|done].
    rewrite lookup_insert_eq. done.
Qed.

Lemma dispatch_nextHandle e p :
  nextHandle (dispatch e p) = nextHandle p \/
  exists k pose m,
    e = LoadSettled k (AssetLoaded (Some pose)) /\ pendingLoads p !! k = Some m.
Proof.
  destruct e as [now images|m|m|m|m|now senderId|m|userId|userId|k outcome]; simpl.
  - left. apply onImageTrackingUpdate_shrinks.
  - left. unfold onReceiveSpawn. destruct (syncedObjects p !! spawn_imageId m).
    + by case_bool_decide.
    + apply createTrackedObject_frame.
  - left. unfold onReceiveTransform.
    destruct (syncedObjects p !! transform_imageId m); [|done].
    destruct (negb _); [done|]. destruct (_ && _); [done|].
    case_bool_decide; [done|]. simpl. apply applyRelativeTransform_nextHandle.
  - left. apply onReceiveDespawn_shrinks.
  - left. unfold onReceiveOwnership.
    destruct (syncedObjects p !! ownership_imageId m); [|done].
    destruct (ownership_action m); by match goal with
      |- context [if ?b then _ else _] => destruct b end.
  - left. apply onReceiveStateRequest_frame.
  - left. unfold onReceiveStateResponse. destruct (_ && _); [done|].
    destruct (syncedObjects p !! response_imageId m); [done|].
    apply createTrackedObject_frame.
  - left. unfold onUserJoined. by case_bool_decide.
  - left. apply onUserLeft_shrinks.
  - destruct (pendingLoads p !! k) as [m|] eqn:Hk.
    + destruct outcome as [[pose|]| |]; [right; eauto| | |];
        left; unfold onLoadSettled; by rewrite Hk.
    + left. unfold onLoadSettled. by rewrite Hk.
Qed.

Lemma elem_of_delete_pending {A} (l : list A) k x : x ∈ delete k l -> x ∈ l.
Proof.
  revert k. induction l as [|y l IH]; intros [|k] Hx; try done.
  - by apply list_elem_of_further.
  - simpl in Hx. apply elem_of_cons in Hx as [->|Hx].
    + apply list_elem_of_here.
    + apply list_elem_of_further. by apply (IH k).
Qed.

Lemma removeTrackedObject_pendingLoads imageId p :
  pendingLoads (removeTrackedObject imageId p) = pendingLoads p.
Proof. unfold removeTrackedObject. by destruct (syncedObjects p !! imageId). Qed.

Lemma applyRelativeTransform_pendingLoads h pos rot p :
  pendingLoads (applyRelativeTransform h pos rot p) = pendingLoads p.
Proof.
  unfold applyRelativeTransform.
  destruct (sandboxRoot (config p)); [|done]. by destruct (scene p !! h).
Qed.

(** What a handler parks for a received Spawn or snapshot. *)
Lemma createTrackedObject_pendingLoads m p :
  pendingLoads (createTrackedObject m p) = pendingLoads p \/
  pendingLoads (createTrackedObject m p) = pendingLoads p ++ [m].
Proof.
  unfold createTrackedObject.
  destruct (imageTracking (config p)) as [trackedImages|]; [|by left].
  destruct (trackedImageAt trackedImages (spawn_assetIndex m)) as [model|]; [|by left].
  destruct (hasObject model); [by right|by left].
Qed.

(** X16.  Entities are created only through a received Spawn or state
    snapshot: an id that was not registered becomes registered only when the
    pending asset load of a message carrying that id settles with an
    instance, and a load becomes pending only when a Spawn or a snapshot is
    received for an id that is not registered. *)
Theorem entities_come_from_spawns_and_snapshots e p :
  (forall imageId,
     syncedObjects p !! imageId = None ->
     is_Some (syncedObjects (dispatch e p) !! imageId) ->
     exists k pose m,
       e = LoadSettled k (AssetLoaded (Some pose)) /\
       pendingLoads p !! k = Some m /\ spawn_imageId m = imageId) /\
  (forall m,
     m ∈ pendingLoads (dispatch e p) ->
     m ∈ pendingLoads p \/
     (e = ReceiveSpawn m /\ syncedObjects p !! spawn_imageId m = None) \/
     (exists r,
        e = ReceiveStateResponse r /\
        syncedObjects p !! response_imageId r = None /\
        m = {| spawn_senderId := response_ownerId r;
               spawn_imageId := response_imageId r;
               spawn_assetIndex := response_assetIndex r;
               spawn_relativePosition := response_relativePosition r;
               spawn_relativeRotation := response_relativeRotation r;
               spawn_timestamp := response_timestamp r |})).
Proof.
  split.
  - intros imageId Hnone [d' Hd'].
    destruct (dispatch_recordsContinue e p) as [_ Hstep].
    destruct (Hstep imageId d' Hd') as [(d & Hd & _)|[_ Hlt]]; [congruence|].
    destruct (dispatch_nextHandle e p) as [Heq|(k & pose & m & -> & Hk)]; [lia|].
    exists k, pose, m. split; [done|]. split; [done|].
    destruct (onLoadSettled_registry k pose m p Hk) as [Hr _].
    simpl in Hd'. rewrite Hr in Hd'.
    destruct (decide (spawn_imageId m = imageId)) as [Heq|Hne]; [done|].
    rewrite lookup_insert_ne in Hd' by done. congruence.
  - intros m Hm.
    destruct e as [now images|m0|m0|m0|m0|now senderId|r|userId|userId|k outcome];
      simpl in Hm.
    + left. revert Hm. unfold onImageTrackingUpdate.
      destruct (negb (canSync p)); [done|]. destruct images as [|x images]; [done|].
      set (b := bool_decide _).
      destruct (foldl_trackImage_emits now b (x :: images) p) as [es ->].
      set (p2 := if b then _ else _).
      assert (Hp2 : pendingLoads p2 = pendingLoads p) by (unfold p2; by destruct b).
      rewrite <- Hp2. clearbody p2. unfold checkForLostTracking.
      assert (Hsame : pendingLoads
                (forEachSynced (fun imageId data acc =>
                   if isLocallyTracked data
                      && negb (bool_decide (imageId ∈ (list_to_set (getImageId <$> x :: images)
                                                         : gset string)))
                   then removeTrackedObject imageId
                          (sendDespawnMessage now imageId (releaseOwnership now imageId acc))
                   else acc) p2) = pendingLoads p2).
      { apply (forEachSynced_ind (fun acc => pendingLoads acc = pendingLoads p2)); [done|].
        intros i d acc _ Hacc. destruct (_ && _); [|done].
        by rewrite removeTrackedObject_pendingLoads. }
      by rewrite Hsame.
    + unfold onReceiveSpawn in Hm.
      destruct (syncedObjects p !! spawn_imageId m0) as [d|] eqn:Hl.
      * left. by destruct (bool_decide _).
      * destruct (createTrackedObject_pendingLoads m0 p) as [Heq|Heq];
          rewrite Heq in Hm; [by left|].
        apply elem_of_app in Hm as [Hm|Hm]; [by left|].
        apply list_elem_of_singleton in Hm as ->. right. left. done.
    + left. revert Hm. unfold onReceiveTransform.
      destruct (syncedObjects p !! transform_imageId m0); [|done].
      destruct (negb _); [done|]. destruct (_ && _); [done|].
      case_bool_decide; [done|]. simpl. by rewrite applyRelativeTransform_pendingLoads.
    + left. revert Hm. unfold onReceiveDespawn.
      destruct (syncedObjects p !! despawn_imageId m0); [|done].
      destruct (negb _); [done|]. by rewrite removeTrackedObject_pendingLoads.
    + left. revert Hm. unfold onReceiveOwnership.
      destruct (syncedObjects p !! ownership_imageId m0); [|done].
      destruct (ownership_action m0); by match goal with
        |- context [if ?b then _ else _] => destruct b end.
    + left. revert Hm. unfold onReceiveStateRequest. case_bool_decide; [done|].
      intros Hm.
      assert (Hsame : pendingLoads (onReceiveStateRequest now senderId p) = pendingLoads p).
      { unfold onReceiveStateRequest. rewrite bool_decide_eq_false_2 by done.
        apply (forEachSynced_ind (fun acc => pendingLoads acc = pendingLoads p)); [done|].
        intros i d acc _ Hacc. destruct (isLocallyTracked d); [|done].
        destruct (scene acc !! object d); [|done].
        destruct (sandboxRoot (config acc)); [|done].
        by destruct (calculateRelativeTransformFromObject _ _ _). }
      unfold onReceiveStateRequest in Hsame. rewrite bool_decide_eq_false_2 in Hsame by done.
      by rewrite Hsame in Hm.
    + unfold onReceiveStateResponse in Hm. destruct (_ && _); [by left|].
      destruct (syncedObjects p !! response_imageId r) as [d|] eqn:Hl; [by left|].
      match type of Hm with context [createTrackedObject ?x p] =>
        destruct (createTrackedObject_pendingLoads x p) as [Heq|Heq] end;
        rewrite Heq in Hm; [by left|].
      apply elem_of_app in Hm as [Hm|Hm]; [by left|].
      apply list_elem_of_singleton in Hm as ->. right. right. exists r. done.
    + left. revert Hm. unfold onUserJoined. by case_bool_decide.
    + left. revert Hm. unfold onUserLeft.
      assert (Hsame : pendingLoads (onUserLeft userId p) = pendingLoads p).
      { unfold onUserLeft.
        apply (forEachSynced_ind (fun acc => pendingLoads acc = pendingLoads p)); [done|].
        intros i d acc _ Hacc. case_bool_decide; [|done].
        by rewrite removeTrackedObject_pendingLoads. }
      unfold onUserLeft in Hsame. by rewrite Hsame.
    + left. revert Hm. unfold onLoadSettled.
      destruct (pendingLoads p !! k) as [msg|]; [|done].
      destruct outcome as [[pose|]| |]; simpl;
        try rewrite applyRelativeTransform_pendingLoads; simpl;
        apply elem_of_delete_pending.
Qed.

(** *** What is sent, and when *)

Lemma foldl_trackImage_sentAs now b images p :
  exists es,
    foldl (fun acc image => trackImage now b image acc) p images = appendLog es p /\
    Forall (sentAs (getLocalId p)) es.
Proof.
  revert p. induction images as [|x images IH]; intros p.
  - exists []. split; [by rewrite appendLog_nil|done].
  - simpl.
    assert (Hstep : exists es1, trackImage now b x p = appendLog es1 p /\
                      Forall (sentAs (getLocalId p)) es1).
    { destruct (trackImage_cases now b x p)
        as [->|(transform & _ & [[_ ->]|[(d & _ & _ & _ & ->)|(d & _ & _ & _ & ->)]])].
      - exists []. split; [by rewrite appendLog_nil|done].
      - eexists. split; [apply emit_appendLog|]. by repeat constructor.
      - eexists. split; [apply emit_appendLog|]. by repeat constructor.
      - eexists. split; [apply emit_appendLog|]. by repeat constructor. }
    destruct Hstep as (es1 & -> & Hq1).
    destruct (IH (appendLog es1 p)) as (es2 & -> & Hq2).
    exists (es1 ++ es2). split; [apply appendLog_app|]. by apply Forall_app.
Qed.

Lemma applyRelativeTransform_log h pos rot p :
  log (applyRelativeTransform h pos rot p) = log p.
Proof.
  unfold applyRelativeTransform.
  destruct (sandboxRoot (config p)); [|done]. by destruct (scene p !! h).
Qed.

Lemma quiet_effects localId (es : list Effect) :
  Forall (fun x => isSend x = false) es -> Forall (sentAs localId) es.
Proof.
  intros Hq. apply (Forall_impl _ _ _ Hq). intros [pl| | | | | | | |] Hx; done.
Qed.

Lemma dispatch_effects e p :
  exists es,
    log (dispatch e p) = log p ++ es /\
    Forall (sentAs (getLocalId p)) es /\
    (sendingEvent e = false -> Forall (fun x => isSend x = false) es).
Proof.
  assert (Hquiet : forall es (q : Peer) (b : bool),
            log q = log p ++ es ->
            Forall (fun x => isSend x = false) es ->
            exists es, log q = log p ++ es /\
                       Forall (sentAs (getLocalId p)) es /\
                       (b = false -> Forall (fun x => isSend x = false) es)).
  { intros es q b Hlog Hq. exists es. split; [done|]. split; [|done].
    by apply quiet_effects. }
  assert (Hnil : forall q, log q = log p -> log q = log p ++ [])
    by (intros q ->; by rewrite app_nil_r).
  destruct e as [now images|m|m|m|m|now senderId|m|userId|userId|k outcome]; simpl.
  - unfold onImageTrackingUpdate.
    destruct (negb (canSync p));
      [exists []; by rewrite app_nil_r|].
    destruct images as [|x images]; [exists []; by rewrite app_nil_r|].
    set (b := bool_decide _).
    destruct (foldl_trackImage_sentAs now b (x :: images) p) as (es1 & -> & Hes1).
    set (p2 := if b then _ else _).
    assert (Hp2 : log p2 = log p ++ es1 /\ config p2 = config p /\
                  syncedObjects p2 = syncedObjects p)
      by (unfold p2; by destruct b).
    destruct Hp2 as (Hlog2 & Hc2 & _).
    destruct (checkForLostTracking_effects now (x :: images) p2) as (Hlog & _).
    rewrite Hlog, Hlog2, <- app_assoc. eexists. split; [done|].
    split; [|done]. apply Forall_app. split; [done|].
    apply removalLog_Forall; [|done].
    intros i. unfold getLocalId. rewrite Hc2. by repeat constructor.
  - unfold onReceiveSpawn.
    destruct (syncedObjects p !! spawn_imageId m);
      [apply (Hquiet []); [apply Hnil; by case_bool_decide|done]|].
    unfold createTrackedObject.
    destruct (imageTracking (config p)) as [ti|];
      [|apply (Hquiet []); [by apply Hnil|done]].
    destruct (trackedImageAt ti _) as [model|];
      [destruct (hasObject model)|].
    + apply (Hquiet []); [by apply Hnil|done].
    + apply (Hquiet [Warn]); [done|by repeat constructor].
    + apply (Hquiet [Warn]); [done|by repeat constructor].
  - apply (Hquiet []); [|done]. apply Hnil. unfold onReceiveTransform.
    destruct (syncedObjects p !! transform_imageId m); [|done].
    destruct (negb _); [done|]. destruct (_ && _); [done|].
    case_bool_decide; [done|]. simpl. apply applyRelativeTransform_log.
  - unfold onReceiveDespawn.
    destruct (syncedObjects p !! despawn_imageId m) as [d|] eqn:Hl;
      [|apply (Hquiet []); [by apply Hnil|done]].
    destruct (negb _); [apply (Hquiet []); [by apply Hnil|done]|].
    apply (Hquiet [Destroy (object d)]); [|by repeat constructor].
    unfold removeTrackedObject. by rewrite Hl.
  - apply (Hquiet []); [|done]. apply Hnil. unfold onReceiveOwnership.
    destruct (syncedObjects p !! ownership_imageId m); [|done].
    destruct (ownership_action m); by match goal with
      |- context [if ?b then _ else _] => destruct b end.
  - unfold onReceiveStateRequest. case_bool_decide as Hself.
    + exists []. by rewrite app_nil_r.
    + assert (Heq : forEachSynced (fun imageId data acc =>
                if isLocallyTracked data then
                  match scene acc !! object data, sandboxRoot (config acc) with
                  | Some o, Some root =>
                      match calculateRelativeTransformFromObject acc
                              (worldPose root o).1 (worldPose root o).2 with
                      | Some transform =>
                          emit (Send (StateResponsePayload
                            {| response_targetId := senderId;
                               response_imageId := imageId;
                               response_assetIndex := assetIndex data;
                               response_ownerId := ownerId data;
                               response_relativePosition := transform.1;
                               response_relativeRotation := transform.2;
                               response_timestamp := now |})) acc
                      | None => acc
                      end
                  | _, _ => acc
                  end
                else acc) p
              = appendLog (map_to_list (syncedObjects p)
                             ≫= fun kd => stateResponseFor now senderId p kd.1 kd.2) p).
      { unfold forEachSynced. rewrite <- (appendLog_nil p) at 1.
        exact (foldl_stateResponses now senderId p _ []). }
      rewrite Heq. simpl.
      eexists. split; [done|]. split; [|done].
      apply Forall_forall. intros e He.
      apply list_elem_of_bind in He as ([i d] & He & _).
      unfold stateResponseFor in He. simpl in He.
      destruct (isLocallyTracked d); [|by apply elem_of_nil in He].
      destruct (scene p !! object d); [|by apply elem_of_nil in He].
      destruct (sandboxRoot (config p)); [|by apply elem_of_nil in He].
      destruct (calculateRelativeTransformFromObject _ _ _);
        [|by apply elem_of_nil in He].
      apply list_elem_of_singleton in He as ->. done.
  - unfold onReceiveStateResponse.
    destruct (_ && _); [apply (Hquiet []); [by apply Hnil|done]|].
    destruct (syncedObjects p !! response_imageId m);
      [apply (Hquiet []); [by apply Hnil|done]|].
    unfold createTrackedObject.
    destruct (imageTracking (config p)) as [ti|];
      [|apply (Hquiet []); [by apply Hnil|done]].
    destruct (trackedImageAt ti _) as [model|];
      [destruct (hasObject model)|].
    + apply (Hquiet []); [by apply Hnil|done].
    + apply (Hquiet [Warn]); [done|by repeat constructor].
    + apply (Hquiet [Warn]); [done|by repeat constructor].
  - unfold onUserJoined. case_bool_decide.
    + eexists. split; [done|]. split; [|done]. by repeat constructor.
    + exists []. by rewrite app_nil_r.
  - assert (Hpre : forall i acc,
              (fun (_ : string) (q : Peer) => q) i acc
              = appendLog ((fun _ _ => []) (config acc) i) acc)
      by (intros; by rewrite appendLog_nil).
    pose (sel := fun (_ : string) d => bool_decide (ownerId d = userId)).
    assert (Hlog : log (onUserLeft userId p)
                   = log p ++ removalLog (fun _ => []) sel (map_to_list (syncedObjects p))).
    { pose proof (removalLoop_log sel _ _ Hpre (map_to_list (syncedObjects p)) p
                    (NoDup_fst_map_to_list _)) as Hl.
      destruct Hl as (Hl & _); [|exact Hl].
      intros [i d] Hkd. by apply elem_of_map_to_list. }
    apply (Hquiet _ _ _ Hlog). by apply removalLog_Forall.
  - unfold onLoadSettled.
    destruct (pendingLoads p !! k) as [msg|]; [|apply (Hquiet []); [by apply Hnil|done]].
    destruct outcome as [[pose|]| |]; cbv zeta.
    + apply (Hquiet [Instantiate (nextHandle p)]); [|by repeat constructor].
      unfold setActive. simpl. by rewrite applyRelativeTransform_log.
    + apply (Hquiet []); [by apply Hnil|done].
    + apply (Hquiet []); [by apply Hnil|done].
    + apply (Hquiet [LogError]); [done|by repeat constructor].
Qed.

Lemma run_effects events p :
  exists es,
    log (run events p) = log p ++ es /\
    Forall (sentAs (getLocalId p)) es /\
    (Forall (fun e => sendingEvent e = false) events ->
     Forall (fun x => isSend x = false) es).
Proof.
  revert p. induction events as [|e events IH]; intros p.
  - exists []. simpl. by rewrite app_nil_r.
  - rewrite run_cons.
    destruct (dispatch_effects e p) as (es1 & Hlog1 & Hs1 & Hq1).
    destruct (IH (dispatch e p)) as (es2 & Hlog2 & Hs2 & Hq2).
    exists (es1 ++ es2). split; [by rewrite Hlog2, Hlog1, app_assoc|]. split.
    + apply Forall_app. split; [done|].
      unfold getLocalId in *. by rewrite dispatch_config in Hs2.
    + intros Hev. apply Forall_cons in Hev as [He Hev].
      apply Forall_app. split; [by apply Hq1|by apply Hq2].
Qed.

(** X17.  A peer sends only in its own name.  Along every run from the empty
    registry, every Spawn, Transform, Despawn, Ownership and state-request
    message the component sends carries the local peer id as its sender, and
    no state snapshot it sends is addressed to the local peer itself. *)
Theorem messages_sent_in_own_name c events :
  Forall (sentAs (default "" (connectionId c))) (log (run events (awake c))).
Proof.
  destruct (run_effects events (awake c)) as (es & Hlog & Hs & _).
  rewrite Hlog. simpl. exact Hs.
Qed.

(** X18.  Receiving never makes the component send.  The handlers of a
    received Spawn, Transform, Despawn, Ownership message or state snapshot,
    of a peer leaving, and of a settled asset load only append to the trace
    of calls, and what they append contains no [connection.send]: messages
    go out only on a detection, on a state request and on a join. *)
Theorem receipt_sends_nothing events p :
  Forall (fun e => sendingEvent e = false) events ->
  exists es,
    log (run events p) = log p ++ es /\
    Forall (fun x => isSend x = false) es.
Proof.
  intros Hev. destruct (run_effects events p) as (es & Hlog & _ & Hq).
  exists es. split; [done|]. by apply Hq.
Qed.

(** *** Enabling and disabling *)

Lemma foldl_beginListen (ts : list Topic) p :
  foldl (fun acc t => emit (BeginListen t) acc) p ts = appendLog (BeginListen <$> ts) p.
Proof.
  revert p. induction ts as [|t ts IH]; intros p; simpl.
  - by rewrite appendLog_nil.
  - by rewrite IH, emit_appendLog, appendLog_app.
Qed.

(** X19.  Disabling undoes what enabling subscribed.  [onEnable] only makes
    calls (it changes neither the registry nor the scene), and [onDisable]
    after it first makes, in the same order, the call that undoes each
    subscription of [onEnable] (the detection listener when the tracker is
    assigned, then the eight network topics), before anything else. *)
Theorem disable_undoes_enable now p :
  exists enabled rest,
    onEnable p = appendLog enabled p /\
    log (onDisable now (onEnable p)) =
      log p ++ enabled ++ (undoes <$> filter (fun e => isSubscription e = true) enabled)
            ++ rest /\
    Forall (fun e => isSend e = true) rest /\
    (forall t, BeginListen t ∈ enabled <-> t ∈ networkTopics).
Proof.
  unfold onEnable. cbv zeta.
  set (l1 := match imageTracking (config p) with
             | Some _ => [AddImageTrackingListener] | None => [Warn] end).
  set (l2 := match sandboxRoot (config p) with
             | Some _ => [] | None => [Warn] end : list Effect).
  assert (Hen : foldl (fun acc t => emit (BeginListen t) acc)
                  match sandboxRoot
                          (config match imageTracking (config p) with
                                  | Some _ => emit AddImageTrackingListener p
                                  | None => emit Warn p
                                  end) with
                  | Some _ => match imageTracking (config p) with
                              | Some _ => emit AddImageTrackingListener p
                              | None => emit Warn p
                              end
                  | None => emit Warn match imageTracking (config p) with
                                      | Some _ => emit AddImageTrackingListener p
                                      | None => emit Warn p
                                      end
                  end networkTopics
                = appendLog (l1 ++ l2 ++ (BeginListen <$> networkTopics)) p).
  { rewrite foldl_beginListen. unfold l1, l2.
    destruct (imageTracking (config p)); simpl;
      destruct (sandboxRoot (config p)); simpl;
      by rewrite ?emit_appendLog, ?appendLog_app. }
  rewrite Hen.
  exists (l1 ++ l2 ++ (BeginListen <$> networkTopics)).
  exists (despawnsOf now (getLocalId p) (map_to_list (syncedObjects p))).
  split; [done|]. split; [|split].
  - rewrite onDisable_effects. simpl. rewrite <- !app_assoc.
    do 3 f_equal. rewrite !app_assoc. f_equal. rewrite <- !app_assoc.
    unfold unsubscriptions, l1, l2. simpl.
    destruct (imageTracking (config p)); destruct (sandboxRoot (config p)); reflexivity.
  - unfold despawnsOf. apply Forall_forall. intros e He.
    apply list_elem_of_fmap in He as (kd & -> & _). done.
  - intros t. split.
    + intros Ht. apply elem_of_app in Ht as [Ht|Ht].
      { unfold l1 in Ht. destruct (imageTracking (config p));
          apply list_elem_of_singleton in Ht; discriminate Ht. }
      apply elem_of_app in Ht as [Ht|Ht].
      { unfold l2 in Ht. destruct (sandboxRoot (config p));
          [by apply elem_of_nil in Ht|].
        apply list_elem_of_singleton in Ht; discriminate Ht. }
      apply list_elem_of_fmap in Ht as (t' & Heq & Ht'). by injection Heq as ->.
    + intros Ht. apply elem_of_app. right. apply elem_of_app. right.
      apply list_elem_of_fmap. by exists t.
Qed.

End FurtherProperties.

(** ** The further properties on concrete inputs *)

Section FurtherConcrete.
Import Scenario.

Local Open Scope Z_scope.

Lemma peer_left_cleanup_witness :
  syncedObjects (onUserLeft "B" remoteEntity) !! imageId0 = None /\
  log (onUserLeft "B" remoteEntity) = log remoteEntity ++ [Destroy 0%nat] /\
  released (onUserLeft "B" remoteEntity) 0%nat /\
  onUserLeft "C" remoteEntity = remoteEntity.
Proof.
  destruct (peer_left_cleanup "B" remoteEntity) as (Hreg & Hlog & Hrel & _).
  assert (Hl : syncedObjects remoteEntity !! imageId0 = Some (recordOf "B" 10 false))
    by (vm_compute; reflexivity).
  split; [|split; [|split]].
  - rewrite Hreg. apply map_lookup_filter_None. right.
    intros d Hd. rewrite Hl in Hd. injection Hd as <-. simpl. by intros [].
  - rewrite Hlog. reflexivity.
  - apply (Hrel imageId0 _ Hl); [reflexivity|]. eexists. reflexivity.
  - reflexivity.
Defined.

Lemma lost_tracking_cleanup_witness :
  canSync ownEntity = true /\
  syncedObjects (onImageTrackingUpdate 100 [detected1] ownEntity) !! imageId0 = None /\
  released (onImageTrackingUpdate 100 [detected1] ownEntity) 0%nat /\
  (exists l1 l2,
     log (onImageTrackingUpdate 100 [detected1] ownEntity) =
       log ownEntity ++ l1
         ++ [ Send (OwnershipPayload (releaseFrom "A" 100));
              Send (DespawnPayload (despawnFrom "A" 100)) ]
         ++ [Destroy 0%nat] ++ l2).
Proof.
  assert (Hsync : canSync ownEntity = true) by reflexivity.
  assert (Hne : [detected1] <> []) by discriminate.
  destruct (lost_tracking_cleanup 100 [detected1] ownEntity Hsync Hne)
    as (Hreg & _ & Hlost).
  assert (Hl : syncedObjects ownEntity !! imageId0 = Some (recordOf "A" 10 true))
    by (vm_compute; reflexivity).
  destruct (Hlost imageId0 _ Hl) as (Hlog & Hrel); [vm_compute; reflexivity|].
  split; [exact Hsync|]. split; [|split].
  - rewrite Hreg. apply map_lookup_filter_None. right.
    intros d Hd. rewrite Hl in Hd. injection Hd as <-. simpl. vm_compute. discriminate.
  - apply Hrel. eexists. reflexivity.
  - exact Hlog.
Defined.

Lemma ownership_invariant_along_run_witness :
  ownershipInvariant
    (run [ReceiveSpawn (spawnFrom "A" 10); LoadSettled 0 (AssetLoaded (Some pose0));
          ReceiveOwnership (releaseFrom "B" 20); ReceiveOwnership (requestFrom "B" 21)]
       (awake configA)).
Proof.
  apply ownership_invariant_along_run.
  intros e He Hself.
  repeat (apply elem_of_cons in He as [->|He]); try (by apply elem_of_nil in He);
    simpl in Hself; try done.
  - destruct Hself as [_ Hs]. discriminate Hs.
  - destruct Hself as [Hs _]. discriminate Hs.
Defined.

Lemma ownership_request_handover_witness :
  syncedObjects remoteEntity !! imageId0 = Some (recordOf "B" 10 false) /\
  syncedObjects (onReceiveOwnership (requestFrom "C" 15) remoteEntity) !! imageId0
    = Some (recordOf "C" 10 false) /\
  onReceiveTransform (transformFrom "B" 8 20)
    (onReceiveOwnership (requestFrom "C" 15) remoteEntity)
    = onReceiveOwnership (requestFrom "C" 15) remoteEntity /\
  syncedObjects (onReceiveTransform (transformFrom "C" 8 20)
                   (onReceiveOwnership (requestFrom "C" 15) remoteEntity)) !! imageId0
    = Some (recordOf "C" 20 false).
Proof.
  assert (Hl : syncedObjects remoteEntity !! ownership_imageId (requestFrom "C" 15)
               = Some (recordOf "B" 10 false)) by (vm_compute; reflexivity).
  destruct (ownership_request_handover remoteEntity (requestFrom "C" 15)
              (recordOf "B" 10 false) Hl eq_refl) as [_ Hgrant].
  destruct Hgrant as (Heq & Hdrop & Haccept); [by intros [Hd _]|].
  split; [exact Hl|]. split; [|split].
  - rewrite Heq. vm_compute. reflexivity.
  - apply Hdrop; [reflexivity|discriminate].
  - apply (Haccept (transformFrom "C" 8 20)); [reflexivity|reflexivity|discriminate|].
    simpl. lia.
Defined.

Lemma ownership_release_unowns_witness :
  syncedObjects remoteEntity !! imageId0 = Some (recordOf "B" 10 false) /\
  onReceiveOwnership (releaseFrom "C" 15) remoteEntity = remoteEntity /\
  syncedObjects (onReceiveOwnership (releaseFrom "B" 15) remoteEntity) !! imageId0
    = Some (recordOf "" 10 false) /\
  onReceiveTransform (transformFrom "B" 8 20)
    (onReceiveOwnership (releaseFrom "B" 15) remoteEntity)
    = onReceiveOwnership (releaseFrom "B" 15) remoteEntity.
Proof.
  assert (Hl : syncedObjects remoteEntity !! ownership_imageId (releaseFrom "B" 15)
               = Some (recordOf "B" 10 false)) by (vm_compute; reflexivity).
  destruct (ownership_release_unowns remoteEntity (releaseFrom "C" 15)
              (recordOf "B" 10 false) Hl eq_refl) as [Hstale _].
  destruct (ownership_release_unowns remoteEntity (releaseFrom "B" 15)
              (recordOf "B" 10 false) Hl eq_refl) as [_ Hrel].
  destruct (Hrel eq_refl) as (Heq & Hdrop & _).
  split; [exact Hl|]. split; [|split].
  - apply Hstale. discriminate.
  - rewrite Heq. vm_compute. reflexivity.
  - apply Hdrop; [reflexivity|discriminate].
Defined.

Lemma late_join_catch_up_witness :
  syncedObjects
    (onLoadSettled 0 (AssetLoaded (Some pose0))
       (onReceiveStateResponse snapshotOfB (awake configA))) !! imageId0
    = Some (recordOf "B" 10 false) /\
  onReceiveStateResponse snapshotOfB
    (onLoadSettled 0 (AssetLoaded (Some pose0))
       (onReceiveStateResponse snapshotOfB (awake configA)))
  = onLoadSettled 0 (AssetLoaded (Some pose0))
      (onReceiveStateResponse snapshotOfB (awake configA)) /\
  pendingLoads (onReceiveStateResponse snapshotOfB
                  (onReceiveStateResponse snapshotOfB (awake configA)))
  = [spawnFrom "B" 10; spawnFrom "B" 10].
Proof.
  destruct (late_join_catch_up snapshotOfB (awake configA)) as (_ & _ & Hnew).
  destruct (Hnew [ {| hasObject := true |} ] pose0) as (Hreg & Hdup & Hpending);
    [by right|reflexivity|reflexivity|reflexivity|].
  split; [exact Hreg|]. split.
  - apply Hdup. reflexivity.
  - rewrite (Hpending snapshotOfB); [reflexivity|reflexivity|by right|reflexivity].
Defined.

Lemma missing_assets_register_nothing_witness :
  onReceiveSpawn spawnOfSlot5 (awake configA) = emit Warn (awake configA) /\
  syncedObjects (onLoadSettled 0 AssetRejected
                   (onReceiveSpawn (spawnFrom "B" 10) (awake configA))) = ∅.
Proof.
  destruct (missing_assets_register_nothing spawnOfSlot5 (awake configA))
    as (_ & Hbad & _).
  destruct (missing_assets_register_nothing (spawnFrom "B" 10)
              (onReceiveSpawn (spawnFrom "B" 10) (awake configA)))
    as (_ & _ & Hfail).
  destruct (Hfail 0%nat AssetRejected) as (Hreg & _); [right; by left|].
  split.
  - apply (Hbad [ {| hasObject := true |} ]); [reflexivity|].
    right. left. simpl. lia.
  - rewrite Hreg. reflexivity.
Defined.

Lemma state_request_answered_witness :
  onReceiveStateRequest 100 "A" ownEntity = ownEntity /\
  log (onReceiveStateRequest 100 "B" ownEntity) =
    log ownEntity ++
    [ Send (StateResponsePayload
        {| response_targetId := "B"; response_imageId := imageId0;
           response_assetIndex := 0; response_ownerId := "A";
           response_relativePosition := vec3 0 0 0;
           response_relativeRotation := identityQuaternion;
           response_timestamp := 100 |}) ] /\
  onReceiveStateRequest 100 "B" remoteEntity = remoteEntity.
Proof.
  destruct (state_request_answered 100 "A" ownEntity) as [Hself _].
  destruct (state_request_answered 100 "B" ownEntity) as [_ Hother].
  destruct Hother as (Heq & _); [discriminate|].
  destruct (state_request_answered 100 "B" remoteEntity) as [_ Hremote].
  destruct Hremote as (Heq' & _); [discriminate|].
  split; [by apply Hself|]. split.
  - rewrite Heq. reflexivity.
  - rewrite Heq'. reflexivity.
Defined.

Lemma transform_updates_throttled_witness :
  lastUpdateTime (onImageTrackingUpdate 20 [detected0] ownEntity) = 0 /\
  Forall (fun e => isTransformSend e = false)
    (drop (length (log ownEntity)) (log (onImageTrackingUpdate 20 [detected0] ownEntity))) /\
  lastUpdateTime (onImageTrackingUpdate 100 [detected0] ownEntity) = 100 /\
  Send (TransformPayload
    {| transform_senderId := "A"; transform_imageId := imageId0;
       transform_relativePosition := vec3 1 2 3;
       transform_relativeRotation := identityQuaternion;
       transform_timestamp := 100 |})
    ∈ log (onImageTrackingUpdate 100 [detected0] ownEntity).
Proof.
  destruct (transform_updates_throttled 20 [detected0] ownEntity) as [Hearly _].
  destruct Hearly as (Htick & sent & Hlog & Hquiet); [vm_compute; reflexivity|].
  destruct (transform_updates_throttled 100 [detected0] ownEntity) as [_ Hlate].
  destruct Hlate as (Htick' & Hsends); [reflexivity|discriminate|vm_compute; discriminate|].
  destruct (Hsends detected0 (recordOf "A" 10 true)) as (transform & sent' & Hc & Hlog' & Hin);
    [apply list_elem_of_here|vm_compute; reflexivity|reflexivity|].
  split; [exact Htick|]. split; [|split; [exact Htick'|]].
  - rewrite Hlog, drop_app_length. exact Hquiet.
  - assert (Ht : transform = (vec3 1 2 3, identityQuaternion)).
    { assert (Hc' : calculateRelativeTransform ownEntity detected0
                    = Some (vec3 1 2 3, identityQuaternion)) by reflexivity.
      rewrite Hc' in Hc. by injection Hc. }
    subst transform. rewrite Hlog'. apply elem_of_app. right. exact Hin.
Defined.


Lemma load_settled_creates_entity_witness :
  pendingLoads (onReceiveSpawn (spawnFrom "B" 10) (awake configA)) !! 0%nat
    = Some (spawnFrom "B" 10) /\
  syncedObjects (onLoadSettled 0 (AssetLoaded (Some pose0))
                   (onReceiveSpawn (spawnFrom "B" 10) (awake configA))) !! imageId0
    = Some (recordOf "B" 10 false) /\
  log (onLoadSettled 0 (AssetLoaded (Some pose0))
         (onReceiveSpawn (spawnFrom "B" 10) (awake configA)))
    = log (onReceiveSpawn (spawnFrom "B" 10) (awake configA)) ++ [Instantiate 0%nat].
Proof.
  assert (Hk : pendingLoads (onReceiveSpawn (spawnFrom "B" 10) (awake configA)) !! 0%nat
               = Some (spawnFrom "B" 10)) by reflexivity.
  destruct (@load_settled_creates_entity RatThree 0 pose0 _ _ Hk) as (_ & Hreg & Hlog & _).
  split; [exact Hk|]. split; [exact Hreg|exact Hlog].
Defined.

Lemma entities_come_from_spawns_and_snapshots_witness :
  syncedObjects (awake configA) !! imageId0 = None /\
  syncedObjects (dispatch (ReceiveSpawn (spawnFrom "B" 10)) (awake configA)) !! imageId0
    = None /\
  (spawnFrom "B" 10 ∈ pendingLoads (awake configA) \/
   syncedObjects (awake configA) !! spawn_imageId (spawnFrom "B" 10) = None).
Proof.
  assert (Hnone : syncedObjects (awake configA) !! imageId0 = None) by reflexivity.
  destruct (entities_come_from_spawns_and_snapshots
              (ReceiveSpawn (spawnFrom "B" 10)) (awake configA)) as [Hreg Hpend].
  split; [exact Hnone|]. split.
  - apply eq_None_not_Some. intros Hsome.
    destruct (Hreg imageId0 Hnone Hsome) as (k & pose & m & He & _). discriminate He.
  - destruct (Hpend (spawnFrom "B" 10)) as [Hin|[[_ Hl]|(r & He & _)]].
    + apply list_elem_of_here.
    + by left.
    + by right.
    + discriminate He.
Defined.

Lemma receipt_sends_nothing_witness :
  exists es,
    log (run [ReceiveSpawn (spawnFrom "B" 10); LoadSettled 0 (AssetLoaded (Some pose0));
              ReceiveTransform (transformFrom "B" 8 20); UserLeft "B"]
           (awake configA))
      = log (awake configA) ++ es /\
    Forall (fun x => isSend x = false) es.
Proof.
  apply receipt_sends_nothing. by repeat constructor.
Defined.

End FurtherConcrete.
